(** * Shallow embedding of the search orchestration of github-watch (main.go)

    The development follows [src/main.go]: the query sanitizer and the URL
    encoding ([sanitizeCodeQuery], [urlQueryEscape]), the rate governor
    ([throttleFrom]), the paginated search and the aggregation
    ([runSearches], [dedupeCode], [dedupeRepo]) and the commit-date fan-out
    ([enrichWithCommitDates]).

    Conventions.
    - A Go [string] is a sequence of bytes: [string] of 8-bit [ascii].
    - A Go [int], [int64] or [time.Duration] is a [Z] and every arithmetic
      operation is followed by its 64-bit wrap-around [wrap64].
    - A [time.Time] is the number of nanoseconds since the zero instant of Go
      (January 1 of year 1, UTC), an unbounded [Z]; the zero [time.Time] is 0.
    - What the program gets from outside (HTTP answers, the clock, the state of
      the context, the order in which workers deliver) is read from an
      environment [Env]; functions of Go's library that the program only calls
      ([sort.Slice], [json.Unmarshal], [time.Parse], [Time.Format]) are the
      fields of [GoLib]. *)

From Stdlib Require Import ZArith Lia Ascii.
From stdpp Require Import base tactics option list strings pretty gmap sorting relations.

Local Open Scope Z_scope.

(** ** Machine integers *)

Definition maxInt64 : Z := 9223372036854775807.
Definition minInt64 : Z := -9223372036854775808.

(** Two's complement wrap-around of a 64-bit signed integer. *)
Definition wrap64 (x : Z) : Z := (x + 2 ^ 63) mod 2 ^ 64 - 2 ^ 63.

Definition add64 (a b : Z) : Z := wrap64 (a + b).
Definition sub64 (a b : Z) : Z := wrap64 (a - b).
Definition mul64 (a b : Z) : Z := wrap64 (a * b).
Definition neg64 (a : Z) : Z := wrap64 (- a).

(** ** Bytes and strings *)

Definition byte_of (n : nat) : ascii := Ascii.ascii_of_nat n.
Definition code (c : ascii) : nat := Ascii.nat_of_ascii c.

Definition str1 (c : ascii) : string := String c "".

Definition bytes (l : list nat) : string :=
  foldr (fun n s => String (byte_of n) s) "" l.

(** Concatenation of a list of strings. *)
Definition flat (l : list string) : string := foldr String.app "" l.

Definition is_digit (c : ascii) : bool := (48 <=? code c)%nat && (code c <=? 57)%nat.
Definition is_upper (c : ascii) : bool := (65 <=? code c)%nat && (code c <=? 90)%nat.
Definition is_lower (c : ascii) : bool := (97 <=? code c)%nat && (code c <=? 122)%nat.
Definition is_alnum (c : ascii) : bool := is_digit c || is_upper c || is_lower c.

Definition ascii_eqb (a b : ascii) : bool := bool_decide (a = b).

Fixpoint mem_char (c : ascii) (s : string) : bool :=
  match s with
  | "" => false
  | String d s' => ascii_eqb c d || mem_char c s'
  end.

(** [strings.ToLower] on the ASCII letters.  Bytes outside ASCII are kept; the
    program only compares the result with the ASCII words "code", "repo" and
    "search", which no letter outside ASCII lower-cases into. *)
Definition lower_byte (c : ascii) : ascii :=
  if is_upper c then byte_of (code c + 32) else c.

Fixpoint strings_ToLower (s : string) : string :=
  match s with
  | "" => ""
  | String c s' => String (lower_byte c) (strings_ToLower s')
  end.

(** [s[:n]] and [s[n:]] for [n <= len(s)]. *)
Fixpoint str_take (n : nat) (s : string) : string :=
  match n, s with
  | S k, String c s' => String c (str_take k s')
  | _, _ => ""
  end.

Fixpoint str_drop (n : nat) (s : string) : string :=
  match n, s with
  | S k, String _ s' => str_drop k s'
  | _, _ => s
  end.

(** [stripPrefix p s] is [Some r] when [s = p ++ r]. *)
Fixpoint stripPrefix (p s : string) : option string :=
  match p, s with
  | "", _ => Some s
  | String a p', String b s' => if ascii_eqb a b then stripPrefix p' s' else None
  | String _ _, "" => None
  end.

Definition hasPrefix (p s : string) : bool :=
  match stripPrefix p s with Some _ => true | None => false end.

(** The white space of [unicode.IsSpace], as UTF-8 byte sequences: the six
    ASCII ones, U+0085, U+00A0, U+1680, U+2000 to U+200A, U+2028, U+2029,
    U+202F, U+205F and U+3000. *)
Definition unicode_spaces : list string :=
  [ bytes [9]; bytes [10]; bytes [11]; bytes [12]; bytes [13]; bytes [32];
    bytes [194; 133]; bytes [194; 160]; bytes [225; 154; 128];
    bytes [226; 128; 128]; bytes [226; 128; 129]; bytes [226; 128; 130];
    bytes [226; 128; 131]; bytes [226; 128; 132]; bytes [226; 128; 133];
    bytes [226; 128; 134]; bytes [226; 128; 135]; bytes [226; 128; 136];
    bytes [226; 128; 137]; bytes [226; 128; 138]; bytes [226; 128; 168];
    bytes [226; 128; 169]; bytes [226; 128; 175]; bytes [226; 129; 159];
    bytes [227; 128; 128] ]%nat.

(** The first of the sequences [ps] that starts [s], with what follows it. *)
Fixpoint firstPrefix (ps : list string) (s : string) : option (string * string) :=
  match ps with
  | [] => None
  | p :: ps' =>
      match stripPrefix p s with
      | Some r => Some (p, r)
      | None => firstPrefix ps' s
      end
  end.

(** Number of bytes of the white-space rune that starts [s], 0 when [s] does
    not start with one. *)
Definition spaceWidth (s : string) : nat :=
  match firstPrefix unicode_spaces s with
  | Some (p, _) => String.length p
  | None => O
  end.

(** [strings.TrimLeftFunc(s, unicode.IsSpace)]; [n] bounds the number of runes
    taken off and is the length of [s] at the call. *)
Fixpoint trimLeft (n : nat) (s : string) : string :=
  match n with
  | O => s
  | S k =>
      match firstPrefix unicode_spaces s with
      | Some (_, r) => trimLeft k r
      | None => s
      end
  end.

(** Trailing white space is found by [utf8.DecodeLastRuneInString]; a string
    ends with a white-space rune exactly when its reversal starts with the
    reversed encoding of one. *)
Definition unicode_spaces_rev : list string := String.rev <$> unicode_spaces.

Fixpoint trimLeftRev (n : nat) (s : string) : string :=
  match n with
  | O => s
  | S k =>
      match firstPrefix unicode_spaces_rev s with
      | Some (_, r) => trimLeftRev k r
      | None => s
      end
  end.

Definition trimRight (s : string) : string :=
  String.rev (trimLeftRev (String.length s) (String.rev s)).

Definition strings_TrimSpace (s : string) : string :=
  trimRight (trimLeft (String.length s) s).

(** [strings.Fields]: the maximal runs of bytes between white-space runes.
    [skip] counts the bytes of a white-space rune still to pass over, [cur] is
    the field being read, reversed. *)
Definition flushField (cur : string) : list string :=
  match cur with "" => [] | _ => [String.rev cur] end.

Fixpoint fieldsFrom (skip : nat) (cur : string) (s : string) : list string :=
  match s with
  | "" => flushField cur
  | String c s' =>
      match skip with
      | S k => fieldsFrom k cur s'
      | O =>
          match spaceWidth s with
          | O => fieldsFrom O (String c cur) s'
          | S w => flushField cur ++ fieldsFrom w "" s'
          end
      end
  end.

Definition strings_Fields (s : string) : list string := fieldsFrom O "" s.

(** [strings.Join]. *)
Fixpoint strings_Join (l : list string) (sep : string) : string :=
  match l with
  | [] => ""
  | [x] => x
  | x :: l' => x +:+ sep +:+ strings_Join l' sep
  end.

(** [strings.ReplaceAll(s, old, new)] for a non-empty [old]: the occurrences
    of [old] are taken from the left and do not overlap.  [skip] counts the
    bytes of an occurrence still to pass over.  (Go gives the empty [old] a
    meaning of its own, per rune; the program never passes it.) *)
Fixpoint replaceFrom (old new : string) (skip : nat) (s : string) : string :=
  match s with
  | "" => ""
  | String c s' =>
      match skip with
      | S k => replaceFrom old new k s'
      | O =>
          if hasPrefix old s
          then new +:+ replaceFrom old new (String.length old - 1) s'
          else String c (replaceFrom old new O s')
      end
  end.

Definition strings_ReplaceAll (s old new : string) : string :=
  replaceFrom old new O s.

(** [truncate] of main.go; the suffix is the UTF-8 ellipsis. *)
Definition ellipsis : string := bytes [226; 128; 166]%nat.

Definition truncate (s : string) (n : nat) : string :=
  if (String.length s <=? n)%nat then s else str_take n s +:+ ellipsis.

(** ** net/url escaping *)

Definition upperhex (n : nat) : ascii :=
  match String.get n "0123456789ABCDEF" with Some c => c | None => "0"%char end.

(** [shouldEscape(c, encodeQueryComponent)]. *)
Definition shouldEscapeQuery (c : ascii) : bool :=
  if is_alnum c then false
  else if mem_char c "-_.~" then false
  else true.

(** [shouldEscape(c, encodePathSegment)]: of the reserved characters only
    slash, semicolon, comma and question mark are escaped. *)
Definition shouldEscapePath (c : ascii) : bool :=
  if is_alnum c then false
  else if mem_char c "-_.~" then false
  else if mem_char c "$&+:=@" then false
  else true.

Definition pct (c : ascii) : string :=
  String "%" (String (upperhex (code c / 16)) (String (upperhex (code c mod 16)) "")).

Definition escapeQueryByte (c : ascii) : string :=
  if shouldEscapeQuery c
  then (if ascii_eqb c " " then "+" else pct c)
  else str1 c.

Definition escapePathByte (c : ascii) : string :=
  if shouldEscapePath c then pct c else str1 c.

Fixpoint neturl_QueryEscape (s : string) : string :=
  match s with
  | "" => ""
  | String c s' => escapeQueryByte c +:+ neturl_QueryEscape s'
  end.

Fixpoint neturl_PathEscape (s : string) : string :=
  match s with
  | "" => ""
  | String c s' => escapePathByte c +:+ neturl_PathEscape s'
  end.

(** ** [urlQueryEscape] *)

Definition urlQueryEscape (q : string) : string :=
  let enc := neturl_QueryEscape (strings_TrimSpace q) in
  let enc := strings_ReplaceAll enc "%3A" ":" in
  let enc := strings_ReplaceAll enc "%3a" ":" in
  let enc := strings_ReplaceAll enc "%28" "(" in
  let enc := strings_ReplaceAll enc "%29" ")" in
  let enc := strings_ReplaceAll enc "%3E" ">" in
  let enc := strings_ReplaceAll enc "%3e" ">" in
  let enc := strings_ReplaceAll enc "%3C" "<" in
  let enc := strings_ReplaceAll enc "%3c" "<" in
  let enc := strings_ReplaceAll enc "%3D" "=" in
  let enc := strings_ReplaceAll enc "%3d" "=" in
  let enc := strings_ReplaceAll enc "%2C" "," in
  let enc := strings_ReplaceAll enc "%2c" "," in
  let enc := strings_ReplaceAll enc "%2F" "/" in
  let enc := strings_ReplaceAll enc "%2f" "/" in
  let enc := strings_ReplaceAll enc "%7C" "|" in
  let enc := strings_ReplaceAll enc "%7c" "|" in
  enc.

Definition urlPathEscape (p : string) : string := neturl_PathEscape p.

(** The lenient encoding in the words of the specification: the string is
    percent-encoded byte by byte, and the operator characters colon,
    parentheses, greater-than, less-than, equals, comma, slash and pipe stand
    for themselves. *)
Definition operatorChars : string := ":()><=,/|".

Definition lenientByte (c : ascii) : string :=
  if mem_char c operatorChars then str1 c else escapeQueryByte c.

Fixpoint lenientEncode (s : string) : string :=
  match s with
  | "" => ""
  | String c s' => lenientByte c +:+ lenientEncode s'
  end.

(** ** The fork qualifier and [sanitizeCodeQuery] *)

(** The regular expression [forkQual] is
    [(?i)\bfork\s*:\s*(true|false|only)\b].  Its matcher is written out:
    [\b] is the ASCII word boundary, [\s] is one of tab, newline, form feed,
    carriage return and space, and under [(?i)] a letter also stands for its
    upper case and for the runes that fold to it (the Kelvin sign for k, the
    long s for s), given here by their UTF-8 bytes. *)
Definition is_word (c : ascii) : bool := is_alnum c || ascii_eqb c "_".

Definition is_reSpace (c : ascii) : bool :=
  mem_char c (bytes [9; 10; 12; 13; 32]%nat).

Definition wordAt (o : option ascii) : bool :=
  match o with Some c => is_word c | None => false end.

(** [\b] between a byte [prev] and a byte [next] ([None] at either end). *)
Definition wordBoundary (prev next : option ascii) : bool :=
  xorb (wordAt prev) (wordAt next).

Definition strHead (s : string) : option ascii :=
  match s with "" => None | String c _ => Some c end.

Definition upper_byte (c : ascii) : ascii :=
  if is_lower c then byte_of (code c - 32) else c.

Definition foldOrbit (c : ascii) : list string :=
  [str1 c; str1 (upper_byte c)] ++
  (if ascii_eqb c "k" then [bytes [226; 132; 170]%nat]
   else if ascii_eqb c "s" then [bytes [197; 191]%nat]
   else []).

Definition matchFold (c : ascii) (s : string) : option string :=
  snd <$> firstPrefix (foldOrbit c) s.

Fixpoint matchWordFold (w s : string) : option string :=
  match w with
  | "" => Some s
  | String c w' =>
      match matchFold c s with
      | Some r => matchWordFold w' r
      | None => None
      end
  end.

Fixpoint skipReSpace (s : string) : string :=
  match s with
  | "" => ""
  | String c s' => if is_reSpace c then skipReSpace s' else s
  end.

(** One alternative of [(true|false|only)] followed by the closing [\b],
    which looks at the last byte matched and at the byte that follows. *)
Definition lastMatched (s r : string) : option ascii :=
  String.get (String.length s - String.length r - 1) s.

Definition matchAlt (w s : string) : option string :=
  match matchWordFold w s with
  | Some r => if wordBoundary (lastMatched s r) (strHead r) then Some r else None
  | None => None
  end.

Definition orElse {A} (x y : option A) : option A :=
  match x with Some _ => x | None => y end.

(** A match of [forkQual] that starts at the head of [s], the byte before
    being [prev]: what is left of [s] after the match.  The starred [\s] is
    followed by a byte outside [\s] on every path, so taking the whole run of
    white space is the only way to match. *)
Definition forkQual_match (prev : option ascii) (s : string) : option string :=
  if wordBoundary prev (strHead s) then
    match matchWordFold "fork" s with
    | None => None
    | Some r1 =>
        match stripPrefix ":" (skipReSpace r1) with
        | None => None
        | Some r3 =>
            let r4 := skipReSpace r3 in
            orElse (matchAlt "true" r4)
              (orElse (matchAlt "false" r4) (matchAlt "only" r4))
        end
    end
  else None.

(** [forkQual.ReplaceAllString(q, "")]: matches are searched from the left, a
    new search starts where the last match ended. *)
Fixpoint removeFork (skip : nat) (prev : option ascii) (s : string) : string :=
  match s with
  | "" => ""
  | String c s' =>
      match skip with
      | S k => removeFork k (Some c) s'
      | O =>
          match forkQual_match prev s with
          | Some r => removeFork (String.length s - String.length r - 1) (Some c) s'
          | None => String c (removeFork O (Some c) s')
          end
      end
  end.

Definition forkQual_ReplaceAllString (q : string) : string := removeFork O None q.

Definition sanitizeCodeQuery (q : string) : string :=
  let q := forkQual_ReplaceAllString q in
  let q := strings_Join (strings_Fields q) " " in
  strings_TrimSpace q.

(** [url.QueryUnescape], by which the receiver reads a query parameter: a
    plus sign is a space, a percent sign and two hexadecimal digits are a
    byte, any other byte is itself; [None] for a percent sign not followed by
    two hexadecimal digits. *)
Definition unhex (c : ascii) : option nat :=
  if is_digit c then Some (code c - 48)%nat
  else if (97 <=? code c)%nat && (code c <=? 102)%nat then Some (code c - 87)%nat
  else if (65 <=? code c)%nat && (code c <=? 70)%nat then Some (code c - 55)%nat
  else None.

Fixpoint neturl_QueryUnescape (s : string) : option string :=
  match s with
  | "" => Some ""
  | String c s' =>
      if ascii_eqb c "%" then
        match s' with
        | String x (String y r) =>
            match unhex x, unhex y with
            | Some a, Some b =>
                String (byte_of (16 * a + b)) <$> neturl_QueryUnescape r
            | _, _ => None
            end
        | _ => None
        end
      else if ascii_eqb c "+" then String " " <$> neturl_QueryUnescape s'
      else String c <$> neturl_QueryUnescape s'
  end.

(** Auxiliary notions for the proofs about the encoding. *)

(** An escape triple. *)
Definition pctToken (x y : ascii) : string := String "%" (String x (String y "")).

(** Shape of the tokens that [neturl_QueryEscape] writes: one byte other than
    the percent sign, or a percent sign and two such bytes. *)
Definition tokOK (t : string) : bool :=
  match t with
  | String c "" => negb (ascii_eqb c "%")
  | String c (String a (String b "")) =>
      ascii_eqb c "%" && negb (ascii_eqb a "%") && negb (ascii_eqb b "%")
  | _ => false
  end.

Definition swapTok (old new t : string) : string :=
  if bool_decide (t = old) then new else t.

Fixpoint chars (s : string) : list ascii :=
  match s with
  | "" => []
  | String c s' => c :: chars s'
  end.

(** The restoring steps of [urlQueryEscape], on one token. *)
Definition restoreTok (t : string) : string :=
  let t := swapTok (pctToken "3" "A") ":" t in
  let t := swapTok (pctToken "3" "a") ":" t in
  let t := swapTok (pctToken "2" "8") "(" t in
  let t := swapTok (pctToken "2" "9") ")" t in
  let t := swapTok (pctToken "3" "E") ">" t in
  let t := swapTok (pctToken "3" "e") ">" t in
  let t := swapTok (pctToken "3" "C") "<" t in
  let t := swapTok (pctToken "3" "c") "<" t in
  let t := swapTok (pctToken "3" "D") "=" t in
  let t := swapTok (pctToken "3" "d") "=" t in
  let t := swapTok (pctToken "2" "C") "," t in
  let t := swapTok (pctToken "2" "c") "," t in
  let t := swapTok (pctToken "2" "F") "/" t in
  let t := swapTok (pctToken "2" "f") "/" t in
  let t := swapTok (pctToken "7" "C") "|" t in
  let t := swapTok (pctToken "7" "c") "|" t in
  t.

(** ** strconv *)

(** The digits of [s] read in base 10, [None] when a byte is not a digit. *)
Fixpoint parseDigits (acc : Z) (s : string) : option Z :=
  match s with
  | "" => Some acc
  | String c s' =>
      if is_digit c then parseDigits (acc * 10 + (Z.of_nat (code c) - 48)) s'
      else None
  end.

(** [strconv.ParseInt(s, 10, 64)]: the value returned and whether [err] is
    [nil].  A syntax error returns 0, a range error the nearest bound. *)
Definition strconv_ParseInt (s : string) : Z * bool :=
  match s with
  | "" => (0, false)
  | String c s' =>
      let neg := ascii_eqb c "-" in
      let body := if neg || ascii_eqb c "+" then s' else s in
      match body with
      | "" => (0, false)
      | _ =>
          match parseDigits 0 body with
          | None => (0, false)
          | Some un =>
              if negb neg && (2 ^ 63 <=? un) then (maxInt64, false)
              else if neg && (2 ^ 63 <? un) then (minInt64, false)
              else (if neg then - un else un, true)
          end
      end
  end.

(** [strconv.Atoi] on a 64-bit platform. *)
Definition strconv_Atoi (s : string) : Z * bool := strconv_ParseInt s.

(** ** time *)

Definition Time : Type := Z.
Definition Duration : Type := Z.

Definition Nanosecond : Duration := 1.
Definition Millisecond : Duration := 1000000.
Definition Second : Duration := 1000000000.
Definition Minute : Duration := 60 * Second.
Definition Hour : Duration := 60 * Minute.

Definition zeroTime : Time := 0.
Definition IsZero (t : Time) : bool := t =? 0.
Definition Before (t u : Time) : bool := t <? u.
Definition After (t u : Time) : bool := u <? t.

(** Seconds from the zero instant to the Unix epoch. *)
Definition unixToInternal : Z := 62135596800.

(** [time.Unix(sec, 0)]. *)
Definition time_Unix (sec : Z) : Time := add64 sec unixToInternal * Second.

(** [t.Sub(u)], which saturates at the bounds of [Duration]. *)
Definition time_Sub (t u : Time) : Duration :=
  if t - u <? minInt64 then minInt64
  else if maxInt64 <? t - u then maxInt64
  else t - u.

(** [time.Until(t)] when the clock reads [now]. *)
Definition time_Until (now t : Time) : Duration := time_Sub t now.

(** [t.Add(d)]. *)
Definition time_Add (t : Time) (d : Duration) : Time := t + d.

(** [t.UnixNano()]. *)
Definition UnixNano (t : Time) : Z := wrap64 (t - unixToInternal * Second).

(** ** HTTP responses *)

Record Response := {
  StatusCode : Z;
  Header : gmap string string;
  Body : string
}.

(** [resp.Header.Get(key)]: the value of the header, the empty string when
    the header is absent.  Header names are taken up to their canonical form. *)
Definition Header_Get (h : gmap string string) (key : string) : string :=
  default "" (h !! key).

(** ** [throttleFrom]

    The value is the duration handed to [time.Sleep]; [now] is the reading of
    the clock inside the call ([time.Until] and the jitter each read it once,
    on different paths).  [time.Sleep] returns at once on a duration that is
    not positive. *)
Definition retryAfter (resp : Response) : option Duration :=
  let ra := Header_Get (Header resp) "Retry-After" in
  if bool_decide (ra = "") then None
  else
    match strconv_Atoi (strings_TrimSpace ra) with
    | (secs, true) =>
        if 0 <? secs then Some (add64 (mul64 secs Second) (mul64 500 Millisecond))
        else None
    | (_, false) => None
    end.

Definition throttleFrom (now : Time) (resp : Response) : Duration :=
  let resource := strings_ToLower (Header_Get (Header resp) "X-RateLimit-Resource") in
  let baseWait :=
    if bool_decide (resource = "search") then mul64 12 Second
    else mul64 1500 Millisecond in
  let rem := fst (strconv_Atoi (Header_Get (Header resp) "X-RateLimit-Remaining")) in
  match retryAfter resp with
  | Some d => d
  | None =>
      if (StatusCode resp =? 403) || (rem <=? 2) then
        let fallback :=
          if bool_decide (resource = "search") then mul64 90 Second
          else mul64 30 Second in
        match strconv_ParseInt (Header_Get (Header resp) "X-RateLimit-Reset") with
        | (resetUnix, true) =>
            let wait := time_Until now (time_Unix resetUnix) in
            if 0 <? wait then
              let capWait :=
                if negb (bool_decide (resource = "search")) then mul64 5 Minute
                else mul64 2 Minute in
              let wait := if capWait <? wait then capWait else wait in
              add64 wait (mul64 500 Millisecond)
            else fallback
        | (_, false) => fallback
        end
      else
        let jitterMs := Z.rem (UnixNano now) (mul64 2000 Millisecond) in
        add64 baseWait jitterMs
  end.

(** The largest number of seconds whose duration, with the margin of
    [throttleFrom], fits in a [Duration]. *)
Definition maxRetryAfter : Z := 9223372036.

(** The time [time.Sleep(d)] keeps the caller waiting, at least. *)
Definition pause (d : Duration) : Duration := Z.max 0 d.

(** ** Settings, queries and hits *)

Record AppSettings := {
  DaysBack : Z;
  OpenAIModel : string;
  MaxPages : Z;
  PerPage : Z;
  UseCommitCheck : bool;
  IncludeRepoSearch : bool;
  QueriesFile : string
}.

Definition defaultDaysBack : Z := 7.
Definition defaultModel : string := "gpt-5".
Definition maxPagesDefault : Z := 2.
Definition perPageDefault : Z := 50.

(** The settings [handleSaveSettings] stores for the settings [i] it is
    sent: values out of bounds are replaced by the defaults. *)
Definition enforceBounds (i : AppSettings) : AppSettings :=
  {| DaysBack :=
       if (DaysBack i <? 1) || (365 <? DaysBack i) then defaultDaysBack else DaysBack i;
     OpenAIModel :=
       if bool_decide (OpenAIModel i = "") then defaultModel else OpenAIModel i;
     MaxPages :=
       if (MaxPages i <? 1) || (10 <? MaxPages i) then maxPagesDefault else MaxPages i;
     PerPage :=
       if (PerPage i <? 10) || (100 <? PerPage i) then perPageDefault else PerPage i;
     UseCommitCheck := UseCommitCheck i;
     IncludeRepoSearch := IncludeRepoSearch i;
     QueriesFile := QueriesFile i |}.

Module SearchQuery.
Record t := mk {
  Name : string;
  Type_ : string;
  Query : string;
  Enabled : bool
}.
End SearchQuery.

Module SearchGroup.
Record t := mk {
  Name : string;
  Enabled : bool;
  Searches : list SearchQuery.t
}.
End SearchGroup.

Record QueriesSpec := { Groups : list SearchGroup.t }.

Module CodeHit.
Record t := mk {
  Group : string;
  QueryName : string;
  Repository : string;
  RepoURL : string;
  FilePath : string;
  FileURL : string;
  Language : string;
  RepoPushed : Time;
  CommitDate : Time
}.

(** [h.CommitDate = d]. *)
Definition setCommitDate (d : Time) (h : t) : t :=
  mk (Group h) (QueryName h) (Repository h) (RepoURL h) (FilePath h)
     (FileURL h) (Language h) (RepoPushed h) d.
End CodeHit.

Module RepoHit.
Record t := mk {
  Group : string;
  QueryName : string;
  FullName : string;
  HTMLURL : string;
  Description : string;
  PushedAt : Time;
  CreatedAt : Time
}.
End RepoHit.

Record Findings := {
  RunID : string;
  SinceISO : string;
  FDaysBack : Z;
  Generated : string;
  CodeHits : list CodeHit.t;
  RepoHits : list RepoHit.t;
  Notes : list string
}.

(** [Findings{}]. *)
Definition Findings_zero : Findings :=
  {| RunID := ""; SinceISO := ""; FDaysBack := 0; Generated := "";
     CodeHits := []; RepoHits := []; Notes := [] |}.

(** ** The decoded JSON answers *)

Record codeRepo := {
  cr_FullName : string;
  cr_HTMLURL : string;
  cr_Language : string
}.

Record codeItem := {
  ci_Name : string;
  ci_Path : string;
  ci_SHA : string;
  ci_HTMLURL : string;
  ci_Repository : codeRepo
}.

Record codeSearchResp := {
  cs_TotalCount : Z;
  cs_IncompleteResults : bool;
  cs_Items : list codeItem
}.

Record repoItem := {
  ri_FullName : string;
  ri_HTMLURL : string;
  ri_Description : string;
  ri_PushedAt : string;
  ri_CreatedAt : string;
  ri_Topics : list string
}.

Record repoSearchResp := {
  rs_TotalCount : Z;
  rs_IncompleteResults : bool;
  rs_Items : list repoItem
}.

(** An entry of [commitResp]. *)
Record commitEntry := {
  ce_SHA : string;
  ce_AuthorDate : string;
  ce_HTMLURL : string
}.

(** ** Deduplication *)

Definition codeKey (h : CodeHit.t) : string :=
  CodeHit.Repository h +:+ "|" +:+ CodeHit.FilePath h +:+ "|" +:+ CodeHit.FileURL h.

Definition repoKey (h : RepoHit.t) : string := RepoHit.FullName h.

(** The loop of [dedupeCode] and [dedupeRepo] over the key [key]: [seen] is
    the map of the keys met, [out] the slice being built. *)
Definition dedupeStep {A} (key : A -> string)
    (st : gmap string bool * list A) (h : A) : gmap string bool * list A :=
  let '(seen, out) := st in
  if negb (default false (seen !! key h))
  then (<[key h := true]> seen, out ++ [h])
  else (seen, out).

Definition dedupeBy {A} (key : A -> string) (l : list A) : list A :=
  snd (foldl (dedupeStep key) (∅, []) l).

Definition dedupeCode (l : list CodeHit.t) : list CodeHit.t := dedupeBy codeKey l.
Definition dedupeRepo (l : list RepoHit.t) : list RepoHit.t := dedupeBy repoKey l.

(** ** The orders handed to [sort.Slice] *)

Definition codeLess (a b : CodeHit.t) : bool :=
  let ai := CodeHit.CommitDate a in
  let aj := CodeHit.CommitDate b in
  if IsZero ai && IsZero aj then false
  else if IsZero ai then false
  else if IsZero aj then true
  else After ai aj.

Definition repoLess (a b : RepoHit.t) : bool :=
  After (RepoHit.PushedAt a) (RepoHit.PushedAt b).

(** [insertionSort_func] of Go's sort package, which is all that [sort.Slice]
    runs on a slice of at most 12 elements.  [sink] is the inner loop: the
    element [x] moves left past every neighbour it is less than; the part of
    the slice on its left is given nearest element first. *)
Fixpoint sink {A} (less : A -> A -> bool) (x : A) (left : list A) : list A :=
  match left with
  | [] => [x]
  | y :: left' => if less x y then y :: sink less x left' else x :: left
  end.

Definition insertionSort {A} (less : A -> A -> bool) (l : list A) : list A :=
  rev (foldl (fun left x => sink less x left) [] l).

(** ** What the program calls and what it reads *)

(** Functions of Go's library that the program calls and that are not written
    out here.  [sort_Slice less l] is the slice after [sort.Slice(l, less)],
    the order being given on elements.  The decoders give what
    [json.Unmarshal] leaves in the target, or its error message; for
    [commitResp] the program drops the error and reads the target.
    [time_Parse s] is the first result of [time.Parse(time.RFC3339, s)] (the
    program drops the error), [time_Format layout t] is [t.Format(layout)]. *)
Class GoLib := {
  sort_Slice : forall A : Type, (A -> A -> bool) -> list A -> list A;
  json_codeSearchResp : string -> string + codeSearchResp;
  json_repoSearchResp : string -> string + repoSearchResp;
  json_commitResp : string -> list commitEntry;
  time_Parse : string -> Time;
  time_Format : string -> Time -> string
}.

Definition RFC3339 : string := "2006-01-02T15:04:05Z07:00".

Inductive ctxErr := Canceled | DeadlineExceeded.

(** The errors [runSearches] can return, by the call they come from:
    [ctx.Err()], [client.get] and [json.Unmarshal]. *)
Inductive error :=
  | context_error (e : ctxErr)
  | transport_error (msg : string)
  | json_error (msg : string).

(** The environment of a run.  The primary search phase is sequential: its
    [k]-th interaction with the outside (a look at [ctx.Done()], a request, a
    reading of the clock) gets the answer of index [k].  [client_get k url] is
    the result of [client.get(ctx, url)], [inl] for an error of the
    transport.  For the fan-out, [detail_get i url] is the answer to the
    request of job [i] and [arrival hits] the order in which the results of
    the jobs reach the collecting loop. *)
Record Env := {
  ctx_Err : nat -> option ctxErr;
  client_get : nat -> string -> string + Response;
  time_Now : nat -> Time;
  detail_get : nat -> string -> string + Response;
  arrival : list CodeHit.t -> list nat
}.

(** What a run does to the outside, in order. *)
Inductive Event :=
  | Polled (r : option ctxErr)
  | Requested (url : string) (r : string + Response)
  | Slept (d : Duration).

(** The variables of [runSearches] during the search phase; [tick] counts the
    interactions with the environment and [trace] lists them. *)
Record Acc := mkAcc {
  tick : nat;
  codeHits : list CodeHit.t;
  repoHits : list RepoHit.t;
  notes : list string;
  trace : list Event
}.

(** Either the loop goes on with a value, or the function returns. *)
Inductive Flow (A : Type) :=
  | Go_on (a : A)
  | Return (f : Findings) (err : error) (tr : list Event).
Arguments Go_on {A} a.
Arguments Return {A} f err tr.

Definition logged (e : Event) (a : Acc) : Acc :=
  mkAcc (S (tick a)) (codeHits a) (repoHits a) (notes a) (trace a ++ [e]).

Definition noted (n : string) (a : Acc) : Acc :=
  mkAcc (tick a) (codeHits a) (repoHits a) (notes a ++ [n]) (trace a).

Definition withCode (hs : list CodeHit.t) (a : Acc) : Acc :=
  mkAcc (tick a) (codeHits a ++ hs) (repoHits a) (notes a) (trace a).

Definition withRepo (hs : list RepoHit.t) (a : Acc) : Acc :=
  mkAcc (tick a) (codeHits a) (repoHits a ++ hs) (notes a) (trace a).

Definition codeSearchURL (q : string) (perPage page : Z) : string :=
  "https://api.github.com/search/code?q=" +:+ q +:+
  "&sort=indexed&order=desc&per_page=" +:+ pretty perPage +:+
  "&page=" +:+ pretty page.

Definition repoSearchURL (q : string) (perPage page : Z) : string :=
  "https://api.github.com/search/repositories?q=" +:+ q +:+
  "&sort=updated&order=desc&per_page=" +:+ pretty perPage +:+
  "&page=" +:+ pretty page.

(** [g.Name — q.Name], with the em dash in UTF-8. *)
Definition queryName (g : SearchGroup.t) (q : SearchQuery.t) : string :=
  SearchGroup.Name g +:+ " " +:+ bytes [226; 128; 148]%nat +:+ " " +:+ SearchQuery.Name q.

(** The note of a response whose status is not 200. *)
Definition statusNote (qName : string) (resp : Response) (url : string) : string :=
  "(" +:+ qName +:+ ") status=" +:+ pretty (StatusCode resp) +:+
  " remaining=" +:+ Header_Get (Header resp) "X-RateLimit-Remaining" +:+
  " reset=" +:+ Header_Get (Header resp) "X-RateLimit-Reset" +:+
  " url=" +:+ url +:+ " body=" +:+ truncate (Body resp) 400.

(** The note of a strict retry whose status is not 200. *)
Definition retryNote (qName : string) (resp2 : Response) (strictURL : string) : string :=
  "(" +:+ qName +:+ ") retry strict status=" +:+ pretty (StatusCode resp2) +:+
  " remaining=" +:+ Header_Get (Header resp2) "X-RateLimit-Remaining" +:+
  " reset=" +:+ Header_Get (Header resp2) "X-RateLimit-Reset" +:+
  " url=" +:+ strictURL +:+ " body=" +:+ truncate (Body resp2) 400.

Definition noCodeHitsNote (qName : string) : string :=
  "No code hits returned for " +:+ qName.

Definition noRepoHitsNote (qName : string) : string :=
  "No repo hits for " +:+ qName.

Definition unknownTypeNote (qName ty : string) : string :=
  "Unknown type for " +:+ qName +:+ ": " +:+ ty.

Definition codeHitOf (g : SearchGroup.t) (q : SearchQuery.t) (it : codeItem) : CodeHit.t :=
  {| CodeHit.Group := SearchGroup.Name g;
     CodeHit.QueryName := SearchQuery.Name q;
     CodeHit.Repository := cr_FullName (ci_Repository it);
     CodeHit.RepoURL := cr_HTMLURL (ci_Repository it);
     CodeHit.FilePath := ci_Path it;
     CodeHit.FileURL := ci_HTMLURL it;
     CodeHit.Language := cr_Language (ci_Repository it);
     CodeHit.RepoPushed := zeroTime;
     CodeHit.CommitDate := zeroTime |}.

Section Run.
Context `{GoLib} (env : Env) (cfg : AppSettings).

(** [throttleFrom(resp)] inside a run: the clock is read, the pause taken. *)
Definition slept (resp : Response) (a : Acc) : Acc :=
  logged (Slept (throttleFrom (time_Now env (tick a)) resp)) a.

(** [since] of [runSearches]; the clock is read first of all. *)
Definition sinceOf : Time :=
  time_Add (time_Now env O) (mul64 (mul64 (neg64 (DaysBack cfg)) 24) Hour).

Definition repoHitOf (g : SearchGroup.t) (q : SearchQuery.t) (it : repoItem) : RepoHit.t :=
  {| RepoHit.Group := SearchGroup.Name g;
     RepoHit.QueryName := SearchQuery.Name q;
     RepoHit.FullName := ri_FullName it;
     RepoHit.HTMLURL := ri_HTMLURL it;
     RepoHit.Description := ri_Description it;
     RepoHit.PushedAt := time_Parse (ri_PushedAt it);
     RepoHit.CreatedAt := time_Parse (ri_CreatedAt it) |}.

(** The items of a page of repositories that are kept: those whose push is
    not before [since]. *)
Definition repoHitsOf (g : SearchGroup.t) (q : SearchQuery.t) (since : Time)
    (items : list repoItem) : list RepoHit.t :=
  filter (fun h => Before (RepoHit.PushedAt h) since = false)
         (repoHitOf g q <$> items).

(** The loop [for page <= maxPages] of a code search.  [left] is the number
    of pages from [page] to [maxPages]: the condition of the loop holds
    exactly when [left] is not 0.  [found] is [foundThisQuery]. *)
Fixpoint codePages (g : SearchGroup.t) (q : SearchQuery.t)
    (left : nat) (page : Z) (found : Z) (a : Acc) : Flow (Z * Acc) :=
  match left with
  | O => Go_on (found, a)
  | S left' =>
      match ctx_Err env (tick a) with
      | Some e =>
          Return Findings_zero (context_error e) (trace a ++ [Polled (Some e)])
      | None =>
          let a := logged (Polled None) a in
          let qName := queryName g q in
          let rawQ := sanitizeCodeQuery (SearchQuery.Query q) in
          let url := codeSearchURL (urlQueryEscape rawQ) (PerPage cfg) page in
          match client_get env (tick a) url with
          | inl msg =>
              Return Findings_zero (transport_error msg)
                     (trace a ++ [Requested url (inl msg)])
          | inr resp =>
              let a := logged (Requested url (inr resp)) a in
              if negb (StatusCode resp =? 200) then
                let giveUp (a : Acc) : Flow (Z * Acc) :=
                  Go_on (found, slept resp (noted (statusNote qName resp url) a)) in
                if StatusCode resp =? 422 then
                  let strictURL :=
                    codeSearchURL (neturl_QueryEscape (strings_TrimSpace rawQ))
                                  (PerPage cfg) page in
                  match client_get env (tick a) strictURL with
                  | inr resp2 =>
                      let a := logged (Requested strictURL (inr resp2)) a in
                      if StatusCode resp2 =? 200 then
                        match json_codeSearchResp (Body resp2) with
                        | inl msg => Return Findings_zero (json_error msg) (trace a)
                        | inr cr2 =>
                            match cs_Items cr2 with
                            | [] => Go_on (found, a)
                            | items =>
                                codePages g q left' (page + 1)
                                  (found + Z.of_nat (length items))
                                  (slept resp2 (withCode (codeHitOf g q <$> items) a))
                            end
                        end
                      else giveUp (noted (retryNote qName resp2 strictURL) a)
                  | inl msg => giveUp (logged (Requested strictURL (inl msg)) a)
                  end
                else giveUp a
              else
                match json_codeSearchResp (Body resp) with
                | inl msg => Return Findings_zero (json_error msg) (trace a)
                | inr cr =>
                    match cs_Items cr with
                    | [] => Go_on (found, a)
                    | items =>
                        codePages g q left' (page + 1)
                          (found + Z.of_nat (length items))
                          (slept resp (withCode (codeHitOf g q <$> items) a))
                    end
                end
          end
      end
  end.

(** The loop [for page <= maxPages] of a repository search. *)
Fixpoint repoPages (g : SearchGroup.t) (q : SearchQuery.t) (since : Time)
    (left : nat) (page : Z) (found : Z) (a : Acc) : Flow (Z * Acc) :=
  match left with
  | O => Go_on (found, a)
  | S left' =>
      match ctx_Err env (tick a) with
      | Some e =>
          Return Findings_zero (context_error e) (trace a ++ [Polled (Some e)])
      | None =>
          let a := logged (Polled None) a in
          let qName := queryName g q in
          let baseQ := SearchQuery.Query q +:+ " pushed:>=" +:+ time_Format "2006-01-02" since in
          let url := repoSearchURL (urlQueryEscape baseQ) (PerPage cfg) page in
          match client_get env (tick a) url with
          | inl msg =>
              Return Findings_zero (transport_error msg)
                     (trace a ++ [Requested url (inl msg)])
          | inr resp =>
              let a := logged (Requested url (inr resp)) a in
              if negb (StatusCode resp =? 200) then
                Go_on (found, slept resp (noted (statusNote qName resp url) a))
              else
                match json_repoSearchResp (Body resp) with
                | inl msg => Return Findings_zero (json_error msg) (trace a)
                | inr rr =>
                    match rs_Items rr with
                    | [] => Go_on (found, a)
                    | items =>
                        let kept := repoHitsOf g q since items in
                        repoPages g q since left' (page + 1)
                          (found + Z.of_nat (length kept))
                          (slept resp (withRepo kept a))
                    end
                end
          end
      end
  end.

(** The body of the loop over the searches of a group. *)
Definition searchOne (since : Time) (g : SearchGroup.t) (q : SearchQuery.t)
    (a : Acc) : Flow Acc :=
  if negb (SearchQuery.Enabled q) then Go_on a
  else
    let qName := queryName g q in
    let ty := strings_ToLower (SearchQuery.Type_ q) in
    if bool_decide (ty = "code") then
      match codePages g q (Z.to_nat (MaxPages cfg)) 1 0 a with
      | Return f e tr => Return f e tr
      | Go_on (found, a') =>
          Go_on (if found =? 0 then noted (noCodeHitsNote qName) a' else a')
      end
    else if bool_decide (ty = "repo") then
      if negb (IncludeRepoSearch cfg) then Go_on a
      else
        match repoPages g q since (Z.to_nat (MaxPages cfg)) 1 0 a with
        | Return f e tr => Return f e tr
        | Go_on (found, a') =>
            Go_on (if found =? 0 then noted (noRepoHitsNote qName) a' else a')
        end
    else Go_on (noted (unknownTypeNote qName (SearchQuery.Type_ q)) a).

Fixpoint searchEach (since : Time) (g : SearchGroup.t) (qs : list SearchQuery.t)
    (a : Acc) : Flow Acc :=
  match qs with
  | [] => Go_on a
  | q :: qs' =>
      match searchOne since g q a with
      | Return f e tr => Return f e tr
      | Go_on a' => searchEach since g qs' a'
      end
  end.

Fixpoint searchGroups (since : Time) (gs : list SearchGroup.t) (a : Acc) : Flow Acc :=
  match gs with
  | [] => Go_on a
  | g :: gs' =>
      if negb (SearchGroup.Enabled g) then searchGroups since gs' a
      else
        match searchEach since g (SearchGroup.Searches g) a with
        | Return f e tr => Return f e tr
        | Go_on a' => searchGroups since gs' a'
        end
  end.

(** *** The fan-out, seen from the collecting loop *)

Definition commitsURL (since : Time) (h : CodeHit.t) : string :=
  "https://api.github.com/repos/" +:+ CodeHit.Repository h +:+
  "/commits?path=" +:+ neturl_PathEscape (CodeHit.FilePath h) +:+
  "&since=" +:+ time_Format RFC3339 since +:+ "&per_page=1".

(** What a worker sends for the answer [r] to its request. *)
Definition commitDateOf (r : string + Response) : Time :=
  match r with
  | inl _ => zeroTime
  | inr resp =>
      if StatusCode resp =? 200 then
        match json_commitResp (Body resp) with
        | e :: _ => time_Parse (ce_AuthorDate e)
        | [] => zeroTime
        end
      else zeroTime
  end.

(** The result of job [i]. *)
Definition jobResult (since : Time) (hits : list CodeHit.t) (i : nat) : Time :=
  match hits !! i with
  | Some h => commitDateOf (detail_get env i (commitsURL since h))
  | None => zeroTime
  end.

(** [out[i].CommitDate = t]; every index a worker sends is the index of a
    job, within the slice. *)
Definition store (out : list CodeHit.t) (i : nat) (t : Time) : list CodeHit.t :=
  alter (CodeHit.setCommitDate t) i out.

(** [enrichWithCommitDates]: [out] is a copy of [hits], and the results are
    stored as they arrive. *)
Definition enrichWithCommitDates (since : Time) (hits : list CodeHit.t) : list CodeHit.t :=
  foldl (fun out i => store out i (jobResult since hits i)) hits (arrival env hits).

(** The filter after the commit check. *)
Definition keepRecent (since : Time) (hits : list CodeHit.t) : list CodeHit.t :=
  filter (fun h => IsZero (CodeHit.CommitDate h) = false
                   /\ Before (CodeHit.CommitDate h) since = false) hits.

(** The code hits after the optional commit check. *)
Definition checkedCode (since : Time) (hits : list CodeHit.t) : list CodeHit.t :=
  if UseCommitCheck cfg && (0 <? length hits)%nat
  then keepRecent since (enrichWithCommitDates since hits)
  else hits.

Definition sortedCode (hits : list CodeHit.t) : list CodeHit.t :=
  if (1 <? length hits)%nat then sort_Slice _ codeLess hits else hits.

Definition sortedRepo (hits : list RepoHit.t) : list RepoHit.t :=
  if (1 <? length hits)%nat then sort_Slice _ repoLess hits else hits.

(** The state the search phase starts from. *)
Definition startAcc : Acc := mkAcc 1 [] [] [] [].

(** The search phase of [runSearches]: the loops over groups and searches. *)
Definition searchPhase (spec : QueriesSpec) : Flow Acc :=
  searchGroups sinceOf (Groups spec) startAcc.

(** The [Findings] built at the end of [runSearches]. *)
Definition assemble (a : Acc) : Findings :=
  {| RunID := "";
     SinceISO := time_Format RFC3339 sinceOf;
     FDaysBack := DaysBack cfg;
     Generated := time_Format RFC3339 (time_Now env (tick a));
     CodeHits := dedupeCode (sortedCode (checkedCode sinceOf (codeHits a)));
     RepoHits := dedupeRepo (sortedRepo (repoHits a));
     Notes := notes a |}.

(** [runSearches] with the trace of what it did to the outside. *)
Definition runSearches_traced (spec : QueriesSpec)
    : Findings * option error * list Event :=
  match searchPhase spec with
  | Return f e tr => (f, Some e, tr)
  | Go_on a => (assemble a, None, trace a)
  end.

Definition runSearches (spec : QueriesSpec) : Findings * option error :=
  fst (runSearches_traced spec).
End Run.

(** ** The fan-out of [enrichWithCommitDates] as a transition system

    The producer goroutine sends the jobs in the order of the slice on the
    unbuffered channel [jobs]; a worker takes a job, makes its request, and
    sends the result on the unbuffered channel [results], where the
    collecting loop of the caller stores it in [out]; a worker leaves its
    loop when [jobs] is closed, and the collecting loop ends when every
    worker has left.  A state is reached by any interleaving of these
    steps, and the answer to a request is any answer. *)
Record job := { job_i : nat; job_h : CodeHit.t }.
Record res := { res_i : nat; res_t : Time }.

Inductive worker :=
  | Waiting
  | Working (j : job)
  | Sending (r : res)
  | Left.

Record Pool := mkPool {
  toSend : list job;
  workers : list worker;
  out : list CodeHit.t;
  received : list res
}.

(** The jobs of a slice: [job{i, h}] for [i, h := range hits]. *)
Definition jobsOf (hits : list CodeHit.t) : list job :=
  imap (fun i h => {| job_i := i; job_h := h |}) hits.

(** The state after the workers are started and [out] is copied. *)
Definition initPool (W : nat) (hits : list CodeHit.t) : Pool :=
  mkPool (jobsOf hits) (replicate W Waiting) hits [].

(** Every worker has left: [wg.Wait()] returns, [results] is closed and the
    function returns [out]. *)
Definition finalPool (s : Pool) : Prop := Forall (fun w => w = Left) (workers s).

(** Steps still to take, at most. *)
Definition workerWeight (w : worker) : nat :=
  match w with
  | Left => 0
  | Waiting => 1
  | Sending _ => 2
  | Working _ => 3
  end.

Definition poolMeasure (s : Pool) : nat :=
  3 * length (toSend s) + sum_list (workerWeight <$> workers s).

Section FanOut.
Context `{GoLib}.

Inductive poolStep : Pool -> Pool -> Prop :=
  | step_take k j js ws o rc :
      ws !! k = Some Waiting ->
      poolStep (mkPool (j :: js) ws o rc)
               (mkPool js (<[k := Working j]> ws) o rc)
  | step_request k j (answer : string + Response) js ws o rc :
      ws !! k = Some (Working j) ->
      poolStep (mkPool js ws o rc)
               (mkPool js
                  (<[k := Sending {| res_i := job_i j;
                                     res_t := commitDateOf answer |}]> ws)
                  o rc)
  | step_deliver k r js ws o rc :
      ws !! k = Some (Sending r) ->
      poolStep (mkPool js ws o rc)
               (mkPool js (<[k := Waiting]> ws)
                  (store o (res_i r) (res_t r)) (rc ++ [r]))
  | step_leave k ws o rc :
      ws !! k = Some Waiting ->
      poolStep (mkPool [] ws o rc)
               (mkPool [] (<[k := Left]> ws) o rc).
End FanOut.

(** [a] and [b] are the same hit but for the derived commit date. *)
Definition sameButCommitDate (a b : CodeHit.t) : Prop :=
  CodeHit.Group a = CodeHit.Group b /\
  CodeHit.QueryName a = CodeHit.QueryName b /\
  CodeHit.Repository a = CodeHit.Repository b /\
  CodeHit.RepoURL a = CodeHit.RepoURL b /\
  CodeHit.FilePath a = CodeHit.FilePath b /\
  CodeHit.FileURL a = CodeHit.FileURL b /\
  CodeHit.Language a = CodeHit.Language b /\
  CodeHit.RepoPushed a = CodeHit.RepoPushed b.

(** ** What [sort.Slice] promises *)

(** The orders [sort.Slice] sorts by: strict weak orders. *)
Definition strictWeak {A} (less : A -> A -> bool) : Prop :=
  (forall x, less x x = false) /\
  (forall x y z, less x y = true -> less y z = true -> less x z = true) /\
  (forall x y z, less x z = true -> less x y = true \/ less y z = true).

(** No element is less than one before it. *)
Definition sortedBy {A} (less : A -> A -> bool) (l : list A) : Prop :=
  StronglySorted (fun x y => less y x = false) l.

(** [sort.Slice] permutes the slice, and sorts it when the order is a strict
    weak order. *)
Definition sortContract (L : GoLib) : Prop :=
  (forall A less (l : list A), sort_Slice A less l ≡ₚ l) /\
  (forall A less (l : list A), strictWeak less -> sortedBy less (sort_Slice A less l)).

(** ** Notions used in the statements *)

(** [h] is the first element of [l] with its key. *)
Definition firstWithKey {A} (key : A -> string) (l : list A) (h : A) : Prop :=
  exists l1 l2, l = l1 ++ h :: l2 /\ key h ∉ key <$> l1.

(** Deduplication in the words of the specification: of the elements with the
    same key the first is kept, and the order of the kept ones is that of the
    input. *)
Fixpoint firstOccurrences {A} (key : A -> string) (l : list A) : list A :=
  match l with
  | [] => []
  | h :: l' =>
      h :: filter (fun x => key x <> key h) (firstOccurrences key l')
  end.

(** A hit has a derived commit date. *)
Definition dated (h : CodeHit.t) : Prop := CodeHit.CommitDate h <> zeroTime.

(** The part of the slice on the left of the element that [sink] places,
    nearest first: no element is less than one further on. *)
Definition sunk {A} (less : A -> A -> bool) (left : list A) : Prop :=
  StronglySorted (fun y z => less y z = false) left.

(** ** Invariants of the search phase *)

(** A property of the variables that every step of the search phase keeps:
    an interaction with the outside that does not end the run, a note, the
    hits of a page. *)
Record Preserved `{GoLib} (P : Acc -> Prop) (since : Time) : Prop := {
  pres_logged : forall e a,
    (forall c, e <> Polled (Some c)) -> P a -> P (logged e a);
  pres_noted : forall n a, P a -> P (noted n a);
  pres_code : forall g q items a, P a -> P (withCode (codeHitOf g q <$> items) a);
  pres_repo : forall g q items a, P a -> P (withRepo (repoHitsOf g q since items) a)
}.

(** The three ways in which the search phase returns early, when the
    variables satisfied [P] at that point: the context is done at the top of
    an iteration, a request fails in the transport, a body with status 200
    does not decode.  Each returns [Findings{}]. *)
Inductive returnOK (P : Acc -> Prop) : Findings -> error -> list Event -> Prop :=
  | ret_context a c :
      P a ->
      returnOK P Findings_zero (context_error c) (trace a ++ [Polled (Some c)])
  | ret_transport a url msg :
      P a ->
      returnOK P Findings_zero (transport_error msg)
               (trace a ++ [Requested url (inl msg)])
  | ret_json a msg :
      P a ->
      returnOK P Findings_zero (json_error msg) (trace a).

Definition flowOK {A} (P : Acc -> Prop) (proj : A -> Acc) (r : Flow A) : Prop :=
  match r with
  | Go_on x => P (proj x)
  | Return f e tr => returnOK P f e tr
  end.

(** No look at the context found it done. *)
Definition neverDone (tr : list Event) : Prop :=
  forall c, Polled (Some c) ∉ tr.

(** Every repository hit gathered so far was pushed in the window. *)
Definition pushedInWindow (since : Time) (a : Acc) : Prop :=
  Forall (fun h => Before (RepoHit.PushedAt h) since = false) (repoHits a).

(** The key of the specification: repository, file path and file URL. *)
Definition codeTriple (h : CodeHit.t) : string * string * string :=
  (CodeHit.Repository h, CodeHit.FilePath h, CodeHit.FileURL h).

(** The code hits gathered so far start with [l]. *)
Definition keepsCode (l : list CodeHit.t) (a : Acc) : Prop :=
  l `prefix_of` codeHits a.

(** ** Invariants of the fan-out *)

(** [out] is the slice [hits] but for the commit dates. *)
Definition framed (hits out : list CodeHit.t) : Prop :=
  length out = length hits /\
  forall i h, hits !! i = Some h ->
    exists o, out !! i = Some o /\ sameButCommitDate h o.

(** The index of the job a worker holds, as a job or as its result. *)
Definition inflight (w : worker) : list nat :=
  match w with
  | Working j => [job_i j]
  | Sending r => [res_i r]
  | Waiting | Left => []
  end.

(** The results stored one after the other, from [hits]. *)
Definition storeAll (hits : list CodeHit.t) (rs : list res) : list CodeHit.t :=
  foldl (fun o r => store o (res_i r) (res_t r)) hits rs.

Definition poolInv (W : nat) (hits : list CodeHit.t) (s : Pool) : Prop :=
  length (workers s) = W /\
  out s = storeAll hits (received s) /\
  (job_i <$> toSend s) ++ concat (inflight <$> workers s) ++ (res_i <$> received s)
    ≡ₚ seq 0 (length hits) /\
  (Left ∈ workers s -> toSend s = []).

(** ** An instance of the library and some environments

    Used to run the model on concrete inputs.  [lib] sorts with
    [insertionSort] (what [sort.Slice] runs on the short slices of the
    examples), reads and writes instants in UTC in the form
    [2006-01-02T15:04:05Z], and decodes the JSON texts that the examples
    send, which are written by the [render] functions below. *)
Module Scenario.

(** *** Calendar *)

(** Days from 1970-01-01 to the civil date [y]-[m]-[d]. *)
Definition daysFromCivil (y m d : Z) : Z :=
  let y' := if m <=? 2 then y - 1 else y in
  let era := y' / 400 in
  let yoe := y' - era * 400 in
  let doy := (153 * (if 2 <? m then m - 3 else m + 9) + 2) / 5 + d - 1 in
  let doe := yoe * 365 + yoe / 4 - yoe / 100 + doy in
  era * 146097 + doe - 719468.

(** The civil date of the day [z] days after 1970-01-01. *)
Definition civilFromDays (z : Z) : Z * Z * Z :=
  let z := z + 719468 in
  let era := z / 146097 in
  let doe := z - era * 146097 in
  let yoe := (doe - doe / 1460 + doe / 36524 - doe / 146096) / 365 in
  let doy := doe - (365 * yoe + yoe / 4 - yoe / 100) in
  let mp := (5 * doy + 2) / 153 in
  let d := doy - (153 * mp + 2) / 5 + 1 in
  let m := if mp <? 10 then mp + 3 else mp - 9 in
  ((if m <=? 2 then yoe + era * 400 + 1 else yoe + era * 400), m, d).

Definition pad2 (n : Z) : string :=
  if n <? 10 then "0" +:+ pretty n else pretty n.

Definition pad4 (n : Z) : string :=
  if n <? 10 then "000" +:+ pretty n
  else if n <? 100 then "00" +:+ pretty n
  else if n <? 1000 then "0" +:+ pretty n
  else pretty n.

Definition formatDate (t : Time) : string :=
  let secs := t / Second - unixToInternal in
  let '(y, m, d) := civilFromDays (secs / 86400) in
  pad4 y +:+ "-" +:+ pad2 m +:+ "-" +:+ pad2 d.

Definition formatClock (t : Time) : string :=
  let s := (t / Second - unixToInternal) mod 86400 in
  pad2 (s / 3600) +:+ ":" +:+ pad2 (s mod 3600 / 60) +:+ ":" +:+ pad2 (s mod 60).

Definition format (layout : string) (t : Time) : string :=
  if bool_decide (layout = "2006-01-02") then formatDate t
  else formatDate t +:+ "T" +:+ formatClock t +:+ "Z".

Definition digitsAt (s : string) (i n : nat) : option Z :=
  parseDigits 0 (str_take n (str_drop i s)).

(** An instant written as [2006-01-02T15:04:05Z]; anything else gives the
    zero instant, as a failed [time.Parse] does. *)
Definition parse (s : string) : Time :=
  match digitsAt s 0 4, digitsAt s 5 2, digitsAt s 8 2,
        digitsAt s 11 2, digitsAt s 14 2, digitsAt s 17 2 with
  | Some y, Some m, Some d, Some hh, Some mm, Some ss =>
      if bool_decide (String.length s = 20%nat
                      /\ str_take 1 (str_drop 4 s) = "-"
                      /\ str_take 1 (str_drop 7 s) = "-"
                      /\ str_take 1 (str_drop 10 s) = "T"
                      /\ str_take 1 (str_drop 13 s) = ":"
                      /\ str_take 1 (str_drop 16 s) = ":"
                      /\ str_drop 19 s = "Z")
      then (daysFromCivil y m d * 86400 + hh * 3600 + mm * 60 + ss
            + unixToInternal) * Second
      else zeroTime
  | _, _, _, _, _, _ => zeroTime
  end.

(** *** JSON texts *)

Definition dq : string := str1 (byte_of 34).
Definition jstr (s : string) : string := dq +:+ s +:+ dq.
Definition jfield (k v : string) : string := jstr k +:+ ":" +:+ v.
Definition jobject (fields : list string) : string :=
  "{" +:+ strings_Join fields "," +:+ "}".
Definition jarray (items : list string) : string :=
  "[" +:+ strings_Join items "," +:+ "]".

Definition renderCodeItem (it : codeItem) : string :=
  jobject [ jfield "name" (jstr (ci_Name it));
            jfield "path" (jstr (ci_Path it));
            jfield "sha" (jstr (ci_SHA it));
            jfield "html_url" (jstr (ci_HTMLURL it));
            jfield "repository"
              (jobject [ jfield "full_name" (jstr (cr_FullName (ci_Repository it)));
                         jfield "html_url" (jstr (cr_HTMLURL (ci_Repository it)));
                         jfield "language" (jstr (cr_Language (ci_Repository it))) ]) ].

Definition renderCodeResp (r : codeSearchResp) : string :=
  jobject [ jfield "total_count" (pretty (cs_TotalCount r));
            jfield "incomplete_results" "false";
            jfield "items" (jarray (renderCodeItem <$> cs_Items r)) ].

Definition renderRepoItem (it : repoItem) : string :=
  jobject [ jfield "full_name" (jstr (ri_FullName it));
            jfield "html_url" (jstr (ri_HTMLURL it));
            jfield "description" (jstr (ri_Description it));
            jfield "pushed_at" (jstr (ri_PushedAt it));
            jfield "created_at" (jstr (ri_CreatedAt it));
            jfield "topics" (jarray (jstr <$> ri_Topics it)) ].

Definition renderRepoResp (r : repoSearchResp) : string :=
  jobject [ jfield "total_count" (pretty (rs_TotalCount r));
            jfield "incomplete_results" "false";
            jfield "items" (jarray (renderRepoItem <$> rs_Items r)) ].

Definition renderCommit (e : commitEntry) : string :=
  jobject [ jfield "sha" (jstr (ce_SHA e));
            jfield "commit"
              (jobject [ jfield "author"
                           (jobject [ jfield "date" (jstr (ce_AuthorDate e)) ]) ]);
            jfield "html_url" (jstr (ce_HTMLURL e)) ].

Definition renderCommits (l : list commitEntry) : string :=
  jarray (renderCommit <$> l).

(** The value among [known] whose text is [body]. *)
Definition decodeWith {V} (render : V -> string) (known : list V) (body : string)
    : option V :=
  head (filter (fun v => render v = body) known).

Definition syntaxError : string := "invalid character '<' looking for beginning of value".

(** *** The data of the examples *)

Definition repoOf (name lang : string) : codeRepo :=
  {| cr_FullName := name;
     cr_HTMLURL := "https://github.com/" +:+ name;
     cr_Language := lang |}.

Definition fileOf (name path : string) : codeItem :=
  {| ci_Name := path; ci_Path := path; ci_SHA := "0a1b2c";
     ci_HTMLURL := "https://github.com/" +:+ name +:+ "/blob/main/" +:+ path;
     ci_Repository := repoOf name "Python" |}.

Definition fileA : codeItem := fileOf "ann/feed" "client.py".
Definition fileB : codeItem := fileOf "bob/bars" "stream.py".
Definition fileC : codeItem := fileOf "cy/ticks" "main.py".

Definition codePage (items : list codeItem) : codeSearchResp :=
  {| cs_TotalCount := Z.of_nat (length items);
     cs_IncompleteResults := false;
     cs_Items := items |}.

Definition repoWith (name pushed : string) : repoItem :=
  {| ri_FullName := name;
     ri_HTMLURL := "https://github.com/" +:+ name;
     ri_Description := "market data client";
     ri_PushedAt := pushed;
     ri_CreatedAt := "2021-05-06T07:08:09Z";
     ri_Topics := [] |}.

Definition repoPage (items : list repoItem) : repoSearchResp :=
  {| rs_TotalCount := Z.of_nat (length items);
     rs_IncompleteResults := false;
     rs_Items := items |}.

Definition commitAt (date : string) : commitEntry :=
  {| ce_SHA := "9f8e7d"; ce_AuthorDate := date;
     ce_HTMLURL := "https://github.com/commit/9f8e7d" |}.

Definition knownCode : list codeSearchResp :=
  [ codePage []; codePage [fileA]; codePage [fileA; fileB; fileC] ].

Definition knownRepo : list repoSearchResp :=
  [ repoPage [];
    repoPage [repoWith "ann/example" "2023-12-31T00:00:00Z"];
    repoPage [repoWith "ann/feed" "2024-01-02T00:00:00Z"];
    repoPage [repoWith "ann/feed" "2024-01-03T00:00:00Z"] ].

Definition knownCommits : list (list commitEntry) :=
  [ []; [commitAt "2024-01-02T00:00:00Z"]; [commitAt "2024-01-05T00:00:00Z"] ].

#[export] Instance lib : GoLib := {
  sort_Slice := @insertionSort;
  json_codeSearchResp body :=
    match decodeWith renderCodeResp knownCode body with
    | Some v => inr v
    | None => inl syntaxError
    end;
  json_repoSearchResp body :=
    match decodeWith renderRepoResp knownRepo body with
    | Some v => inr v
    | None => inl syntaxError
    end;
  json_commitResp body := default [] (decodeWith renderCommits knownCommits body);
  time_Parse := parse;
  time_Format := format
}.

(** *** Responses *)

Definition searchHeaders : gmap string string :=
  {[ "X-RateLimit-Resource" := "search"; "X-RateLimit-Remaining" := "9";
     "X-RateLimit-Reset" := "1704672060" ]}.

Definition ok (body : string) : Response :=
  {| StatusCode := 200; Header := searchHeaders; Body := body |}.

Definition failed (status : Z) (body : string) : Response :=
  {| StatusCode := status; Header := searchHeaders; Body := body |}.

Definition unprocessable : Response :=
  failed 422 "Validation Failed".

(** *** Settings and environments *)

(** 2024-01-08T00:00:00Z. *)
Definition start : Time := time_Unix 1704672000.

Definition settings (commitCheck : bool) : AppSettings :=
  {| DaysBack := 7; OpenAIModel := "gpt-5"; MaxPages := 3; PerPage := 50;
     UseCommitCheck := commitCheck; IncludeRepoSearch := true;
     QueriesFile := "queries.yaml" |}.

(** 2024-01-01T00:00:00Z. *)
Definition since : Time := time_Unix 1704067200.

Definition lookup (table : list (string * (string + Response))) (url : string)
    (other : string + Response) : string + Response :=
  default other (snd <$> head (filter (fun p => fst p = url) table)).

(** The clock shows one more second at each reading; requests are answered
    by the table [table], by an empty page when the URL is not in it; the
    context is done from the interaction [deadline] on; job [i] of the
    fan-out gets the [i]-th of [details], and the results arrive in the
    order [order]. *)
Definition world (table : list (string * (string + Response)))
    (deadline : option nat) (details : list (string + Response))
    (order : list nat) : Env :=
  {| ctx_Err k :=
       match deadline with
       | Some d => if (d <=? k)%nat then Some DeadlineExceeded else None
       | None => None
       end;
     client_get _ url := lookup table url (inr (ok (renderCodeResp (codePage []))));
     time_Now k := if (k =? 0)%nat then start else start + Z.of_nat k * Second;
     detail_get i _ := default (inl "no such job") (details !! i);
     arrival _ := order |}.

Definition theQuery (ty query : string) : SearchQuery.t :=
  SearchQuery.mk "clients" ty query true.

Definition groupOf (qs : list SearchQuery.t) : SearchGroup.t :=
  SearchGroup.mk "feeds" true qs.

Definition oneSearch (ty query : string) : QueriesSpec :=
  {| Groups := [ groupOf [ theQuery ty query ] ] |}.

Definition codeQuery : string :=
  "polygon  language:python fork:true (rest OR ws) stars:>=10 a,b".

Definition lenientURL (page : Z) : string :=
  codeSearchURL (urlQueryEscape (sanitizeCodeQuery codeQuery)) 50 page.

Definition strictURL (page : Z) : string :=
  codeSearchURL
    (neturl_QueryEscape (strings_TrimSpace (sanitizeCodeQuery codeQuery))) 50 page.

Definition repoURL (query : string) (page : Z) : string :=
  repoSearchURL
    (urlQueryEscape (query +:+ " pushed:>=" +:+ format "2006-01-02" since)) 50 page.

Definition codeOK (items : list codeItem) : string + Response :=
  inr (ok (renderCodeResp (codePage items))).

Definition repoOK (items : list repoItem) : string + Response :=
  inr (ok (renderRepoResp (repoPage items))).

Definition commitsOK (date : string) : string + Response :=
  inr (ok (renderCommits [commitAt date])).

(** A code search whose first page has one item; the deadline passes
    during the pause that follows. *)
Definition deadlineOnPageTwo : Env :=
  world [ (lenientURL 1, codeOK [fileA]) ] (Some 4%nat) [] [].

(** A code search whose first page is refused with status 422 and accepted
    in the strict encoding. *)
Definition retryAccepted : Env :=
  world [ (lenientURL 1, inr unprocessable); (strictURL 1, codeOK [fileA]) ]
        None [] [].

(** ... and refused in the strict encoding too. *)
Definition retryRefused : Env :=
  world [ (lenientURL 1, inr unprocessable); (strictURL 1, inr unprocessable) ]
        None [] [].

(** ... and not answered at all on the retry. *)
Definition retryUnanswered : Env :=
  world [ (lenientURL 1, inr unprocessable); (strictURL 1, inl "connection reset by peer") ]
        None [] [].

(** A repository search for ["example"] that is answered with a repository
    pushed on 2023-12-31. *)
Definition exampleQuery : string := jstr "example".

Definition staleRepo : repoItem := repoWith "ann/example" "2023-12-31T00:00:00Z".

Definition staleAnswer : Env :=
  world [ (repoURL exampleQuery 1, repoOK [staleRepo]) ] None [] [].

(** Two repository searches that find the same repository, pushed between
    the two answers. *)
Definition alpha : SearchQuery.t := SearchQuery.mk "alpha" "repo" "polygon client" true.
Definition beta : SearchQuery.t := SearchQuery.mk "beta" "repo" "polygon websocket" true.

Definition twoSearches : QueriesSpec := {| Groups := [ groupOf [alpha; beta] ] |}.

Definition foundEarlier : repoItem := repoWith "ann/feed" "2024-01-02T00:00:00Z".
Definition foundLater : repoItem := repoWith "ann/feed" "2024-01-03T00:00:00Z".

Definition pushedBetween : Env :=
  world [ (repoURL "polygon client" 1, repoOK [foundEarlier]);
          (repoURL "polygon websocket" 1, repoOK [foundLater]) ]
        None [] [].

Definition hitAlpha : RepoHit.t := repoHitOf (groupOf [alpha; beta]) alpha foundEarlier.
Definition hitBeta : RepoHit.t := repoHitOf (groupOf [alpha; beta]) beta foundLater.

(** A code search with three items and the commit check: the first file
    was committed on 2024-01-02, the request for the second fails, the
    third was committed on 2024-01-05; the results arrive in the order
    third, first, second. *)
Definition threeFiles : Env :=
  world [ (lenientURL 1, codeOK [fileA; fileB; fileC]) ] None
        [ commitsOK "2024-01-02T00:00:00Z"; inl "timeout";
          commitsOK "2024-01-05T00:00:00Z" ]
        [ 2; 0; 1 ]%nat.

Definition hitOf (it : codeItem) (date : string) : CodeHit.t :=
  CodeHit.setCommitDate (parse date)
    (codeHitOf (groupOf [theQuery "code" codeQuery]) (theQuery "code" codeQuery) it).

(** Responses for the rate governor. *)
Definition retryAfterFive : Response :=
  {| StatusCode := 403;
     Header := {[ "Retry-After" := "5"; "X-RateLimit-Remaining" := "0";
                  "X-RateLimit-Reset" := "1704675600";
                  "X-RateLimit-Resource" := "search" ]};
     Body := "" |}.

Definition retryAfterHuge : Response :=
  {| StatusCode := 429;
     Header := {[ "Retry-After" := "9223372037" ]};
     Body := "" |}.

(** The quota is used up and is reset 30 seconds after [start]. *)
Definition exhausted : Response :=
  {| StatusCode := 200;
     Header := {[ "X-RateLimit-Remaining" := "0";
                  "X-RateLimit-Reset" := "1704672030";
                  "X-RateLimit-Resource" := "search" ]};
     Body := "" |}.

(** The fan-out on three hits with two workers: the second worker is served
    first, and delivers twice before the first worker delivers. *)
Definition threeHits : list CodeHit.t :=
  codeHitOf (groupOf [theQuery "code" codeQuery]) (theQuery "code" codeQuery)
    <$> [fileA; fileB; fileC].

Definition resultOf (i : nat) (answer : string + Response) : res :=
  {| res_i := i; res_t := commitDateOf answer |}.

Definition arrivals : list res :=
  [ resultOf 1 (inl "timeout");
    resultOf 2 (commitsOK "2024-01-05T00:00:00Z");
    resultOf 0 (commitsOK "2024-01-02T00:00:00Z") ].

Definition afterFanOut : Pool :=
  mkPool [] [Left; Left] (storeAll threeHits arrivals) arrivals.
End Scenario.

(** * Around the search: the handlers, the debug log and the report

    The rest of [src/main.go] that can be written as functions: the bounds of
    the budget of a run and the report that a run leaves ([handleRunReport]),
    the log of debug events ([emitFunc], [handleDebug]), the compact payload
    of [draftReportWithOpenAI], [buildFallbackMarkdown], [min] and [max].
    Then the notions in which the further statements about the search phase,
    the encoding and the fan-out are written. *)

(** ** [min], [max] and [strconv.Itoa] *)

Module Go.
Definition min (a b : Z) : Z := if a <? b then a else b.
Definition max (a b : Z) : Z := if b <? a then a else b.
End Go.

Definition strconv_Itoa (n : Z) : string := pretty n.

(** The line feed. *)
Definition nl : string := bytes [10]%nat.

(** The settings [main] starts the server with. *)
Definition defaultQueriesFile : string := "queries.yaml".

Definition defaultSettings : AppSettings :=
  {| DaysBack := defaultDaysBack;
     OpenAIModel := defaultModel;
     MaxPages := maxPagesDefault;
     PerPage := perPageDefault;
     UseCommitCheck := true;
     IncludeRepoSearch := true;
     QueriesFile := defaultQueriesFile |}.

(** ** The budget of a run ([handleRunReport]) *)

(** The inner loop of the count: [totalSearches++] for each enabled search. *)
Definition countSearches (total : Z) (qs : list SearchQuery.t) : Z :=
  foldl (fun n q => if SearchQuery.Enabled q then add64 n 1 else n) total qs.

Definition totalSearches (spec : QueriesSpec) : Z :=
  foldl (fun n g =>
           if negb (SearchGroup.Enabled g) then n
           else countSearches n (SearchGroup.Searches g))
        0 (Groups spec).

Definition perReq : Duration := mul64 12000 Millisecond.

(** The time [handleRunReport] gives to the search phase. *)
Definition budget (cfg : AppSettings) (spec : QueriesSpec) : Duration :=
  let budget :=
    add64 (mul64 (mul64 (totalSearches spec) (Go.max 1 (MaxPages cfg))) perReq)
          (mul64 60 Second) in
  let budget := if budget <? mul64 4 Minute then mul64 4 Minute else budget in
  let budget := if mul64 10 Minute <? budget then mul64 10 Minute else budget in
  budget.

(** ** [buildFallbackMarkdown] *)

(** [b.WriteString(s)] on the text written so far. *)
Definition WriteString (b s : string) : string := b +:+ s.

(** The loop [for i := 0; i < maxList; i++] over the code hits: [i] is the
    index and [todo] the number of iterations left, [maxList - i].  The index
    is within the slice, [maxList] being at most its length. *)
Fixpoint topCodeHits (hits : list CodeHit.t) (i todo : nat) (b : string) : string :=
  match todo with
  | O => b
  | S todo' =>
      match hits !! i with
      | Some h =>
          let b := WriteString b "- " in
          let b := WriteString b (CodeHit.Repository h) in
          let b := WriteString b ": " in
          let b := WriteString b (CodeHit.FileURL h) in
          let b := WriteString b nl in
          topCodeHits hits (S i) todo' b
      | None => b
      end
  end.

Fixpoint topRepos (hits : list RepoHit.t) (i todo : nat) (b : string) : string :=
  match todo with
  | O => b
  | S todo' =>
      match hits !! i with
      | Some r =>
          let b := WriteString b "- " in
          let b := WriteString b (RepoHit.FullName r) in
          let b := WriteString b ": " in
          let b := WriteString b (RepoHit.HTMLURL r) in
          let b := WriteString b nl in
          topRepos hits (S i) todo' b
      | None => b
      end
  end.

(** [err] is the text of the error, [None] for [nil]. *)
Definition buildFallbackMarkdown (f : Findings) (err : option string) : string :=
  let b := "" in
  let b := WriteString b ("# Report (fallback)" +:+ nl +:+ nl) in
  let b :=
    match err with
    | Some e =>
        let b := WriteString b "OpenAI drafting failed: " in
        let b := WriteString b e in
        WriteString b (nl +:+ nl)
    | None => b
    end in
  let b := WriteString b "Window: " in
  let b := WriteString b (SinceISO f) in
  let b := WriteString b " (last " in
  let b := WriteString b (strconv_Itoa (FDaysBack f)) in
  let b := WriteString b (" days)" +:+ nl +:+ nl) in
  let b := WriteString b "- Code hits: " in
  let b := WriteString b (strconv_Itoa (Z.of_nat (length (CodeHits f)))) in
  let b := WriteString b nl in
  let b := WriteString b "- Repo hits: " in
  let b := WriteString b (strconv_Itoa (Z.of_nat (length (RepoHits f)))) in
  let b := WriteString b (nl +:+ nl) in
  let b :=
    if (0 <? length (Notes f))%nat then
      let b := WriteString b ("Notes:" +:+ nl) in
      let b :=
        foldl (fun b n =>
                 let b := WriteString b "- " in
                 let b := WriteString b n in
                 WriteString b nl)
              b (Notes f) in
      WriteString b nl
    else b in
  let maxList := Go.min 10 (Z.of_nat (length (CodeHits f))) in
  let b :=
    if 0 <? maxList then
      let b := WriteString b ("Top code hits:" +:+ nl) in
      let b := topCodeHits (CodeHits f) 0 (Z.to_nat maxList) b in
      WriteString b nl
    else b in
  let maxRepos := Go.min 10 (Z.of_nat (length (RepoHits f))) in
  let b :=
    if 0 <? maxRepos then
      let b := WriteString b ("Top repos:" +:+ nl) in
      let b := topRepos (RepoHits f) 0 (Z.to_nat maxRepos) b in
      WriteString b nl
    else b in
  let b := WriteString b ("See diagnostics: /api/last-raw" +:+ nl) in
  b.

(** The report [handleRunReport] stores and sends after the search phase has
    returned [findings]: [draft] is what [draftReportWithOpenAI] returned,
    the Markdown or the text of its error. *)
Definition reportMarkdown (findings : Findings) (draft : string + string) : string :=
  let md :=
    match draft with
    | inr md => md
    | inl err => buildFallbackMarkdown findings (Some err)
    end in
  if bool_decide (strings_TrimSpace md = "")
  then buildFallbackMarkdown findings (Some "empty OpenAI response")
  else md.

(** The lines of the fallback report, said directly. *)
Definition codeLine (h : CodeHit.t) : string :=
  "- " +:+ CodeHit.Repository h +:+ ": " +:+ CodeHit.FileURL h +:+ nl.

Definition repoLine (r : RepoHit.t) : string :=
  "- " +:+ RepoHit.FullName r +:+ ": " +:+ RepoHit.HTMLURL r +:+ nl.

Definition noteLine (n : string) : string := "- " +:+ n +:+ nl.

(** A titled list, absent when it has no line. *)
Definition titled (title : string) (lines : list string) : string :=
  match lines with
  | [] => ""
  | _ => title +:+ nl +:+ flat lines +:+ nl
  end.

(** ** The compact payload of [draftReportWithOpenAI] *)

Record smallCode := {
  sc_Repo : string;
  sc_URL : string;
  sc_Path : string;
  sc_Lang : string;
  sc_Commit : string
}.

Record smallRepo := {
  sr_Full : string;
  sr_URL : string;
  sr_Desc : string;
  sr_Pushed : string
}.

(** The loop [for i, h := range hits] that leaves at [i >= 200]; [out] is the
    slice appended to. *)
Fixpoint compactFrom {A B} (small : A -> B) (i : nat) (hits : list A)
    (out : list B) : list B :=
  match hits with
  | [] => out
  | h :: hits' =>
      if (200 <=? i)%nat then out
      else compactFrom small (S i) hits' (out ++ [small h])
  end.

Section Payload.
Context `{GoLib}.

Definition smallCodeOf (h : CodeHit.t) : smallCode :=
{| sc_Repo := CodeHit.Repository h;
   sc_URL := CodeHit.FileURL h;
   sc_Path := CodeHit.FilePath h;
   sc_Lang := CodeHit.Language h;
   sc_Commit :=
     if negb (IsZero (CodeHit.CommitDate h))
     then time_Format "2006-01-02" (CodeHit.CommitDate h)
     else "" |}.

Definition smallRepoOf (h : RepoHit.t) : smallRepo :=
{| sr_Full := RepoHit.FullName h;
   sr_URL := RepoHit.HTMLURL h;
   sr_Desc := RepoHit.Description h;
   sr_Pushed := time_Format "2006-01-02" (RepoHit.PushedAt h) |}.

(** [codes] and [repos] as they are put in the payload. *)
Definition payloadCodes (f : Findings) : list smallCode :=
compactFrom smallCodeOf 0 (CodeHits f) [].

Definition payloadRepos (f : Findings) : list smallRepo :=
compactFrom smallRepoOf 0 (RepoHits f) [].
End Payload.

(** ** The log of debug events ([emitFunc], [handleDebug]) *)

Module DebugEvent.
Record t := mk {
TS : string;
RunID : string;
Phase : string;
Group : string;
QueryName : string;
URL : string;
Page : Z;
Status : Z;
RateRemaining : string;
RateReset : string;
Note : string
}.

(** [ev.TS = ts; ev.RunID = runID]. *)
Definition stamp (ts runID : string) (ev : t) : t :=
mk ts runID (Phase ev) (Group ev) (QueryName ev) (URL ev) (Page ev)
   (Status ev) (RateRemaining ev) (RateReset ev) (Note ev).
End DebugEvent.

(** [s.runs]: the events of each run.  A run without an entry reads as the
    [nil] slice. *)
Abbreviation Runs := (gmap string (list DebugEvent.t)).

Definition eventsOf (runs : Runs) (runID : string) : list DebugEvent.t :=
  default [] (runs !! runID).

Section Debug.
Context `{GoLib}.

(** The function that [emitFunc(runID)] returns, on [s.runs]; [now] is the
  reading of the clock.  (The line it also writes to the process log is
  left out.) *)
Definition emitFunc (runID : string) (now : Time) (runs : Runs)
  (ev : DebugEvent.t) : Runs :=
let ev := DebugEvent.stamp (time_Format RFC3339 now) runID ev in
let runs := <[runID := eventsOf runs runID ++ [ev]]> runs in
if (1000 <? length (eventsOf runs runID))%nat
then <[runID := drop (length (eventsOf runs runID) - 1000) (eventsOf runs runID)]> runs
else runs.

(** A run emitting the events [evs], each with the reading of the clock at
  its time. *)
Definition emitAll (runID : string) (runs : Runs)
  (evs : list (Time * DebugEvent.t)) : Runs :=
foldl (fun runs e => emitFunc runID e.1 runs e.2) runs evs.
End Debug.

(** What [handleDebug] answers for the value [run] of the parameter (the
    empty string when the parameter is absent): the run and its events. *)
Definition handleDebug (lastRunID : string) (runs : Runs) (run : string)
    : string * list DebugEvent.t :=
  let run :=
    if bool_decide (run = "") || bool_decide (run = "last") then lastRunID
    else run in
  (run, eventsOf runs run).

(** ** Auxiliary notions for the proofs about strings *)

(** The scheme of [trimLeft] and [trimLeftRev]: the sequences among [ps] are
    taken off the front of [s], one after the other, at most [n] of them. *)
Fixpoint trimWith (ps : list string) (n : nat) (s : string) : string :=
  match n with
  | O => s
  | S k =>
      match firstPrefix ps s with
      | Some (_, r) => trimWith ps k r
      | None => s
      end
  end.

(** The left trim of a string, all of it being scanned. *)
Definition trimmedLeft (s : string) : string := trimLeft (String.length s) s.

(** Number of bytes [c] in [s]. *)
Fixpoint occ (c : ascii) (s : string) : nat :=
  match s with
  | "" => O
  | String d s' => ((if ascii_eqb c d then 1 else 0) + occ c s')%nat
  end.

(** The byte [c] is in none of the encodings of white space. *)
Definition offSpace (c : ascii) : Prop :=
  Forall (fun p => occ c p = O) unicode_spaces.

(** No byte of [s] is one of the operator characters ([operatorChars], which
    [urlQueryEscape] leaves as they are). *)
Fixpoint quiet (s : string) : bool :=
  match s with
  | "" => true
  | String d s' => negb (mem_char d operatorChars) && quiet s'
  end.

(** The number of matches that [forkQual.ReplaceAllString] replaces: the scan
    of [removeFork], counting. *)
Fixpoint countFork (skip : nat) (prev : option ascii) (s : string) : nat :=
  match s with
  | "" => O
  | String c s' =>
      match skip with
      | S k => countFork k (Some c) s'
      | O =>
          match forkQual_match prev s with
          | Some r => S (countFork (String.length s - String.length r - 1) (Some c) s')
          | None => countFork O (Some c) s'
          end
      end
  end.

Definition forkQualifiers (q : string) : nat := countFork O None q.

(** One colon for each qualifier taken out, when [c] is the colon. *)
Definition colons (c : ascii) (n : nat) : nat := if ascii_eqb c ":" then n else O.

(** The letters of a word of the qualifier stand for byte sequences that are
    not empty and hold no operator character. *)
Definition plainWord (w : string) : Prop :=
  Forall (fun ch => Forall (fun t => quiet t = true /\ t <> "") (foldOrbit ch))
         (chars w).

(** A string in which every plus sign is read as a space, as
    [url.QueryUnescape] reads it. *)
Fixpoint plusAsSpace (s : string) : string :=
  match s with
  | "" => ""
  | String c s' => String (if ascii_eqb c "+" then " "%char else c) (plusAsSpace s')
  end.

(** ** Notions used in the further statements about a run *)

(** The number of requests in a trace. *)
Fixpoint requests (tr : list Event) : nat :=
  match tr with
  | [] => O
  | Requested _ _ :: tr' => S (requests tr')
  | _ :: tr' => requests tr'
  end.

(** The searches of the enabled groups that are enabled, with their group, in
    the order in which the search phase comes to them. *)
Definition enabledSearches (spec : QueriesSpec)
    : list (SearchGroup.t * SearchQuery.t) :=
  g ← filter (fun g => SearchGroup.Enabled g = true) (Groups spec);
  (fun q => (g, q)) <$>
    filter (fun q => SearchQuery.Enabled q = true) (SearchGroup.Searches g).

(** Every request of the trace is for a page of a code search or, when the
    repository searches are included, for a page of a repository search. *)
Definition codeSearchPrefix : string := "https://api.github.com/search/code?q=".
Definition repoSearchPrefix : string := "https://api.github.com/search/repositories?q=".

Definition searchesOnly (includeRepo : bool) (tr : list Event) : Prop :=
  forall url r, Requested url r ∈ tr ->
    hasPrefix codeSearchPrefix url = true \/
    (includeRepo = true /\ hasPrefix repoSearchPrefix url = true).

(** ... and there is no repository hit when these searches are not
    included. *)
Definition asConfigured (includeRepo : bool) (a : Acc) : Prop :=
  searchesOnly includeRepo (trace a) /\ (includeRepo = false -> repoHits a = []).

Definition asConfiguredFlow {A} (includeRepo : bool) (proj : A -> Acc)
    (r : Flow A) : Prop :=
  match r with
  | Go_on x => asConfigured includeRepo (proj x)
  | Return f _ tr => f = Findings_zero /\ searchesOnly includeRepo tr
  end.

(** The answer accepted by the pause [e], when the two interactions before
    it are a request answered with status 422 and a request answered with
    status 200: a strict retry that was accepted. *)
Definition acceptedBy (before2 before1 : option Event) (e : Event) : list Response :=
  match e with
  | Slept _ =>
      match before2, before1 with
      | Some (Requested _ (inr r1)), Some (Requested _ (inr r2)) =>
          if (StatusCode r1 =? 422) && (StatusCode r2 =? 200) then [r2] else []
      | _, _ => []
      end
  | _ => []
  end.

(** A trace is read from its start; the state is the answers accepted so far
    and the last two interactions. *)
Definition scanStep (st : list Response * option Event * option Event) (e : Event)
    : list Response * option Event * option Event :=
  (st.1.1 ++ acceptedBy st.1.2 st.2 e, st.2, Some e).

Definition scan (tr : list Event) : list Response * option Event * option Event :=
  foldl scanStep ([], None, None) tr.

(** The answers of the strict retries that were accepted, in a trace. *)
Definition acceptedRetries (tr : list Event) : list Response := (scan tr).1.1.

(** The key of the hit made from an item. *)
Definition itemKey (it : codeItem) : string :=
  cr_FullName (ci_Repository it) +:+ "|" +:+ ci_Path it +:+ "|" +:+ ci_HTMLURL it.

(** Every item of the answer [r] has a hit with its key among [hits]. *)
Definition keptIn `{GoLib} (hits : list CodeHit.t) (r : Response) : Prop :=
  forall cr it, json_codeSearchResp (Body r) = inr cr -> it ∈ cs_Items cr ->
    exists h, h ∈ hits /\ codeKey h = itemKey it.

(** The items of the strict retries accepted so far are among the code hits
    gathered so far. *)
Definition retriesKept `{GoLib} (a : Acc) : Prop :=
  Forall (keptIn (codeHits a)) (acceptedRetries (trace a)).

Definition retriesFlow `{GoLib} {A} (proj : A -> Acc) (r : Flow A) : Prop :=
  match r with
  | Go_on x => retriesKept (proj x)
  | Return _ _ _ => True
  end.

(** When the search phase returns the error of a request that failed in the
    transport, the request is the last interaction and follows a look at the
    context: it is the request for a page, not a strict retry. *)
Definition primaryFailure {A} (r : Flow A) : Prop :=
  match r with
  | Return _ (transport_error msg) tr =>
      exists tr' url, tr = tr' ++ [Polled None; Requested url (inl msg)]
  | _ => True
  end.

(** ** Notions used in the further statements about the fan-out *)

Definition maxConcurrentDetails : nat := 2.

(** The indices of the jobs that workers hold. *)
Definition inFlight (s : Pool) : list nat := concat (inflight <$> workers s).

(** The trace of a loop of the search phase, whether it goes on or returns. *)
Definition traceOf {A} (proj : A -> Acc) (r : Flow A) : list Event :=
  match r with
  | Go_on x => trace (proj x)
  | Return _ _ tr => tr
  end.

(** The variables of the search phase are as they were, but for the notes. *)
Definition sameButNotes (a a' : Acc) : Prop :=
  tick a' = tick a /\ codeHits a' = codeHits a /\ repoHits a' = repoHits a /\
  trace a' = trace a.

(** ** Further examples *)

(** The first page cannot be asked for: the transport fails. *)
Definition unreachable : Env :=
  Scenario.world [ (Scenario.lenientURL 1, inl "no route to host") ] None [] [].

(** The settings of the examples, without the repository searches. *)
Definition withoutRepoSearch : AppSettings :=
  {| DaysBack := 7; OpenAIModel := "gpt-5"; MaxPages := 3; PerPage := 50;
     UseCommitCheck := false; IncludeRepoSearch := false;
     QueriesFile := "queries.yaml" |}.

(** A file of queries whose only group is disabled. *)
Definition disabledGroup : QueriesSpec :=
  {| Groups :=
       [ SearchGroup.mk "Polygon.io" false
           [ SearchQuery.mk "Polygon REST endpoints" "code" "api.polygon.io" true ] ] |}.

(** The first page of a code search is refused with status 422 and accepted
    in the strict encoding, with one item; the one job of the commit check
    finds the file of the item committed on 2024-01-02, within the window. *)
Definition retryAcceptedRecent : Env :=
  Scenario.world
    [ (Scenario.lenientURL 1, inr Scenario.unprocessable);
      (Scenario.strictURL 1, Scenario.codeOK [Scenario.fileA]) ]
    None [ Scenario.commitsOK "2024-01-02T00:00:00Z" ] [ 0%nat ].

(** ... and the job finds no commit of the file since the start of the
    window: its request is answered with the empty list. *)
Definition retryAcceptedStale : Env :=
  Scenario.world
    [ (Scenario.lenientURL 1, inr Scenario.unprocessable);
      (Scenario.strictURL 1, Scenario.codeOK [Scenario.fileA]) ]
    None [ inr (Scenario.ok (Scenario.renderCommits [])) ] [ 0%nat ].

(** An event of the phase [phase] for the page [page], as a run hands it to
    [emit]. *)
Definition eventAt (phase : string) (page : Z) : DebugEvent.t :=
  DebugEvent.mk "" "" phase "" "" "" page 0 "" "" "".

(** A log that holds 999 events of the run [r1], one for each page from 1 to
    999, and one event of the run [r0]. *)
Definition busyLog : Runs :=
  {[ "r1" := (fun page =>
                DebugEvent.stamp "2024-01-07T23:00:00Z" "r1" (eventAt "search-code" page))
             <$> seqZ 1 999;
     "r0" := [ DebugEvent.stamp "2024-01-07T22:00:00Z" "r0" (eventAt "done" 0) ] ]}.

(** Three events that the run [r1] emits, a second apart. *)
Definition threeEvents : list (Time * DebugEvent.t) :=
  [ (Scenario.start, eventAt "search-code" 1000);
    (Scenario.start + Second, eventAt "search-code-ok" 1000);
    (Scenario.start + 2 * Second, eventAt "done" 0) ].

(** * Proofs *)

(** ** The lenient URL encoding *)

Lemma ascii_eqb_true a b : ascii_eqb a b = true <-> a = b.
Proof. unfold ascii_eqb. rewrite bool_decide_eq_true. done. Qed.

Lemma ascii_eqb_false a b : ascii_eqb a b = false <-> a <> b.
Proof. unfold ascii_eqb. rewrite bool_decide_eq_false. done. Qed.

Lemma ascii_eqb_refl a : ascii_eqb a a = true.
Proof. by apply ascii_eqb_true. Qed.

Lemma app_String c s t : String c s +:+ t = String c (s +:+ t).
Proof. done. Qed.

Lemma app_empty_l t : "" +:+ t = t.
Proof. done. Qed.

Lemma QueryEscape_flat s :
  neturl_QueryEscape s = flat (escapeQueryByte <$> chars s).
Proof. induction s as [|c s IH]; simpl; [done|]. by rewrite IH. Qed.

Lemma lenientEncode_flat s :
  lenientEncode s = flat (lenientByte <$> chars s).
Proof. induction s as [|c s IH]; simpl; [done|]. by rewrite IH. Qed.

Lemma escapeQueryByte_tokOK c : tokOK (escapeQueryByte c) = true.
Proof. destruct c as [[] [] [] [] [] [] [] []]; vm_compute; reflexivity. Qed.

Lemma swapTok_tokOK x y n t :
  n <> "%"%char -> tokOK t = true -> tokOK (swapTok (pctToken x y) (str1 n) t) = true.
Proof.
  intros Hn Ht. unfold swapTok. case_bool_decide; [|done].
  simpl. by apply negb_true_iff, ascii_eqb_false.
Qed.

(** Replacing an escape triple in a sequence of tokens replaces the tokens
    equal to it and nothing else: no occurrence straddles two tokens. *)
Lemma replace_tokens x y n ts :
  n <> "%"%char ->
  Forall (fun t => tokOK t = true) ts ->
  strings_ReplaceAll (flat ts) (pctToken x y) (str1 n)
  = flat (swapTok (pctToken x y) (str1 n) <$> ts).
Proof.
  intros Hn. unfold strings_ReplaceAll.
  induction 1 as [|t ts Ht _ IH]; [done|].
  cbn [fmap list_fmap flat foldr]. fold (flat ts).
  fold (flat (swapTok (pctToken x y) (str1 n) <$> ts)).
  rewrite <- IH. clear IH.
  destruct t as [|c [|a [|b [|? ?]]]]; try discriminate Ht.
  - (* a single byte, not the percent sign *)
    simpl in Ht. apply negb_true_iff, ascii_eqb_false in Ht.
    unfold swapTok. rewrite bool_decide_eq_false_2 by (unfold pctToken; congruence).
    rewrite !app_String, app_empty_l.
    destruct (flat ts) as [|d r] eqn:E.
    + cbn. unfold hasPrefix, pctToken. cbn.
      rewrite (proj2 (ascii_eqb_false _ _)) by congruence. done.
    + cbn [replaceFrom]. unfold hasPrefix, pctToken. cbn [stripPrefix].
      rewrite (proj2 (ascii_eqb_false _ _)) by congruence. done.
  - (* an escape triple *)
    simpl in Ht. apply andb_true_iff in Ht as [Ht Hb].
    apply andb_true_iff in Ht as [Hc Ha].
    apply ascii_eqb_true in Hc as ->.
    apply negb_true_iff, ascii_eqb_false in Ha, Hb.
    rewrite !app_String, app_empty_l.
    cbn [replaceFrom]. unfold hasPrefix. unfold pctToken at 1. cbn [stripPrefix].
    rewrite ascii_eqb_refl.
    unfold swapTok.
    destruct (decide (x = a)) as [->|Hxa]; [destruct (decide (y = b)) as [->|Hyb]|].
    + rewrite !ascii_eqb_refl. rewrite bool_decide_eq_true_2 by done.
      cbn. done.
    + rewrite ascii_eqb_refl, (proj2 (ascii_eqb_false y b)) by done.
      rewrite bool_decide_eq_false_2 by (unfold pctToken; congruence).
      rewrite !app_String, app_empty_l. f_equal.
      cbn [replaceFrom]. unfold hasPrefix, pctToken. cbn [stripPrefix].
      rewrite (proj2 (ascii_eqb_false "%" a)) by congruence. f_equal.
      destruct (flat ts) as [|d r]; cbn [replaceFrom]; unfold hasPrefix; cbn [stripPrefix];
        rewrite (proj2 (ascii_eqb_false "%" b)) by congruence; done.
    + rewrite (proj2 (ascii_eqb_false x a)) by done.
      rewrite bool_decide_eq_false_2 by (unfold pctToken; congruence).
      rewrite !app_String, app_empty_l. f_equal.
      cbn [replaceFrom]. unfold hasPrefix, pctToken. cbn [stripPrefix].
      rewrite (proj2 (ascii_eqb_false "%" a)) by congruence. f_equal.
      destruct (flat ts) as [|d r]; cbn [replaceFrom]; unfold hasPrefix; cbn [stripPrefix];
        rewrite (proj2 (ascii_eqb_false "%" b)) by congruence; done.
Qed.

Lemma Forall_swapTok x y n ts :
  n <> "%"%char ->
  Forall (fun t => tokOK t = true) ts ->
  Forall (fun t => tokOK t = true) (swapTok (pctToken x y) (str1 n) <$> ts).
Proof.
  intros Hn H. apply Forall_fmap. eapply Forall_impl; [exact H|].
  intros t Ht. simpl. by apply swapTok_tokOK.
Qed.

Ltac restore_step :=
  match goal with
  | |- context [strings_ReplaceAll (flat ?ts) ?old ?new] =>
      change old with (pctToken (default "0"%char (String.get 1 old))
                                (default "0"%char (String.get 2 old)));
      change new with (str1 (default "0"%char (String.get 0 new)));
      cbn [String.get default Nat.eqb];
      rewrite (replace_tokens _ _ _ ts);
      [ | discriminate | repeat (apply Forall_swapTok; [discriminate|]); assumption ]
  end.

Lemma restoreTok_escape c : restoreTok (escapeQueryByte c) = lenientByte c.
Proof. destruct c as [[] [] [] [] [] [] [] []]; vm_compute; reflexivity. Qed.

Lemma urlQueryEscape_tokens q :
  urlQueryEscape q
  = flat (restoreTok <$> (escapeQueryByte <$> chars (strings_TrimSpace q))).
Proof.
  unfold urlQueryEscape. rewrite QueryEscape_flat.
  set (ts := escapeQueryByte <$> chars (strings_TrimSpace q)).
  assert (Hts : Forall (fun t => tokOK t = true) ts).
  { apply Forall_fmap, Forall_forall. intros c _. apply escapeQueryByte_tokOK. }
  cbv zeta.
  do 16 restore_step.
  unfold restoreTok. rewrite <- !list_fmap_compose. done.
Qed.

Lemma urlQueryEscape_lenient q :
  urlQueryEscape q = lenientEncode (strings_TrimSpace q).
Proof.
  rewrite urlQueryEscape_tokens, lenientEncode_flat, <- list_fmap_compose.
  f_equal. apply list_fmap_ext. intros _ c _. simpl. apply restoreTok_escape.
Qed.

(** ** Deduplication *)

Section Dedupe.
Context {A : Type} (key : A -> string).

Lemma filter_sublist (P : A -> Prop) `{!forall x, Decision (P x)} (l : list A) :
  filter P l `sublist_of` l.
Proof.
  induction l as [|x l IH]; [constructor|].
  rewrite filter_cons. destruct (decide (P x)); by constructor.
Qed.

Lemma firstOccurrences_sublist l : firstOccurrences key l `sublist_of` l.
Proof.
  induction l as [|h l IH]; simpl; [constructor|].
  constructor. etrans; [apply filter_sublist|done].
Qed.

Lemma firstOccurrences_NoDup l : NoDup (key <$> firstOccurrences key l).
Proof.
  induction l as [|h l IH]; simpl; [constructor|].
  constructor.
  - rewrite list_elem_of_fmap. intros (x & Hx & Hin).
    apply list_elem_of_filter in Hin as [Hne _]. congruence.
  - eapply sublist_NoDup; [exact IH|].
    apply fmap_sublist, filter_sublist.
Qed.

Lemma firstOccurrences_keys l k :
  k ∈ key <$> firstOccurrences key l <-> k ∈ key <$> l.
Proof.
  induction l as [|h l IH]; simpl; [done|].
  rewrite !elem_of_cons, <- IH, !list_elem_of_fmap.
  split.
  - intros [->|(x & -> & Hx)]; [by left|].
    apply list_elem_of_filter in Hx as [_ Hx]. right; eauto.
  - intros [->|(x & -> & Hx)]; [by left|].
    destruct (decide (key x = key h)) as [E|E]; [by left|].
    right. exists x. split; [done|]. by apply list_elem_of_filter.
Qed.

(** Exactly the first elements with their key are kept. *)
Lemma firstOccurrences_first l h :
  h ∈ firstOccurrences key l <-> firstWithKey key l h.
Proof.
  revert h. induction l as [|x l IH]; intros h; simpl.
  - split; [by intros ?%elem_of_nil|].
    intros (l1 & l2 & E & _). by destruct l1.
  - rewrite elem_of_cons, list_elem_of_filter, IH. split.
    + intros [->|[Hne (l1 & l2 & -> & Hnin)]].
      * exists [], l. split; [done|]. rewrite fmap_nil. apply not_elem_of_nil.
      * exists (x :: l1), l2. split; [done|].
        rewrite fmap_cons, not_elem_of_cons. split; [done|done].
    + intros (l1 & l2 & E & Hnin). destruct l1 as [|y l1]; simplify_eq/=.
      * by left.
      * right. rewrite not_elem_of_cons in Hnin. destruct Hnin as [Hne Hnin].
        split; [done|]. by exists l1, l2.
Qed.

(** The loop with the map [seen] computes the first occurrences. *)
Lemma dedupe_foldl l seen out :
  (forall k, default false (seen !! k) = true <-> k ∈ key <$> out) ->
  snd (foldl (dedupeStep key) (seen, out) l)
  = out ++ filter (fun x => key x ∉ key <$> out) (firstOccurrences key l).
Proof.
  revert seen out. induction l as [|h l IH]; intros seen out Hseen; simpl.
  { by rewrite filter_nil, app_nil_r. }
  destruct (default false (seen !! key h)) eqn:Hh; simpl.
  - (* the key was met *)
    apply Hseen in Hh. rewrite (IH _ _ Hseen). f_equal.
    rewrite filter_cons_False by (intros Hn; by apply Hn).
    rewrite list_filter_filter. apply list_filter_iff.
    intros x. split; [|tauto]. intros Hx. split; [done|]. congruence.
  - (* a new key *)
    assert (Hnin : key h ∉ key <$> out).
    { intros Hin%Hseen. congruence. }
    rewrite IH.
    + rewrite <- app_assoc. f_equal. simpl.
      rewrite filter_cons_True by done. f_equal.
      rewrite list_filter_filter. apply list_filter_iff.
      intros x. rewrite fmap_app, elem_of_app. simpl.
      rewrite list_elem_of_singleton. tauto.
    + intros k. rewrite fmap_app, elem_of_app. simpl.
      rewrite list_elem_of_singleton, <- Hseen.
      destruct (decide (key h = k)) as [->|Hne].
      * rewrite lookup_insert_eq. simpl. tauto.
      * rewrite lookup_insert_ne by done. split; [tauto|].
        intros [?|?]; [done|congruence].
Qed.

Lemma dedupeBy_firstOccurrences l : dedupeBy key l = firstOccurrences key l.
Proof.
  unfold dedupeBy. rewrite dedupe_foldl.
  - simpl. etrans; [apply (list_filter_iff _ (fun _ => True))|].
    + intros x. split; [done|intros _; apply not_elem_of_nil].
    + induction (firstOccurrences key l) as [|x k IH]; [done|].
      rewrite filter_cons_True by done. by f_equal.
  - intros k. rewrite lookup_empty, fmap_nil. simpl.
    split; [done|]. by intros ?%elem_of_nil.
Qed.

Lemma firstOccurrences_sorted (R : A -> A -> Prop) l :
  StronglySorted R l -> StronglySorted R (firstOccurrences key l).
Proof.
  induction 1 as [|h l Hs IH Hall]; simpl; [constructor|].
  constructor.
  - clear Hall. induction IH as [|x k Hk IHk Hx]; [rewrite filter_nil; constructor|].
    rewrite filter_cons. destruct (decide _); [|done].
    constructor; [done|].
    eapply Forall_forall. intros y Hy%list_elem_of_filter.
    rewrite Forall_forall in Hx. apply Hx. tauto.
  - eapply Forall_forall. intros y Hy%list_elem_of_filter.
    destruct Hy as [_ Hy].
    eapply elem_of_sublist in Hy; [|apply firstOccurrences_sublist].
    rewrite Forall_forall in Hall. by apply Hall.
Qed.
End Dedupe.

(** ** The orders and the sort *)

Lemma codeLess_strictWeak : strictWeak codeLess.
Proof.
  unfold strictWeak, codeLess, IsZero, After.
  split; [|split].
  - intros x. destruct (Z.eqb_spec (CodeHit.CommitDate x) 0); simpl; [done|].
    apply Z.ltb_irrefl.
  - intros x y z.
    destruct (Z.eqb_spec (CodeHit.CommitDate x) 0),
             (Z.eqb_spec (CodeHit.CommitDate y) 0),
             (Z.eqb_spec (CodeHit.CommitDate z) 0); simpl; try done.
    rewrite !Z.ltb_lt. lia.
  - intros x y z.
    destruct (Z.eqb_spec (CodeHit.CommitDate x) 0),
             (Z.eqb_spec (CodeHit.CommitDate y) 0),
             (Z.eqb_spec (CodeHit.CommitDate z) 0); simpl; try done; auto.
    rewrite !Z.ltb_lt. lia.
Qed.

Lemma repoLess_strictWeak : strictWeak repoLess.
Proof.
  unfold strictWeak, repoLess, After. split; [|split].
  - intros x. apply Z.ltb_irrefl.
  - intros x y z. rewrite !Z.ltb_lt. lia.
  - intros x y z. rewrite !Z.ltb_lt. lia.
Qed.

Section InsertionSort.
Context {A : Type} (less : A -> A -> bool).

Lemma sink_perm x left : sink less x left ≡ₚ x :: left.
Proof.
  induction left as [|y left IH]; simpl; [done|].
  destruct (less x y); [|done].
  rewrite IH. apply Permutation_swap.
Qed.

Lemma insertionSort_perm l : insertionSort less l ≡ₚ l.
Proof.
  unfold insertionSort.
  assert (G : forall left, foldl (fun left x => sink less x left) left l ≡ₚ rev l ++ left).
  { induction l as [|x l IH]; intros left; simpl; [done|].
    rewrite IH, sink_perm, <- app_assoc. done. }
  rewrite <- Permutation_rev, G, app_nil_r. symmetry. apply Permutation_rev.
Qed.

Lemma sink_sunk x left :
  strictWeak less -> sunk less left -> sunk less (sink less x left).
Proof.
  intros (Hirr & Htr & Hneg). unfold sunk.
  induction 1 as [|y left Hs IH Hall]; simpl.
  { repeat constructor. }
  destruct (less x y) eqn:Hxy.
  - constructor; [done|].
    rewrite sink_perm. constructor; [|done].
    destruct (less y x) eqn:Hyx; [|done].
    pose proof (Htr _ _ _ Hxy Hyx) as Hxx. by rewrite Hirr in Hxx.
  - constructor; [by constructor|].
    constructor; [done|].
    eapply Forall_impl; [exact Hall|]. intros z Hyz. simpl in Hyz.
    destruct (less x z) eqn:Hxz; [|done].
    destruct (Hneg _ y _ Hxz); congruence.
Qed.

Lemma sortedBy_rev left : sunk less left -> sortedBy less (rev left).
Proof.
  unfold sunk, sortedBy. induction 1 as [|y left Hs IH Hall]; simpl; [constructor|].
  apply StronglySorted_app. split_and!; [|done|repeat constructor].
  intros x1 x2 Hx1 ->%list_elem_of_singleton.
  rewrite Forall_forall in Hall. apply Hall.
  apply list_elem_of_In in Hx1. apply (proj2 (in_rev _ _)) in Hx1.
  by apply list_elem_of_In.
Qed.

Lemma insertionSort_sorted l :
  strictWeak less -> sortedBy less (insertionSort less l).
Proof.
  intros Hsw. unfold insertionSort. apply sortedBy_rev.
  assert (G : forall left, sunk less left ->
              sunk less (foldl (fun left x => sink less x left) left l)).
  { induction l as [|x l IH]; intros left Hl; simpl; [done|].
    apply IH. by apply sink_sunk. }
  apply G. constructor.
Qed.
End InsertionSort.

(** ** The search phase keeps invariants *)

Create HintDb pres.

#[global] Arguments logged : simpl never.
#[global] Arguments noted : simpl never.
#[global] Arguments withCode : simpl never.
#[global] Arguments withRepo : simpl never.
#[global] Arguments slept : simpl never.

Section Invariants.
Context `{GoLib} (env : Env) (cfg : AppSettings) (since : Time).
Context (P : Acc -> Prop) (HP : Preserved P since).

Lemma pres_note n a : P a -> P (noted n a).
Proof. by apply (pres_noted _ _ HP). Qed.

Lemma pres_codeHits g q items a : P a -> P (withCode (codeHitOf g q <$> items) a).
Proof. by apply (pres_code _ _ HP). Qed.

Lemma pres_repoHits g q items a :
  P a -> P (withRepo (repoHitsOf g q since items) a).
Proof. by apply (pres_repo _ _ HP). Qed.

Lemma pres_polled a : P a -> P (logged (Polled None) a).
Proof. intros. apply (pres_logged _ _ HP); [congruence|done]. Qed.

Lemma pres_requested url r a : P a -> P (logged (Requested url r) a).
Proof. intros. apply (pres_logged _ _ HP); [congruence|done]. Qed.

Lemma pres_slept resp a : P a -> P (slept env resp a).
Proof. intros. apply (pres_logged _ _ HP); [congruence|done]. Qed.

Local Hint Resolve pres_note pres_codeHits pres_repoHits
  pres_polled pres_requested pres_slept : pres.

Lemma codePages_flowOK g q left page found a :
  P a -> flowOK P snd (codePages env cfg g q left page found a).
Proof.
  revert page found a.
  induction left as [|left IH]; intros page found a Pa; [done|].
  cbn [codePages].
  destruct (ctx_Err env (tick a)) as [c|]; [by constructor|].
  destruct (client_get env _ _) as [msg|resp];
    [constructor; auto with pres|].
  destruct (negb (StatusCode resp =? 200)).
  - destruct (StatusCode resp =? 422); [|simpl; auto 10 with pres].
    destruct (client_get env _ _) as [msg|resp2]; [simpl; auto 10 with pres|].
    destruct (StatusCode resp2 =? 200); [|simpl; auto 10 with pres].
    destruct (json_codeSearchResp _) as [msg|cr2];
      [constructor; auto 10 with pres|].
    destruct (cs_Items cr2) as [|it items] eqn:E; [simpl; auto 10 with pres|].
    apply IH. auto 10 with pres.
  - destruct (json_codeSearchResp _) as [msg|cr];
      [constructor; auto 10 with pres|].
    destruct (cs_Items cr) as [|it items] eqn:E; [simpl; auto 10 with pres|].
    apply IH. auto 10 with pres.
Qed.

Lemma repoPages_flowOK g q left page found a :
  P a -> flowOK P snd (repoPages env cfg g q since left page found a).
Proof.
  revert page found a.
  induction left as [|left IH]; intros page found a Pa; [done|].
  cbn [repoPages].
  destruct (ctx_Err env (tick a)) as [c|]; [by constructor|].
  destruct (client_get env _ _) as [msg|resp];
    [constructor; auto with pres|].
  destruct (negb (StatusCode resp =? 200)); [simpl; auto 10 with pres|].
  destruct (json_repoSearchResp _) as [msg|rr];
    [constructor; auto 10 with pres|].
  destruct (rs_Items rr) as [|it items] eqn:E; [simpl; auto 10 with pres|].
  apply IH. auto 10 with pres.
Qed.

Lemma searchOne_flowOK g q a :
  P a -> flowOK P id (searchOne env cfg since g q a).
Proof.
  intros Pa. unfold searchOne.
  destruct (negb (SearchQuery.Enabled q)); [done|].
  case_bool_decide.
  { pose proof (codePages_flowOK g q (Z.to_nat (MaxPages cfg)) 1 0 a Pa) as Hc.
    destruct (codePages _ _ _ _ _ _ _ _) as [[found a']|f e tr]; simpl in *; [|done].
    destruct (found =? 0); auto with pres. }
  case_bool_decide; [|simpl; auto with pres].
  destruct (negb (IncludeRepoSearch cfg)); [done|].
  pose proof (repoPages_flowOK g q (Z.to_nat (MaxPages cfg)) 1 0 a Pa) as Hc.
  destruct (repoPages _ _ _ _ _ _ _ _ _) as [[found a']|f e tr]; simpl in *; [|done].
  destruct (found =? 0); auto with pres.
Qed.

Lemma searchEach_flowOK g qs a :
  P a -> flowOK P id (searchEach env cfg since g qs a).
Proof.
  revert a. induction qs as [|q qs IH]; intros a Pa; simpl; [done|].
  pose proof (searchOne_flowOK g q a Pa) as Hq.
  destruct (searchOne _ _ _ _ _ _) as [a'|f e tr]; simpl in *; [|done].
  by apply IH.
Qed.

Lemma searchGroups_flowOK gs a :
  P a -> flowOK P id (searchGroups env cfg since gs a).
Proof.
  revert a. induction gs as [|g gs IH]; intros a Pa; simpl; [done|].
  destruct (negb (SearchGroup.Enabled g)); [by apply IH|].
  pose proof (searchEach_flowOK g (SearchGroup.Searches g) a Pa) as Hq.
  destruct (searchEach _ _ _ _ _ _) as [a'|f e tr]; simpl in *; [|done].
  by apply IH.
Qed.
End Invariants.

(** ** The end of a run *)

Section Final.
Context (L : GoLib) (env : Env) (cfg : AppSettings).

Lemma runSearches_Some spec f :
  runSearches env cfg spec = (f, None) <->
  exists a, searchPhase env cfg spec = Go_on a /\ f = assemble env cfg a.
Proof.
  unfold runSearches, runSearches_traced.
  destruct (searchPhase env cfg spec) as [a|f' e tr]; simpl.
  - split; [intros [= <-]; eauto|]. by intros (a' & [= <-] & ->).
  - split; [done|]. by intros (a' & ? & _).
Qed.

Lemma sortedCode_perm hits : sortContract L -> sortedCode hits ≡ₚ hits.
Proof. intros [Hp _]. unfold sortedCode. case_match; [apply Hp|done]. Qed.

Lemma sortedRepo_perm hits : sortContract L -> sortedRepo hits ≡ₚ hits.
Proof. intros [Hp _]. unfold sortedRepo. case_match; [apply Hp|done]. Qed.

Lemma short_sorted {A} (R : A -> A -> Prop) (l : list A) :
  (1 <? length l)%nat = false -> StronglySorted R l.
Proof.
  destruct l as [|x [|y l]]; simpl; intros E; try discriminate;
    repeat constructor.
Qed.

Lemma sortedCode_sorted hits :
  sortContract L -> sortedBy codeLess (sortedCode hits).
Proof.
  intros [_ Hs]. unfold sortedCode. case_match.
  - apply Hs, codeLess_strictWeak.
  - by apply short_sorted.
Qed.

Lemma sortedRepo_sorted hits :
  sortContract L -> sortedBy repoLess (sortedRepo hits).
Proof.
  intros [_ Hs]. unfold sortedRepo. case_match.
  - apply Hs, repoLess_strictWeak.
  - by apply short_sorted.
Qed.

Lemma dedupeBy_elem_of {A} (key : A -> string) l h :
  h ∈ dedupeBy key l -> h ∈ l.
Proof.
  rewrite dedupeBy_firstOccurrences. intros Hh.
  eapply elem_of_sublist; [exact Hh|apply firstOccurrences_sublist].
Qed.

Lemma final_code_elem_of a h :
  sortContract L ->
  h ∈ CodeHits (assemble env cfg a) ->
  h ∈ checkedCode env cfg (sinceOf env cfg) (codeHits a).
Proof.
  intros HL Hh. simpl in Hh. apply dedupeBy_elem_of in Hh.
  by rewrite (sortedCode_perm _ HL) in Hh.
Qed.

Lemma final_repo_elem_of a h :
  sortContract L ->
  h ∈ RepoHits (assemble env cfg a) -> h ∈ repoHits a.
Proof.
  intros HL Hh. simpl in Hh. apply dedupeBy_elem_of in Hh.
  by rewrite (sortedRepo_perm _ HL) in Hh.
Qed.

(** Up to its key, nothing is lost between the checked hits and the
    [Findings]. *)
Lemma final_code_keys a h :
  sortContract L ->
  h ∈ checkedCode env cfg (sinceOf env cfg) (codeHits a) ->
  exists h', h' ∈ CodeHits (assemble env cfg a) /\ codeKey h' = codeKey h.
Proof.
  intros HL Hh. simpl. unfold dedupeCode. rewrite dedupeBy_firstOccurrences.
  assert (Hk : codeKey h ∈ codeKey <$>
            firstOccurrences codeKey
              (sortedCode (checkedCode env cfg (sinceOf env cfg) (codeHits a)))).
  { apply firstOccurrences_keys, list_elem_of_fmap. exists h. split; [done|].
    by rewrite (sortedCode_perm _ HL). }
  apply list_elem_of_fmap in Hk as (h' & Hk & Hin). eauto.
Qed.
End Final.

(** ** A run returns all or nothing *)

Lemma neverDone_app tr e :
  neverDone tr -> (forall c, e <> Polled (Some c)) -> neverDone (tr ++ [e]).
Proof.
  intros Htr He c [Hin|Hin%list_elem_of_singleton]%elem_of_app.
  - by apply (Htr c).
  - by apply (He c).
Qed.

Lemma neverDone_preserved `{GoLib} since :
  Preserved (fun a => neverDone (trace a)) since.
Proof.
  split; try done. intros e a He Ha. unfold logged; simpl.
  by apply neverDone_app.
Qed.

Lemma searchPhase_returns `{GoLib} env cfg spec :
  flowOK (fun a => neverDone (trace a)) id (searchPhase env cfg spec).
Proof.
  apply searchGroups_flowOK; [apply neverDone_preserved|].
  intros c Hin. by apply elem_of_nil in Hin.
Qed.

(** C1.  Whatever the environment does, a run either returns its Findings
    with no error, and then no look at the context found it done; or it
    returns one error together with the zero Findings: the error of the
    context after a look, at the top of an iteration, that found it done; the
    error of the transport after a request that failed; the error of the
    decoder.  In particular, as soon as a look at the context before a page
    fetch finds it done, the run returns that error and the zero Findings. *)
Theorem runSearches_all_or_nothing `{GoLib} (env : Env) (cfg : AppSettings)
    (spec : QueriesSpec) :
  let '(f, err, tr) := runSearches_traced env cfg spec in
  runSearches env cfg spec = (f, err) /\
  match err with
  | None => neverDone tr
  | Some e =>
      f = Findings_zero /\
      match e with
      | context_error c =>
          exists tr', tr = tr' ++ [Polled (Some c)] /\ neverDone tr'
      | transport_error msg =>
          exists tr' url, tr = tr' ++ [Requested url (inl msg)] /\ neverDone tr'
      | json_error _ => neverDone tr
      end
  end /\
  (forall c, Polled (Some c) ∈ tr ->
     f = Findings_zero /\ err = Some (context_error c)).
Proof.
  pose proof (searchPhase_returns env cfg spec) as Hflow.
  unfold runSearches, runSearches_traced.
  destruct (searchPhase env cfg spec) as [a|f e tr]; simpl in *.
  - split; [done|]. split; [done|]. intros c Hc. by apply Hflow in Hc.
  - split; [done|].
    destruct Hflow as [a c Ha|a url msg Ha|a msg Ha].
    + split; [split; [done|eauto]|].
      intros c' [Hin|Hin%list_elem_of_singleton]%elem_of_app.
      * by apply Ha in Hin.
      * by simplify_eq.
    + split; [split; [done|eauto]|].
      intros c' [Hin|Hin%list_elem_of_singleton]%elem_of_app.
      * by apply Ha in Hin.
      * discriminate.
    + split; [done|]. intros c' Hin. by apply Ha in Hin.
Qed.

(** ** The recency filters *)

Section Recency.
Context (L : GoLib) (env : Env) (cfg : AppSettings).

Lemma pushedInWindow_preserved since : Preserved (pushedInWindow since) since.
Proof.
  split; try done. intros g q items a Ha. unfold pushedInWindow, withRepo; simpl.
  apply Forall_app. split; [done|].
  apply Forall_forall. intros h Hh. unfold repoHitsOf in Hh.
  by apply list_elem_of_filter in Hh as [Hh _].
Qed.

Lemma searchPhase_pushed spec a :
  searchPhase env cfg spec = Go_on a -> pushedInWindow (sinceOf env cfg) a.
Proof.
  intros Hrun.
  pose proof (searchGroups_flowOK env cfg (sinceOf env cfg) _
                (pushedInWindow_preserved _) (Groups spec) startAcc) as Hflow.
  unfold searchPhase in Hrun. rewrite Hrun in Hflow. apply Hflow.
  constructor.
Qed.
End Recency.

(** ** Machine arithmetic in range *)

Lemma wrap64_small x : minInt64 <= x <= maxInt64 -> wrap64 x = x.
Proof.
  unfold minInt64, maxInt64, wrap64. intros Hx.
  rewrite Z.mod_small by lia. lia.
Qed.

(** ** The window of a run *)

Lemma since_exact `{GoLib} env input :
  sinceOf env (enforceBounds input)
  = time_Now env 0 - DaysBack (enforceBounds input) * (24 * Hour).
Proof.
  unfold sinceOf, time_Add, mul64, neg64.
  set (d := DaysBack (enforceBounds input)).
  assert (Hd : 1 <= d <= 365).
  { subst d. unfold enforceBounds, defaultDaysBack; simpl.
    destruct (Z.ltb_spec (DaysBack input) 1), (Z.ltb_spec 365 (DaysBack input));
      simpl; lia. }
  unfold Hour, Minute, Second.
  rewrite (wrap64_small (- d)) by (unfold minInt64, maxInt64; lia).
  rewrite (wrap64_small (- d * 24)) by (unfold minInt64, maxInt64; lia).
  rewrite wrap64_small by (unfold minInt64, maxInt64; lia).
  lia.
Qed.

Lemma StronglySorted_lookup {A} (R : A -> A -> Prop) (l : list A) i j x y :
  StronglySorted R l -> l !! i = Some x -> l !! j = Some y -> (i < j)%nat -> R x y.
Proof.
  intros Hs. revert i j. induction Hs as [|z l Hs IH Hall]; intros i j Hi Hj Hij.
  - by rewrite lookup_nil in Hi.
  - destruct j as [|j]; [lia|]. destruct i as [|i]; simplify_eq/=.
    + rewrite Forall_forall in Hall. apply Hall. by eapply list_elem_of_lookup_2.
    + eapply IH; [done..|lia].
Qed.

(** C6.  In the Findings of a run, the push of every repository hit is at or
    after the start of the window, [since], computed from the clock at the
    start of the run; hence no hit made from an item whose push is before
    [since] is among them, whatever qualifier the request carried and
    although the server returned the item; in the filter of a page, of the
    items of the page, those pushed before [since] make no hit; and with the
    settings that [handleSaveSettings] stores, [since] is the reading of the
    clock minus [DaysBack] days. *)
Theorem repo_hits_in_window (L : GoLib) (env : Env) (cfg : AppSettings)
    (spec : QueriesSpec) (f : Findings) :
  sortContract L ->
  runSearches env cfg spec = (f, None) ->
  (forall h, h ∈ RepoHits f -> sinceOf env cfg <= RepoHit.PushedAt h) /\
  (forall g q it,
     time_Parse (ri_PushedAt it) < sinceOf env cfg ->
     repoHitOf g q it ∉ RepoHits f) /\
  (forall g q items it,
     time_Parse (ri_PushedAt it) < sinceOf env cfg ->
     repoHitOf g q it ∉ repoHitsOf g q (sinceOf env cfg) items) /\
  (forall input, cfg = enforceBounds input ->
     sinceOf env cfg = time_Now env 0 - DaysBack cfg * (24 * Hour)).
Proof.
  intros HL Hrun. apply runSearches_Some in Hrun as (a & Hphase & ->).
  cut (forall A B C D : Prop, A /\ B /\ C -> D -> A /\ B /\ C /\ D);
    [|tauto].
  intros Hcut. apply Hcut; [|intros input ->; apply since_exact]. clear Hcut.
  pose proof (searchPhase_pushed L env cfg spec a Hphase) as Hwin.
  assert (Hall : forall h, h ∈ RepoHits (assemble env cfg a) ->
                   sinceOf env cfg <= RepoHit.PushedAt h).
  { intros h Hh%final_repo_elem_of; [|done].
    unfold pushedInWindow in Hwin. rewrite Forall_forall in Hwin.
    apply Hwin in Hh. unfold Before in Hh. by apply Z.ltb_ge in Hh. }
  split; [done|]. split.
  - intros g q it Hold Hin. apply Hall in Hin. simpl in Hin. lia.
  - intros g q items it Hold Hin. unfold repoHitsOf in Hin.
    apply list_elem_of_filter in Hin as [Hin _].
    unfold Before in Hin. apply Z.ltb_ge in Hin. simpl in Hin. lia.
Qed.

(** C7.  When the commit check is on, every code hit of the Findings has a
    derived commit date, at or after the start of the window; a hit that
    comes out of the fan-out without a date, or with a date before the start
    of the window, is not in the Findings; and the fan-out leaves a hit
    without a date whenever its request fails in the transport or is
    answered with a status other than 200. *)
Theorem commit_check_filter (L : GoLib) (env : Env) (cfg : AppSettings)
    (spec : QueriesSpec) (f : Findings) :
  sortContract L ->
  UseCommitCheck cfg = true ->
  runSearches env cfg spec = (f, None) ->
  (forall h, h ∈ CodeHits f ->
     dated h /\ sinceOf env cfg <= CodeHit.CommitDate h) /\
  (forall h, ~ dated h \/ CodeHit.CommitDate h < sinceOf env cfg ->
     h ∉ CodeHits f) /\
  (forall msg, commitDateOf (inl msg) = zeroTime) /\
  (forall resp, StatusCode resp <> 200 -> commitDateOf (inr resp) = zeroTime).
Proof.
  intros HL Hcheck Hrun. apply runSearches_Some in Hrun as (a & Hphase & ->).
  assert (Hall : forall h, h ∈ CodeHits (assemble env cfg a) ->
                   dated h /\ sinceOf env cfg <= CodeHit.CommitDate h).
  { intros h Hh%final_code_elem_of; [|done].
    unfold checkedCode in Hh. rewrite Hcheck in Hh. simpl in Hh.
    destruct (0 <? length (codeHits a))%nat eqn:Hlen.
    - unfold keepRecent in Hh. apply list_elem_of_filter in Hh as [[Hz Hb] _].
      unfold dated, IsZero, Before, zeroTime in *.
      apply Z.eqb_neq in Hz. apply Z.ltb_ge in Hb. done.
    - apply Nat.ltb_ge in Hlen. destruct (codeHits a); simpl in *; [|lia].
      by apply elem_of_nil in Hh. }
  split; [done|]. split; [|split].
  - intros h Hbad Hin. apply Hall in Hin as [? ?]. destruct Hbad; [done|lia].
  - done.
  - intros resp Hst. simpl. by apply Z.eqb_neq in Hst as ->.
Qed.

(** C3.  In the Findings of a run the code hits are in the order of
    [codeLess]: of two hits with a derived commit date, the earlier in the
    sequence has the later or the same date; a hit with a date is never after
    a hit without one; and of two hits without a date neither is less than
    the other. *)
Theorem code_hits_sorted (L : GoLib) (env : Env) (cfg : AppSettings)
    (spec : QueriesSpec) (f : Findings) :
  sortContract L ->
  runSearches env cfg spec = (f, None) ->
  (forall i j hi hj,
     CodeHits f !! i = Some hi -> CodeHits f !! j = Some hj -> (i < j)%nat ->
     (dated hi -> dated hj -> CodeHit.CommitDate hj <= CodeHit.CommitDate hi) /\
     (dated hj -> dated hi)) /\
  (forall a b, ~ dated a -> ~ dated b ->
     codeLess a b = false /\ codeLess b a = false).
Proof.
  intros HL Hrun. apply runSearches_Some in Hrun as (a & Hphase & ->).
  split.
  - intros i j hi hj Hi Hj Hij.
    assert (Hs : sortedBy codeLess (CodeHits (assemble env cfg a))).
    { simpl. unfold dedupeCode. rewrite dedupeBy_firstOccurrences.
      apply firstOccurrences_sorted. by apply sortedCode_sorted. }
    pose proof (StronglySorted_lookup _ _ _ _ _ _ Hs Hi Hj Hij) as Hle.
    simpl in Hle. unfold codeLess, IsZero, After, dated, zeroTime in *.
    destruct (Z.eqb_spec (CodeHit.CommitDate hj) 0),
             (Z.eqb_spec (CodeHit.CommitDate hi) 0); simpl in Hle;
      try done; try (split; [done|tauto]).
    apply Z.ltb_ge in Hle. split; [done|tauto].
  - intros x y Hx Hy. unfold codeLess, IsZero, dated, zeroTime in *.
    destruct (Z.eqb_spec (CodeHit.CommitDate x) 0),
             (Z.eqb_spec (CodeHit.CommitDate y) 0); simpl; tauto.
Qed.

(** C2, as the code has it.  In the Findings of a run no two code hits have
    the same repository, file path and file URL, and no two repository hits
    the same full name.  The duplicates are removed last, after the commit
    check and after the sort: the code hits of the Findings are the first
    occurrences, by the key string, in the sorted sequence, in the order of
    that sequence, and likewise for the repository hits. *)
Theorem dedupe_after_sort (L : GoLib) (env : Env) (cfg : AppSettings)
    (spec : QueriesSpec) (f : Findings) :
  runSearches env cfg spec = (f, None) ->
  NoDup (codeTriple <$> CodeHits f) /\
  NoDup (RepoHit.FullName <$> RepoHits f) /\
  exists a,
    searchPhase env cfg spec = Go_on a /\
    let code := sortedCode (checkedCode env cfg (sinceOf env cfg) (codeHits a)) in
    let repo := sortedRepo (repoHits a) in
    CodeHits f = firstOccurrences codeKey code /\
    RepoHits f = firstOccurrences repoKey repo /\
    CodeHits f `sublist_of` code /\
    RepoHits f `sublist_of` repo /\
    (forall h, h ∈ CodeHits f <-> firstWithKey codeKey code h) /\
    (forall h, h ∈ RepoHits f <-> firstWithKey repoKey repo h).
Proof.
  intros Hrun. apply runSearches_Some in Hrun as (a & Hphase & ->).
  simpl. unfold dedupeCode, dedupeRepo. rewrite !dedupeBy_firstOccurrences.
  split; [|split].
  - set (l := firstOccurrences codeKey _).
    assert (Hk : NoDup (codeKey <$> l)) by apply firstOccurrences_NoDup.
    replace (codeKey <$> l) with
      ((fun t : string * string * string =>
          t.1.1 +:+ "|" +:+ t.1.2 +:+ "|" +:+ t.2) <$> (codeTriple <$> l)) in Hk.
    + by apply NoDup_fmap_1 in Hk.
    + rewrite <- list_fmap_compose. done.
  - apply (firstOccurrences_NoDup repoKey).
  - exists a. split; [done|]. split; [done|]. split; [done|].
    split; [apply firstOccurrences_sublist|].
    split; [apply firstOccurrences_sublist|].
    split; intros h; apply firstOccurrences_first.
Qed.

(** ** The strict retry *)

Lemma keepsCode_preserved `{GoLib} l since : Preserved (keepsCode l) since.
Proof.
  split; try done. intros g q items a Ha. unfold keepsCode, withCode; simpl.
  by apply prefix_app_r.
Qed.

(** What the search phase has gathered is never taken back. *)
Lemma codePages_keeps `{GoLib} env cfg g q left page found a found' a' :
  codePages env cfg g q left page found a = Go_on (found', a') ->
  codeHits a `prefix_of` codeHits a'.
Proof.
  intros Hrun.
  pose proof (codePages_flowOK env cfg 0 _ (keepsCode_preserved (codeHits a) 0)
                g q left page found a) as Hflow.
  rewrite Hrun in Hflow. apply Hflow. unfold keepsCode. reflexivity.
Qed.

Lemma searchGroups_keeps `{GoLib} env cfg since gs a a' :
  searchGroups env cfg since gs a = Go_on a' ->
  codeHits a `prefix_of` codeHits a'.
Proof.
  intros Hrun.
  pose proof (searchGroups_flowOK env cfg since _
                (keepsCode_preserved (codeHits a) since) gs a) as Hflow.
  rewrite Hrun in Hflow. apply Hflow. unfold keepsCode. reflexivity.
Qed.

(** Without the commit check, a run that returns its Findings has in them,
    up to the key of the deduplication, every code hit gathered. *)
Lemma gathered_code_in_findings (L : GoLib) env cfg spec a h :
  sortContract L ->
  UseCommitCheck cfg = false ->
  searchPhase env cfg spec = Go_on a ->
  h ∈ codeHits a ->
  exists h', h' ∈ CodeHits (assemble env cfg a) /\ codeKey h' = codeKey h.
Proof.
  intros HL Hoff _ Hh. apply final_code_keys; [done|].
  unfold checkedCode. by rewrite Hoff.
Qed.

(** The page loop at a refused page.  A page of a code search is asked for
    ([ctx] not being done) and answered with status 422: the same page is
    asked for once more, with the query wholly percent-encoded.  If the
    second answer has status 200 and items, the hits of these items are added
    to the code hits, the pause of the second answer is taken and the loop
    goes on with the next page; the hits stay among the code hits to the end
    of the loop.  If the second answer has another status, the loop ends
    without an error and with [foundThisQuery] as it was: no code hit is
    added, exactly two notes are added, the note of the retry and the note of
    the first answer, the pause of the first answer is taken, and the four
    interactions are the look at the context, the two requests and the
    pause. *)
Lemma codePages_on_422 `{GoLib} (env : Env) (cfg : AppSettings)
    (g : SearchGroup.t) (q : SearchQuery.t) (left : nat) (page found : Z)
    (a : Acc) (resp resp2 : Response) :
  let rawQ := sanitizeCodeQuery (SearchQuery.Query q) in
  let url := codeSearchURL (urlQueryEscape rawQ) (PerPage cfg) page in
  let strictURL :=
    codeSearchURL (neturl_QueryEscape (strings_TrimSpace rawQ)) (PerPage cfg) page in
  let a2 :=
    logged (Requested strictURL (inr resp2))
      (logged (Requested url (inr resp)) (logged (Polled None) a)) in
  ctx_Err env (tick a) = None ->
  client_get env (S (tick a)) url = inr resp ->
  StatusCode resp = 422 ->
  client_get env (S (S (tick a))) strictURL = inr resp2 ->
  (StatusCode resp2 = 200 ->
   forall cr2, json_codeSearchResp (Body resp2) = inr cr2 -> cs_Items cr2 <> [] ->
     let hits := codeHitOf g q <$> cs_Items cr2 in
     let next :=
       codePages env cfg g q left (page + 1)
         (found + Z.of_nat (length (cs_Items cr2)))
         (slept env resp2 (withCode hits a2)) in
     codePages env cfg g q (S left) page found a = next /\
     codeHits (slept env resp2 (withCode hits a2)) = codeHits a ++ hits /\
     forall found' a', next = Go_on (found', a') ->
       (codeHits a ++ hits) `prefix_of` codeHits a') /\
  (StatusCode resp2 <> 200 ->
   exists a',
     codePages env cfg g q (S left) page found a = Go_on (found, a') /\
     codeHits a' = codeHits a /\
     repoHits a' = repoHits a /\
     notes a' = notes a ++ [retryNote (queryName g q) resp2 strictURL;
                            statusNote (queryName g q) resp url] /\
     trace a' = trace a ++ [Polled None; Requested url (inr resp);
                            Requested strictURL (inr resp2);
                            Slept (throttleFrom (time_Now env (S (S (S (tick a))))) resp)]).
Proof.
  intros rawQ url strictURL a2 Hctx Hget Hst Hget2.
  assert (Hstep : codePages env cfg g q (S left) page found a
    = if StatusCode resp2 =? 200 then
        match json_codeSearchResp (Body resp2) with
        | inl msg => Return Findings_zero (json_error msg) (trace a2)
        | inr cr2 =>
            match cs_Items cr2 with
            | [] => Go_on (found, a2)
            | items =>
                codePages env cfg g q left (page + 1)
                  (found + Z.of_nat (length items))
                  (slept env resp2 (withCode (codeHitOf g q <$> items) a2))
            end
        end
      else Go_on (found, slept env resp
                    (noted (statusNote (queryName g q) resp url)
                       (noted (retryNote (queryName g q) resp2 strictURL) a2)))).
  { cbn [codePages]. rewrite Hctx.
    change (tick (logged (Polled None) a)) with (S (tick a)).
    fold rawQ. fold url. rewrite Hget, Hst.
    change (negb (422 =? 200)) with true. change (422 =? 422) with true.
    cbv iota.
    change (tick (logged (Requested url (inr resp)) (logged (Polled None) a)))
      with (S (S (tick a))).
    fold strictURL. rewrite Hget2. done. }
  split.
  - intros Hok cr2 Hcr Hitems hits next.
    rewrite Hstep, Hok, Hcr. change (200 =? 200) with true. cbv iota.
    split; [|split].
    + subst next hits. by destruct (cs_Items cr2).
    + done.
    + intros found' a' Hnext. apply codePages_keeps in Hnext. done.
  - intros Hbad. eexists. rewrite Hstep.
    apply Z.eqb_neq in Hbad. rewrite Hbad.
    split; [done|]. split; [done|]. split; [done|]. split.
    + unfold slept, noted, logged; simpl. by rewrite <- app_assoc.
    + unfold slept, noted, logged, a2; simpl. by rewrite <- !app_assoc.
Qed.

(** C10.  While a request for a page that fails in the transport ends the
    run with that error, a strict retry that fails in the transport does not:
    the loop of the query ends without an error, no code hit is added, and
    exactly one note is added, the note of the first answer. *)
Theorem retry_transport_failure `{GoLib} (env : Env) (cfg : AppSettings)
    (g : SearchGroup.t) (q : SearchQuery.t) (left : nat) (page found : Z)
    (a : Acc) :
  let rawQ := sanitizeCodeQuery (SearchQuery.Query q) in
  let url := codeSearchURL (urlQueryEscape rawQ) (PerPage cfg) page in
  let strictURL :=
    codeSearchURL (neturl_QueryEscape (strings_TrimSpace rawQ)) (PerPage cfg) page in
  ctx_Err env (tick a) = None ->
  (forall msg,
     client_get env (S (tick a)) url = inl msg ->
     codePages env cfg g q (S left) page found a
     = Return Findings_zero (transport_error msg)
         (trace a ++ [Polled None; Requested url (inl msg)])) /\
  (forall resp msg,
     client_get env (S (tick a)) url = inr resp ->
     StatusCode resp = 422 ->
     client_get env (S (S (tick a))) strictURL = inl msg ->
     exists a',
       codePages env cfg g q (S left) page found a = Go_on (found, a') /\
       codeHits a' = codeHits a /\
       repoHits a' = repoHits a /\
       notes a' = notes a ++ [statusNote (queryName g q) resp url] /\
       trace a' = trace a ++ [Polled None; Requested url (inr resp);
                              Requested strictURL (inl msg);
                              Slept (throttleFrom (time_Now env (S (S (S (tick a))))) resp)]).
Proof.
  intros rawQ url strictURL Hctx. split.
  - intros msg Hget. cbn [codePages]. rewrite Hctx.
    change (tick (logged (Polled None) a)) with (S (tick a)).
    fold rawQ. fold url. rewrite Hget.
    unfold logged; simpl. by rewrite <- app_assoc.
  - intros resp msg Hget Hst Hget2. eexists.
    cbn [codePages]. rewrite Hctx.
    change (tick (logged (Polled None) a)) with (S (tick a)).
    fold rawQ. fold url. rewrite Hget, Hst.
    change (negb (422 =? 200)) with true. change (422 =? 422) with true.
    cbv iota.
    change (tick (logged (Requested url (inr resp)) (logged (Polled None) a)))
      with (S (S (tick a))).
    fold strictURL. rewrite Hget2.
    split; [done|]. split; [done|]. split; [done|]. split; [done|].
    unfold slept, noted, logged; simpl. by rewrite <- !app_assoc.
Qed.

(** ** The fan-out *)

Lemma setCommitDate_same d h : sameButCommitDate h (CodeHit.setCommitDate d h).
Proof. by destruct h. Qed.

Lemma sameButCommitDate_refl h : sameButCommitDate h h.
Proof. by repeat split. Qed.

Lemma sameButCommitDate_trans a b c :
  sameButCommitDate a b -> sameButCommitDate b c -> sameButCommitDate a c.
Proof. unfold sameButCommitDate. intuition congruence. Qed.

Lemma store_framed hits o i t : framed hits o -> framed hits (store o i t).
Proof.
  intros [Hlen Hat]. unfold store. split; [by rewrite length_alter|].
  intros k h Hk. destruct (Hat k h Hk) as (x & Hx & Hsame).
  destruct (decide (i = k)) as [->|Hne].
  - exists (CodeHit.setCommitDate t x). rewrite list_lookup_alter_eq, Hx. split; [done|].
    eapply sameButCommitDate_trans; [exact Hsame|apply setCommitDate_same].
  - exists x. by rewrite list_lookup_alter_ne.
Qed.

Lemma storeAll_framed hits rs : framed hits (storeAll hits rs).
Proof.
  unfold storeAll.
  assert (G : forall o, framed hits o ->
            framed hits (foldl (fun o r => store o (res_i r) (res_t r)) o rs)).
  { induction rs as [|r rs IH]; intros o Ho; simpl; [done|].
    apply IH. by apply store_framed. }
  apply G. split; [done|]. intros i h Hi. exists h. split; [done|].
  apply sameButCommitDate_refl.
Qed.

Lemma jobsOf_indices hits : job_i <$> jobsOf hits = seq 0 (length hits).
Proof.
  unfold jobsOf.
  assert (G : forall n, job_i <$> imap (fun i h => {| job_i := n + i; job_h := h |}) hits
                        = seq n (length hits)).
  { induction hits as [|h hits IH]; intros n; simpl; [done|].
    rewrite Nat.add_0_r. f_equal.
    rewrite <- (IH (S n)). f_equal. apply imap_ext. intros i x _. simpl.
    f_equal. lia. }
  apply (G 0%nat).
Qed.

Section Slots.
Context {B : Type}.

Lemma sum_insert (f : worker -> nat) ws k w w' :
  ws !! k = Some w ->
  (sum_list (f <$> <[k := w']> ws) + f w = sum_list (f <$> ws) + f w')%nat.
Proof.
  revert k. induction ws as [|x ws IH]; intros [|k] Hk; simplify_eq/=; [lia|].
  specialize (IH _ Hk). lia.
Qed.

Lemma concat_insert (f : worker -> list B) ws k w w' :
  ws !! k = Some w ->
  concat (f <$> <[k := w']> ws) ++ f w ≡ₚ concat (f <$> ws) ++ f w'.
Proof.
  revert k. induction ws as [|x ws IH]; intros [|k] Hk; simplify_eq/=.
  - rewrite <- !app_assoc.
    rewrite (Permutation_app_comm (f w') (concat (f <$> ws) ++ f w)).
    rewrite (app_assoc (f w)), (Permutation_app_comm (f w) (concat (f <$> ws))).
    by rewrite <- !app_assoc.
  - rewrite <- !app_assoc. f_equiv. by apply IH.
Qed.
End Slots.

Section FanOutProofs.
Context `{GoLib}.

Lemma initPool_inv W hits : poolInv W hits (initPool W hits).
Proof.
  unfold poolInv, initPool; simpl. split_and!.
  - by rewrite length_replicate.
  - done.
  - rewrite jobsOf_indices, app_nil_r.
    assert (E : concat (inflight <$> replicate W Waiting) = []).
    { induction W; simpl; [done|]. done. }
    by rewrite E, app_nil_r.
  - intros Hin. apply elem_of_replicate in Hin as [? _]. discriminate.
Qed.

Lemma Left_insert (ws : list worker) (k : nat) (w : worker) :
  w <> Left -> Left ∈ <[k := w]> ws -> Left ∈ ws.
Proof.
  intros Hw Hin. apply list_elem_of_lookup in Hin as [i Hi].
  destruct (decide (i = k)) as [->|Hne].
  - apply list_lookup_insert_Some in Hi as [(_ & ? & _)|[? _]]; [congruence|done].
  - rewrite list_lookup_insert_ne in Hi by done. by eapply list_elem_of_lookup_2.
Qed.

Lemma poolStep_inv W hits s s' :
  poolInv W hits s -> poolStep s s' -> poolInv W hits s'.
Proof.
  intros (Hlen & Hout & Hperm & Hleft) Hstep.
  destruct Hstep as [k j js ws o rc Hk|k j answer js ws o rc Hk
                    |k r js ws o rc Hk|k ws o rc Hk];
    unfold poolInv in *; simpl in *.
  - split_and!; [by rewrite length_insert|done| |].
    + rewrite <- Hperm.
      pose proof (concat_insert inflight ws k Waiting (Working j) Hk) as Hc.
      simpl in Hc. rewrite app_nil_r in Hc. rewrite Hc.
      rewrite <- !app_assoc. simpl.
      rewrite !app_assoc. by rewrite <- Permutation_middle.
    + intros Hin%Left_insert; [|done]. by apply Hleft in Hin.
  - split_and!; [by rewrite length_insert|done| |].
    + rewrite <- Hperm. f_equiv. f_equiv.
      pose proof (concat_insert inflight ws k (Working j)
                    (Sending {| res_i := job_i j; res_t := commitDateOf answer |}) Hk) as Hc.
      simpl in Hc. by apply (inj (.++ [job_i j])).
    + intros Hin%Left_insert; [|done]. by apply Hleft in Hin.
  - split_and!; [by rewrite length_insert| | |].
    + unfold storeAll. rewrite foldl_app. simpl. by rewrite Hout.
    + rewrite <- Hperm. f_equiv.
      pose proof (concat_insert inflight ws k (Sending r) Waiting Hk) as Hc.
      simpl in Hc. rewrite app_nil_r in Hc. rewrite fmap_app. simpl.
      rewrite <- Hc. rewrite <- !app_assoc. f_equiv.
      apply Permutation_app_comm.
    + intros Hin%Left_insert; [|done]. by apply Hleft in Hin.
  - split_and!; [by rewrite length_insert|done| |done].
    rewrite <- Hperm. simpl. f_equiv.
    pose proof (concat_insert inflight ws k Waiting Left Hk) as Hc.
    simpl in Hc. by rewrite !app_nil_r in Hc.
Qed.

Lemma reachable_inv W hits s :
  rtc poolStep (initPool W hits) s -> poolInv W hits s.
Proof.
  revert s. apply (rtc_ind_r (poolInv W hits)).
  - apply initPool_inv.
  - intros y z _ Hstep Hy. by eapply poolStep_inv.
Qed.

Lemma poolStep_measure s s' : poolStep s s' -> (poolMeasure s' < poolMeasure s)%nat.
Proof.
  intros Hstep.
  destruct Hstep as [k j js ws o rc Hk|k j answer js ws o rc Hk
                    |k r js ws o rc Hk|k ws o rc Hk];
    unfold poolMeasure; simpl.
  - pose proof (sum_insert workerWeight ws k Waiting (Working j) Hk). simpl in *. lia.
  - pose proof (sum_insert workerWeight ws k (Working j)
                  (Sending {| res_i := job_i j; res_t := commitDateOf answer |}) Hk).
    simpl in *. lia.
  - pose proof (sum_insert workerWeight ws k (Sending r) Waiting Hk). simpl in *. lia.
  - pose proof (sum_insert workerWeight ws k Waiting Left Hk). simpl in *. lia.
Qed.

Lemma all_Left_or_not (ws : list worker) :
  Forall (fun w => w = Left) ws \/ exists k w, ws !! k = Some w /\ w <> Left.
Proof.
  induction ws as [|w ws [IH|(k & x & Hk & Hx)]].
  - left. constructor.
  - destruct w as [|j|r|]; [right..|left; by constructor];
      eexists 0%nat, _; (split; [reflexivity|discriminate]).
  - right. by exists (S k), x.
Qed.

Lemma poolStep_progress s : finalPool s \/ exists s', poolStep s s'.
Proof.
  destruct s as [js ws o rc]. unfold finalPool; simpl.
  destruct (all_Left_or_not ws) as [|(k & w & Hk & Hw)]; [by left|right].
  destruct w as [|j|r|]; [|..|done].
  - destruct js as [|j js].
    + eexists. by eapply step_leave.
    + eexists. by eapply step_take.
  - eexists. by eapply (step_request k j (inl "")).
  - eexists. by eapply step_deliver.
Qed.

(** Every state can be run to the end. *)
Lemma pool_terminates s : exists s', rtc poolStep s s' /\ finalPool s'.
Proof.
  remember (poolMeasure s) as n eqn:Hn. revert s Hn.
  induction (lt_wf n) as [n _ IH]. intros s ->.
  destruct (poolStep_progress s) as [Hfin|[s1 Hstep]].
  - exists s. split; [reflexivity|done].
  - destruct (IH _ (poolStep_measure _ _ Hstep) s1 eq_refl) as (s' & Hrun & Hfin).
    exists s'. split; [|done]. by eapply rtc_l.
Qed.
End FanOutProofs.

(** C8.  Whatever the number of workers, the order in which they take the
    jobs, the answers to their requests and the order in which their results
    reach the collecting loop, in every state of the fan-out the slice [out]
    has the length of the input and its [i]-th element is the [i]-th hit of
    the input but for the commit date; [out] is the input with the results
    received so far stored at their indices; every step brings the end
    nearer, and the end can be reached, where [out] is returned; and at the
    end, with at least one worker, exactly one result per job has been
    received. *)
Theorem fanout_positional `{GoLib} (W : nat) (hits : list CodeHit.t) (s : Pool) :
  rtc poolStep (initPool W hits) s ->
  length (out s) = length hits /\
  (forall i h, hits !! i = Some h ->
     exists o, out s !! i = Some o /\ sameButCommitDate h o) /\
  out s = storeAll hits (received s) /\
  (forall s', poolStep s s' -> (poolMeasure s' < poolMeasure s)%nat) /\
  (exists s', rtc poolStep s s' /\ finalPool s') /\
  ((0 < W)%nat -> finalPool s -> res_i <$> received s ≡ₚ seq 0 (length hits)).
Proof.
  intros Hrun. destruct (reachable_inv W hits s Hrun) as (Hlen & Hout & Hperm & Hleft).
  pose proof (storeAll_framed hits (received s)) as [Hl Hat]. rewrite <- Hout in Hl, Hat.
  split; [done|]. split; [done|]. split; [done|].
  split; [apply poolStep_measure|]. split; [apply pool_terminates|].
  intros HW Hfin. unfold finalPool in Hfin.
  assert (Hsome : Left ∈ workers s).
  { destruct (workers s) as [|w ws]; simpl in *; [lia|].
    apply Forall_cons in Hfin as [-> _]. left. }
  rewrite (Hleft Hsome) in Hperm. simpl in Hperm.
  assert (E : concat (inflight <$> workers s) = []).
  { clear -Hfin. induction Hfin as [|w ws -> _ IH]; simpl; [done|done]. }
  by rewrite E in Hperm.
Qed.

(** ** The rate governor *)

Lemma TrimSpace_empty : strings_TrimSpace "" = "".
Proof. reflexivity. Qed.

(** The pauses where the product [time.Duration(secs)*time.Second] stays
    within 64 bits.  When the header Retry-After holds a number of seconds
    [r], positive and at most [maxRetryAfter], the pause is [r] seconds and
    half a second, whatever the status and the other headers.  When no such
    header decides, the resource is the search one, the remaining quota is 0
    and the reset is 30 seconds ahead, the pause is 30 seconds and half a
    second, between 30 and 120 seconds. *)
Lemma throttle_waits (now : Time) (resp : Response) :
  (forall r,
     strconv_Atoi (strings_TrimSpace (Header_Get (Header resp) "Retry-After")) = (r, true) ->
     0 < r <= maxRetryAfter ->
     throttleFrom now resp = r * Second + 500 * Millisecond /\
     r * Second <= throttleFrom now resp) /\
  (forall resetUnix,
     retryAfter resp = None ->
     strings_ToLower (Header_Get (Header resp) "X-RateLimit-Resource") = "search" ->
     Header_Get (Header resp) "X-RateLimit-Remaining" = "0" ->
     strconv_ParseInt (Header_Get (Header resp) "X-RateLimit-Reset") = (resetUnix, true) ->
     time_Until now (time_Unix resetUnix) = 30 * Second ->
     throttleFrom now resp = 30 * Second + 500 * Millisecond /\
     30 * Second <= throttleFrom now resp <= 120 * Second).
Proof.
  split.
  - intros r Hra [Hpos Hmax]. unfold maxRetryAfter in Hmax.
    assert (Hd : throttleFrom now resp = r * Second + 500 * Millisecond).
    { unfold throttleFrom, retryAfter.
      destruct (decide (Header_Get (Header resp) "Retry-After" = "")) as [E|E].
      { rewrite E, TrimSpace_empty in Hra. discriminate. }
      rewrite bool_decide_eq_false_2 by done. rewrite Hra.
      rewrite (proj2 (Z.ltb_lt 0 r)) by done.
      unfold add64, mul64, Second, Millisecond.
      rewrite (wrap64_small (r * _)) by (unfold minInt64, maxInt64; lia).
      rewrite (wrap64_small (500 * _)) by (unfold minInt64, maxInt64; lia).
      apply wrap64_small. unfold minInt64, maxInt64; lia. }
    rewrite Hd. split; [done|]. unfold Millisecond. lia.
  - intros resetUnix Hnone Hres Hrem Hreset Hwait.
    assert (Hd : throttleFrom now resp = 30 * Second + 500 * Millisecond).
    { unfold throttleFrom. rewrite Hnone, Hres, Hrem, Hreset, Hwait.
      rewrite orb_true_r. reflexivity. }
    rewrite Hd. unfold Second, Millisecond. lia.
Qed.

(** ** The encoding, read back *)

Lemma QueryUnescape_lenientByte c rest :
  neturl_QueryUnescape (lenientByte c +:+ rest)
  = String c <$> neturl_QueryUnescape rest.
Proof. destruct c as [[] [] [] [] [] [] [] []]; reflexivity. Qed.

Lemma QueryUnescape_lenientEncode s :
  neturl_QueryUnescape (lenientEncode s) = Some s.
Proof.
  induction s as [|c s IH]; [done|]. simpl.
  by rewrite QueryUnescape_lenientByte, IH.
Qed.

(** C9.  For every query string, [urlQueryEscape] gives the lenient encoding
    of the trimmed string: byte by byte, the operator characters colon,
    parentheses, greater-than, less-than, equals, comma, slash and pipe stand
    for themselves and every other byte has the encoding of
    [url.QueryEscape]; each byte is encoded once, so that the receiver, who
    unescapes once, reads the trimmed string.  A query with
    [language:python], parentheses, [>=] and a comma comes out of
    [sanitizeCodeQuery] and [urlQueryEscape] with these characters as they
    are. *)
Theorem lenient_encoding (q : string) :
  urlQueryEscape q = lenientEncode (strings_TrimSpace q) /\
  neturl_QueryUnescape (urlQueryEscape q) = Some (strings_TrimSpace q) /\
  sanitizeCodeQuery Scenario.codeQuery
  = "polygon language:python (rest OR ws) stars:>=10 a,b" /\
  urlQueryEscape (sanitizeCodeQuery Scenario.codeQuery)
  = "polygon+language:python+(rest+OR+ws)+stars:>=10+a,b".
Proof.
  split; [apply urlQueryEscape_lenient|]. split.
  - rewrite urlQueryEscape_lenient. apply QueryUnescape_lenientEncode.
  - split; vm_compute; reflexivity.
Qed.

(** ** The library of the examples keeps the promise of [sort.Slice] *)

Lemma lib_sortContract : sortContract Scenario.lib.
Proof.
  split; intros A less l.
  - apply insertionSort_perm.
  - apply insertionSort_sorted.
Qed.

(** ** The statements on the examples *)

Import Scenario.

(** The deadline passes while a code search, capped at three pages, pauses
    after its first page: the look at the context before the second page
    ends the run with the error of the context and the zero Findings. *)
Lemma deadline_on_page_two :
  last (runSearches_traced deadlineOnPageTwo (settings false)
          (oneSearch "code" codeQuery)).2
  = Some (Polled (Some DeadlineExceeded)) /\
  runSearches deadlineOnPageTwo (settings false) (oneSearch "code" codeQuery)
  = (Findings_zero, Some (context_error DeadlineExceeded)).
Proof.
  pose proof (runSearches_all_or_nothing deadlineOnPageTwo (settings false)
                (oneSearch "code" codeQuery)) as Hthm.
  assert (Hlast : last (runSearches_traced deadlineOnPageTwo (settings false)
                          (oneSearch "code" codeQuery)).2
                  = Some (Polled (Some DeadlineExceeded)))
    by (vm_compute; reflexivity).
  split; [exact Hlast|].
  destruct (runSearches_traced deadlineOnPageTwo (settings false)
              (oneSearch "code" codeQuery)) as [[f err] tr].
  simpl in Hthm, Hlast.
  destruct Hthm as (Hrun & _ & Hdone). rewrite Hrun.
  apply last_Some in Hlast as [tr' ->].
  destruct (Hdone DeadlineExceeded) as [-> ->]; [|done].
  apply elem_of_app. right. by apply list_elem_of_singleton.
Defined.
(** Of two different elements with the same key the second is not the
    first with its key. *)
Lemma second_not_first {A} (key : A -> string) (a b : A) :
  a <> b -> key a = key b -> ~ firstWithKey key [a; b] b.
Proof.
  intros Hne Hkey (l1 & l2 & E & Hnew).
  destruct l1 as [|x [|y l1]]; simplify_eq/=.
  - rewrite Hkey in Hnew. apply Hnew. left.
  - destruct l1; discriminate.
Qed.

(** The same repository is found by two searches and pushed in between: the
    hit of the second search is the one in the Findings, although the hit of
    the first search came first. *)
Lemma later_duplicate_kept :
  exists a,
    searchPhase pushedBetween (settings false) twoSearches = Go_on a /\
    repoHits a = [hitAlpha; hitBeta] /\
    repoKey hitAlpha = repoKey hitBeta /\
    runSearches pushedBetween (settings false) twoSearches
    = (assemble pushedBetween (settings false) a, None) /\
    RepoHits (assemble pushedBetween (settings false) a) = [hitBeta] /\
    ~ firstWithKey repoKey (repoHits a) hitBeta.
Proof.
  assert (Hphase : exists a,
            searchPhase pushedBetween (settings false) twoSearches = Go_on a)
    by (vm_compute; eexists; reflexivity).
  destruct Hphase as [a Ha]. exists a.
  assert (Hrepo : repoHits a = [hitAlpha; hitBeta]).
  { assert (E : match searchPhase pushedBetween (settings false) twoSearches with
                | Go_on x => repoHits x
                | Return _ _ _ => []
                end = [hitAlpha; hitBeta]) by (vm_compute; reflexivity).
    rewrite Ha in E. exact E. }
  split; [exact Ha|]. split; [exact Hrepo|]. split; [reflexivity|]. split; [|split].
  - unfold runSearches, runSearches_traced. rewrite Ha. reflexivity.
  - change (RepoHits (assemble pushedBetween (settings false) a))
      with (dedupeRepo (sortedRepo (repoHits a))).
    rewrite Hrepo. vm_compute. reflexivity.
  - rewrite Hrepo. apply second_not_first.
    + intros E. apply (f_equal RepoHit.QueryName) in E.
      vm_compute in E. discriminate E.
    + vm_compute. reflexivity.
Defined.
(** In that run no two hits of the Findings have the same key. *)
Lemma dedupe_after_sort_example :
  runSearches pushedBetween (settings false) twoSearches
  = ((runSearches pushedBetween (settings false) twoSearches).1, None) /\
  NoDup (RepoHit.FullName <$>
           RepoHits (runSearches pushedBetween (settings false) twoSearches).1) /\
  NoDup (codeTriple <$>
           CodeHits (runSearches pushedBetween (settings false) twoSearches).1).
Proof.
  assert (Hrun : runSearches pushedBetween (settings false) twoSearches
                 = ((runSearches pushedBetween (settings false) twoSearches).1, None))
    by (vm_compute; reflexivity).
  split; [exact Hrun|].
  destruct (dedupe_after_sort lib _ _ _ _ Hrun) as (Hcode & Hrepo & _).
  by split.
Defined.

(** Of the three files found, the one whose request failed is dropped and
    the two others come latest first. *)
Lemma three_files_example :
  runSearches threeFiles (settings true) (oneSearch "code" codeQuery)
  = ((runSearches threeFiles (settings true) (oneSearch "code" codeQuery)).1, None) /\
  CodeHits (runSearches threeFiles (settings true) (oneSearch "code" codeQuery)).1
  = [hitOf fileC "2024-01-05T00:00:00Z"; hitOf fileA "2024-01-02T00:00:00Z"] /\
  CodeHit.CommitDate (hitOf fileA "2024-01-02T00:00:00Z")
  <= CodeHit.CommitDate (hitOf fileC "2024-01-05T00:00:00Z").
Proof.
  assert (Hrun : runSearches threeFiles (settings true) (oneSearch "code" codeQuery)
            = ((runSearches threeFiles (settings true) (oneSearch "code" codeQuery)).1, None))
    by (vm_compute; reflexivity).
  assert (Hhits :
    CodeHits (runSearches threeFiles (settings true) (oneSearch "code" codeQuery)).1
    = [hitOf fileC "2024-01-05T00:00:00Z"; hitOf fileA "2024-01-02T00:00:00Z"])
    by (vm_compute; reflexivity).
  split; [exact Hrun|]. split; [exact Hhits|].
  destruct (code_hits_sorted lib _ _ _ _ lib_sortContract Hrun) as [Hsorted _].
  rewrite Hhits in Hsorted.
  apply (Hsorted 0%nat 1%nat); [reflexivity|reflexivity|lia| |]; vm_compute; discriminate.
Defined.

(** With the commit check on, the hits of that run are dated in the window,
    and the file whose request failed is not among them. *)
Lemma commit_check_example :
  UseCommitCheck (settings true) = true /\
  runSearches threeFiles (settings true) (oneSearch "code" codeQuery)
  = ((runSearches threeFiles (settings true) (oneSearch "code" codeQuery)).1, None) /\
  (forall h,
     h ∈ CodeHits (runSearches threeFiles (settings true) (oneSearch "code" codeQuery)).1 ->
     dated h /\ since <= CodeHit.CommitDate h) /\
  hitOf fileB "" ∉
    CodeHits (runSearches threeFiles (settings true) (oneSearch "code" codeQuery)).1.
Proof.
  assert (Hrun : runSearches threeFiles (settings true) (oneSearch "code" codeQuery)
            = ((runSearches threeFiles (settings true) (oneSearch "code" codeQuery)).1, None))
    by (vm_compute; reflexivity).
  split; [reflexivity|]. split; [exact Hrun|].
  destruct (commit_check_filter lib threeFiles (settings true) _ _ lib_sortContract eq_refl Hrun)
    as (Hall & Hdrop & _).
  split.
  - intros h Hh. destruct (Hall h Hh) as [Hd Hs]. split; [done|].
    assert (E : sinceOf threeFiles (settings true) = since) by (vm_compute; reflexivity).
    by rewrite E in Hs.
  - apply Hdrop. left. intros Hd. apply Hd. reflexivity.
Defined.

(** The search for ["example"], whose
    request carries [pushed:>=2024-01-01], is answered with a repository
    pushed on 2023-12-31, and the Findings have no repository hit. *)
Lemma stale_repo_example :
  runSearches staleAnswer (settings false) (oneSearch "repo" exampleQuery)
  = ((runSearches staleAnswer (settings false) (oneSearch "repo" exampleQuery)).1, None) /\
  repoURL exampleQuery 1
  = "https://api.github.com/search/repositories?q=%22example%22+pushed:>=2024-01-01&sort=updated&order=desc&per_page=50&page=1" /\
  client_get staleAnswer 2 (repoURL exampleQuery 1) = repoOK [staleRepo] /\
  RepoHits (runSearches staleAnswer (settings false) (oneSearch "repo" exampleQuery)).1 = [] /\
  repoHitOf (groupOf [theQuery "repo" exampleQuery]) (theQuery "repo" exampleQuery) staleRepo
    ∉ RepoHits (runSearches staleAnswer (settings false) (oneSearch "repo" exampleQuery)).1.
Proof.
  assert (Hrun : runSearches staleAnswer (settings false) (oneSearch "repo" exampleQuery)
     = ((runSearches staleAnswer (settings false) (oneSearch "repo" exampleQuery)).1, None))
    by (vm_compute; reflexivity).
  split; [exact Hrun|]. split; [vm_compute; reflexivity|].
  split; [vm_compute; reflexivity|]. split; [vm_compute; reflexivity|].
  destruct (repo_hits_in_window lib _ _ _ _ lib_sortContract Hrun) as (_ & Hout & _).
  apply Hout. vm_compute. reflexivity.
Defined.

(** A Retry-After of 5 seconds, and a quota used up that is reset in 30
    seconds. *)
Lemma throttle_examples :
  throttleFrom start retryAfterFive = 5 * Second + 500 * Millisecond /\
  5 * Second <= throttleFrom start retryAfterFive /\
  time_Until start (time_Unix 1704672030) = 30 * Second /\
  30 * Second <= throttleFrom start exhausted <= 120 * Second.
Proof.
  destruct (throttle_waits start retryAfterFive) as [Hra _].
  destruct (Hra 5) as [E1 E2]; [vm_compute; reflexivity|unfold maxRetryAfter; lia|].
  destruct (throttle_waits start exhausted) as [_ Hreset].
  destruct (Hreset 1704672030) as [E3 E4]; try (vm_compute; reflexivity).
  split; [exact E1|]. split; [exact E2|]. split; [vm_compute; reflexivity|exact E4].
Defined.

(** C4, at the input where the code fails it.  The answer carries the header
    Retry-After: 9223372037, which [strconv.Atoi] reads as a positive number
    of seconds.  The claim asks for a pause of at least that many seconds;
    the product [time.Duration(secs)*time.Second] wraps around in 64 bits,
    the duration handed to [time.Sleep] is negative, and [time.Sleep]
    returns at once: the pause is 0 and not at least the seconds asked
    for. *)
Theorem retry_after_overflow :
  strconv_Atoi (strings_TrimSpace (Header_Get (Header retryAfterHuge) "Retry-After"))
  = (9223372037, true) /\
  throttleFrom start retryAfterHuge = -9223372036209551616 /\
  pause (throttleFrom start retryAfterHuge) = 0 /\
  ~ (9223372037 * Second <= throttleFrom start retryAfterHuge).
Proof.
  split; [vm_compute; reflexivity|]. split; [vm_compute; reflexivity|].
  split; [vm_compute; reflexivity|].
  assert (E : throttleFrom start retryAfterHuge = -9223372036209551616)
    by (vm_compute; reflexivity).
  rewrite E. unfold Second. lia.
Qed.

(** The strict retry gets no
    answer; the search ends with the note of the first answer and the run
    returns its Findings. *)
Lemma retry_unanswered_example :
  let g := groupOf [theQuery "code" codeQuery] in
  let q := theQuery "code" codeQuery in
  (exists a',
     codePages retryUnanswered (settings false) g q 3 1 0 startAcc = Go_on (0, a') /\
     codeHits a' = [] /\
     notes a' = [statusNote (queryName g q) unprocessable (lenientURL 1)]) /\
  runSearches retryUnanswered (settings false) (oneSearch "code" codeQuery)
  = ((runSearches retryUnanswered (settings false) (oneSearch "code" codeQuery)).1, None) /\
  Notes (runSearches retryUnanswered (settings false) (oneSearch "code" codeQuery)).1
  = [statusNote (queryName g q) unprocessable (lenientURL 1);
     noCodeHitsNote (queryName g q)].
Proof.
  intros g q. split.
  - pose proof (retry_transport_failure retryUnanswered (settings false) g q 2 1 0
                  startAcc) as G.
    cbv zeta in G. destruct G as [_ Hretry]; [reflexivity|].
    destruct (Hretry unprocessable "connection reset by peer")
      as (a' & Hrun & Hcode & _ & Hnotes & _);
      [vm_compute; reflexivity|reflexivity|vm_compute; reflexivity|].
    exists a'. split; [exact Hrun|]. split; [exact Hcode|]. exact Hnotes.
  - split; vm_compute; reflexivity.
Defined.
(** Two workers, three jobs; the second
    worker delivers the results of the second and third jobs before the first
    worker delivers the result of the first. *)
Lemma fanout_example :
  rtc poolStep (initPool 2 threeHits) afterFanOut /\
  finalPool afterFanOut /\
  res_i <$> received afterFanOut = [1; 2; 0]%nat /\
  length (out afterFanOut) = length threeHits /\
  (forall i h, threeHits !! i = Some h ->
     exists o, out afterFanOut !! i = Some o /\ sameButCommitDate h o).
Proof.
  assert (Hrun : rtc poolStep (initPool 2 threeHits) afterFanOut).
  { eapply rtc_l; [apply (step_take 0%nat); reflexivity|].
    eapply rtc_l; [apply (step_take 1%nat); reflexivity|].
    eapply rtc_l; [eapply step_request with (k := 1%nat) (answer := inl "timeout"); reflexivity|].
    eapply rtc_l; [apply (step_deliver 1%nat); reflexivity|].
    eapply rtc_l; [apply (step_take 1%nat); reflexivity|].
    eapply rtc_l;
      [eapply step_request with (k := 1%nat) (answer := commitsOK "2024-01-05T00:00:00Z"); reflexivity|].
    eapply rtc_l;
      [eapply step_request with (k := 0%nat) (answer := commitsOK "2024-01-02T00:00:00Z"); reflexivity|].
    eapply rtc_l; [apply (step_deliver 1%nat); reflexivity|].
    eapply rtc_l; [apply (step_deliver 0%nat); reflexivity|].
    eapply rtc_l; [apply (step_leave 0%nat); reflexivity|].
    eapply rtc_l; [apply (step_leave 1%nat); reflexivity|].
    apply rtc_refl. }
  destruct (fanout_positional 2 threeHits afterFanOut Hrun) as (Hlen & Hframe & _).
  split; [exact Hrun|]. split; [repeat constructor|].
  split; [reflexivity|]. split; [exact Hlen|exact Hframe].
Defined.

(** * Further properties *)

(** ** Strings as lists of bytes *)

Lemma chars_app s t : chars (s +:+ t) = chars s ++ chars t.
Proof. induction s as [|c s IH]; simpl; [done|]. by rewrite IH. Qed.

Lemma chars_inj s t : chars s = chars t -> s = t.
Proof.
  revert t. induction s as [|c s IH]; intros [|d t] E; simplify_eq/=; [done|].
  f_equal. by apply IH.
Qed.

Lemma chars_length s : length (chars s) = String.length s.
Proof. induction s as [|c s IH]; simpl; [done|]. by rewrite IH. Qed.

Lemma chars_rev_app s t : chars (String.rev_app s t) = rev (chars s) ++ chars t.
Proof.
  revert t. induction s as [|c s IH]; intros t; simpl; [done|].
  rewrite IH. simpl. by rewrite <- app_assoc.
Qed.

Lemma chars_rev s : chars (String.rev s) = rev (chars s).
Proof. unfold String.rev. rewrite chars_rev_app. simpl. apply app_nil_r. Qed.

Lemma str_rev_involutive s : String.rev (String.rev s) = s.
Proof. apply chars_inj. rewrite !chars_rev. apply rev_involutive. Qed.

Lemma str_rev_length s : String.length (String.rev s) = String.length s.
Proof. rewrite <- !chars_length, chars_rev. apply length_rev. Qed.

Lemma str_app_length s t :
  String.length (s +:+ t) = (String.length s + String.length t)%nat.
Proof. rewrite <- !chars_length, chars_app. apply length_app. Qed.

Lemma str_app_assoc s t u : (s +:+ t) +:+ u = s +:+ t +:+ u.
Proof. apply chars_inj. rewrite !chars_app. by rewrite app_assoc. Qed.

Lemma str_app_nil_r s : s +:+ "" = s.
Proof. apply chars_inj. rewrite chars_app. apply app_nil_r. Qed.

Lemma str_take_chars n s : chars (str_take n s) = take n (chars s).
Proof.
  revert s. induction n as [|n IH]; intros [|c s]; simpl; try done.
  by rewrite IH.
Qed.

(** ** Prefixes *)

Lemma stripPrefix_Some p s r : stripPrefix p s = Some r -> s = p +:+ r.
Proof.
  revert s. induction p as [|a p IH]; intros s E; simpl in E.
  - by injection E as ->.
  - destruct s as [|b s]; [discriminate|].
    destruct (ascii_eqb a b) eqn:Hab; [|discriminate].
    apply ascii_eqb_true in Hab as ->. rewrite app_String. f_equal. by apply IH.
Qed.

Lemma stripPrefix_app p r : stripPrefix p (p +:+ r) = Some r.
Proof.
  induction p as [|a p IH]; [done|].
  rewrite app_String. simpl. by rewrite ascii_eqb_refl.
Qed.

Lemma firstPrefix_Some ps s p r :
  firstPrefix ps s = Some (p, r) -> p ∈ ps /\ s = p +:+ r.
Proof.
  induction ps as [|x ps IH]; simpl; [discriminate|].
  destruct (stripPrefix x s) as [r'|] eqn:E.
  - intros [= <- <-]. split; [left|]. by apply stripPrefix_Some.
  - intros [Hin ->]%IH. split; [by right|done].
Qed.

Lemma firstPrefix_None ps s p r :
  firstPrefix ps s = None -> p ∈ ps -> s <> p +:+ r.
Proof.
  induction ps as [|x ps IH]; simpl; [by intros _ ?%elem_of_nil|].
  destruct (stripPrefix x s) as [r'|] eqn:E; [discriminate|].
  intros Hnone [->|Hin]%elem_of_cons.
  - intros ->. by rewrite stripPrefix_app in E.
  - by apply IH.
Qed.

(** ** Trimming *)

Lemma trimLeft_trimWith n s : trimLeft n s = trimWith unicode_spaces n s.
Proof.
  revert s. induction n as [|n IH]; intros s; cbn [trimLeft trimWith]; [done|].
  destruct (firstPrefix unicode_spaces s) as [[p r]|]; [apply IH|done].
Qed.

Lemma trimLeftRev_trimWith n s : trimLeftRev n s = trimWith unicode_spaces_rev n s.
Proof.
  revert s. induction n as [|n IH]; intros s; cbn [trimLeftRev trimWith]; [done|].
  destruct (firstPrefix unicode_spaces_rev s) as [[p r]|]; [apply IH|done].
Qed.

Section Trim.
Context (ps : list string) (Hps : Forall (fun p => p <> "") ps).

Lemma trimWith_suffix n s : exists m, s = m +:+ trimWith ps n s.
Proof.
  revert s. induction n as [|n IH]; intros s; simpl; [by exists ""|].
  destruct (firstPrefix ps s) as [[p r]|] eqn:E; [|by exists ""].
  apply firstPrefix_Some in E as [_ ->]. destruct (IH r) as [m Hm].
  exists (p +:+ m). by rewrite str_app_assoc, <- Hm.
Qed.

Lemma trimWith_done n s :
  (String.length s <= n)%nat ->
  firstPrefix ps (trimWith ps n s) = None \/ trimWith ps n s = "".
Proof.
  revert s. induction n as [|n IH]; intros s Hn; simpl.
  { right. destruct s; [done|simpl in Hn; lia]. }
  destruct (firstPrefix ps s) as [[p r]|] eqn:E; [|by left].
  apply firstPrefix_Some in E as [Hin ->]. apply IH.
  rewrite Forall_forall in Hps. apply Hps in Hin.
  rewrite str_app_length in Hn. destruct p; [done|simpl in Hn; lia].
Qed.

Lemma trimWith_fixed n s :
  firstPrefix ps s = None \/ s = "" -> trimWith ps n s = s.
Proof.
  intros [E| ->]; destruct n; simpl; try done.
  - by rewrite E.
  - destruct (firstPrefix ps "") as [[p r]|] eqn:E; [|done].
    apply firstPrefix_Some in E as [Hin E].
    rewrite Forall_forall in Hps. apply Hps in Hin. by destruct p.
Qed.
End Trim.

Lemma unicode_spaces_nonempty : Forall (fun p => p <> "") unicode_spaces.
Proof. repeat constructor; discriminate. Qed.

Lemma unicode_spaces_rev_nonempty : Forall (fun p => p <> "") unicode_spaces_rev.
Proof. repeat constructor; discriminate. Qed.

Lemma trimLeft_clean s :
  firstPrefix unicode_spaces (trimmedLeft s) = None \/ trimmedLeft s = "".
Proof.
  unfold trimmedLeft. rewrite trimLeft_trimWith.
  apply trimWith_done; [apply unicode_spaces_nonempty|done].
Qed.

Lemma trimLeft_suffix n s : exists m, s = m +:+ trimLeft n s.
Proof. rewrite trimLeft_trimWith. apply trimWith_suffix. Qed.

Lemma trimRight_clean s :
  firstPrefix unicode_spaces_rev (String.rev (trimRight s)) = None
  \/ String.rev (trimRight s) = "".
Proof.
  unfold trimRight. rewrite str_rev_involutive, trimLeftRev_trimWith.
  apply trimWith_done; [apply unicode_spaces_rev_nonempty|].
  by rewrite str_rev_length.
Qed.

Lemma trimRight_prefix s : exists m, s = trimRight s +:+ m.
Proof.
  unfold trimRight. rewrite trimLeftRev_trimWith.
  destruct (trimWith_suffix unicode_spaces_rev (String.length s) (String.rev s))
    as [m Hm].
  exists (String.rev m). apply chars_inj.
  apply (f_equal chars) in Hm. rewrite chars_app, chars_rev in Hm.
  rewrite chars_app, !chars_rev, <- rev_app_distr, <- Hm. by rewrite rev_involutive.
Qed.

Lemma trimRight_fixed s :
  firstPrefix unicode_spaces_rev (String.rev s) = None \/ String.rev s = "" ->
  trimRight s = s.
Proof.
  intros Hs. unfold trimRight. rewrite trimLeftRev_trimWith.
  rewrite trimWith_fixed; [apply str_rev_involutive|apply unicode_spaces_rev_nonempty|done].
Qed.

Lemma trimLeft_fixed n s :
  firstPrefix unicode_spaces s = None \/ s = "" -> trimLeft n s = s.
Proof.
  intros Hs. rewrite trimLeft_trimWith.
  by rewrite trimWith_fixed; [|apply unicode_spaces_nonempty|].
Qed.

Lemma TrimSpace_idempotent s :
  strings_TrimSpace (strings_TrimSpace s) = strings_TrimSpace s.
Proof.
  unfold strings_TrimSpace at 1.
  assert (Hl : forall n, trimLeft n (strings_TrimSpace s) = strings_TrimSpace s).
  { intros n. apply trimLeft_fixed. unfold strings_TrimSpace.
    fold (trimmedLeft s).
    destruct (trimRight_prefix (trimmedLeft s)) as [m Hm].
    destruct (trimLeft_clean s) as [Hc|Hc].
    - destruct (firstPrefix unicode_spaces (trimRight (trimmedLeft s)))
        as [[p r]|] eqn:E; [|by left].
      apply firstPrefix_Some in E as [Hin E]. exfalso.
      eapply (firstPrefix_None _ _ p (r +:+ m) Hc Hin).
      rewrite Hm at 1. rewrite E at 1. apply str_app_assoc.
    - right. destruct (trimRight (trimmedLeft s)) as [|c y]; [done|].
      rewrite Hc, app_String in Hm. discriminate. }
  rewrite Hl. apply trimRight_fixed. unfold strings_TrimSpace. apply trimRight_clean.
Qed.

Lemma sanitizeCodeQuery_trimmed q :
  strings_TrimSpace (sanitizeCodeQuery q) = sanitizeCodeQuery q.
Proof. unfold sanitizeCodeQuery. apply TrimSpace_idempotent. Qed.

(** ** Counting a byte through the string functions *)

Lemma occ_app c s t : occ c (s +:+ t) = (occ c s + occ c t)%nat.
Proof.
  induction s as [|d s IH]; [done|]. rewrite app_String. simpl. rewrite IH. lia.
Qed.

Lemma occ_rev_app c s t : occ c (String.rev_app s t) = (occ c s + occ c t)%nat.
Proof.
  revert t. induction s as [|d s IH]; intros t; simpl; [done|].
  rewrite IH. simpl. lia.
Qed.

Lemma occ_rev c s : occ c (String.rev s) = occ c s.
Proof. unfold String.rev. rewrite occ_rev_app. simpl. lia. Qed.

Lemma occ_flat c l : occ c (flat l) = sum_list (occ c <$> l).
Proof.
  induction l as [|x l IH]; [done|].
  change (flat (x :: l)) with (x +:+ flat l). rewrite occ_app, IH. done.
Qed.

Lemma quiet_app s t : quiet (s +:+ t) = quiet s && quiet t.
Proof.
  induction s as [|d s IH]; [done|]. rewrite app_String. simpl.
  by rewrite IH, andb_assoc.
Qed.

Lemma quiet_occ c s :
  mem_char c operatorChars = true -> quiet s = true -> occ c s = O.
Proof.
  intros Hc. induction s as [|d s IH]; [done|]. cbn [occ quiet].
  intros [Hd Hs]%andb_true_iff. rewrite (IH Hs).
  destruct (ascii_eqb c d) eqn:E; [|done].
  apply ascii_eqb_true in E as <-. by rewrite Hc in Hd.
Qed.

Lemma spaces_quiet : Forall (fun p => quiet p = true) unicode_spaces.
Proof. repeat constructor. Qed.

Lemma operator_offSpace c : mem_char c operatorChars = true -> offSpace c.
Proof.
  intros Hc. unfold offSpace. eapply Forall_impl; [apply spaces_quiet|].
  intros p Hp. by apply quiet_occ.
Qed.

Lemma mem_char_chars x s : mem_char x s = true -> x ∈ chars s.
Proof.
  induction s as [|d s IH]; [discriminate|]. simpl.
  intros [Hx|Hx]%orb_true_iff.
  - apply ascii_eqb_true in Hx as ->. left.
  - right. by apply IH.
Qed.

Lemma chars_mem_char x s : x ∈ chars s -> mem_char x s = true.
Proof.
  induction s as [|d s IH]; simpl; [by intros ?%elem_of_nil|].
  intros [->|Hx]%elem_of_cons.
  - by rewrite ascii_eqb_refl.
  - rewrite (IH Hx). apply orb_true_r.
Qed.

Section OffSpace.
Context (c : ascii) (Hc : offSpace c).

Lemma offSpace_rev : Forall (fun p => occ c p = O) unicode_spaces_rev.
Proof.
  unfold unicode_spaces_rev. apply Forall_fmap.
  eapply Forall_impl; [exact Hc|]. intros p Hp. simpl. by rewrite occ_rev.
Qed.

Lemma occ_trimWith ps n s :
  Forall (fun p => occ c p = O) ps -> occ c (trimWith ps n s) = occ c s.
Proof.
  intros Hps. revert s. induction n as [|n IH]; intros s; simpl; [done|].
  destruct (firstPrefix ps s) as [[p r]|] eqn:E; [|done].
  apply firstPrefix_Some in E as [Hin ->].
  rewrite Forall_forall in Hps.
  rewrite IH, occ_app, (Hps _ Hin). done.
Qed.

Lemma occ_TrimSpace s : occ c (strings_TrimSpace s) = occ c s.
Proof.
  unfold strings_TrimSpace, trimRight.
  rewrite trimLeftRev_trimWith, trimLeft_trimWith.
  rewrite occ_rev, (occ_trimWith _ _ _ offSpace_rev), occ_rev.
  by apply occ_trimWith.
Qed.

(** *** Fields and Join *)

Lemma fieldsFrom_skip m r cur :
  fieldsFrom (String.length m) cur (m +:+ r) = fieldsFrom O cur r.
Proof.
  induction m as [|a m IH]; [done|]. rewrite app_String. simpl. apply IH.
Qed.

Lemma occ_space : occ c " " = O.
Proof.
  unfold offSpace in Hc. rewrite Forall_forall in Hc.
  apply (Hc " "). unfold unicode_spaces. do 5 right. left.
Qed.

Lemma occ_Join l :
  occ c (strings_Join l " ") = sum_list (occ c <$> l).
Proof.
  induction l as [|x [|y l] IH]; [done|simpl; lia|].
  change (strings_Join (x :: y :: l) " ")
    with (x +:+ " " +:+ strings_Join (y :: l) " ").
  rewrite !occ_app, IH, occ_space. simpl. lia.
Qed.

Lemma occ_flush cur : sum_list (occ c <$> flushField cur) = occ c cur.
Proof.
  destruct cur as [|a cur]; [done|].
  unfold flushField. simpl sum_list. rewrite occ_rev. simpl. lia.
Qed.

Lemma occ_fields n s cur :
  (String.length s <= n)%nat ->
  sum_list (occ c <$> fieldsFrom O cur s) = (occ c cur + occ c s)%nat.
Proof.
  revert s cur. induction n as [|n IH]; intros s cur Hn.
  { destruct s; [|simpl in Hn; lia]. simpl. rewrite occ_flush. lia. }
  destruct s as [|ch s]; [simpl; rewrite occ_flush; lia|].
  cbn [fieldsFrom]. unfold spaceWidth.
  destruct (firstPrefix unicode_spaces (String ch s)) as [[p r]|] eqn:E.
  - apply firstPrefix_Some in E as [Hin E].
    pose proof Hc as Hq. unfold offSpace in Hq. rewrite Forall_forall in Hq.
    specialize (Hq _ Hin).
    assert (Hne : p <> "").
    { pose proof unicode_spaces_nonempty as Hn'. rewrite Forall_forall in Hn'.
      by apply Hn'. }
    destruct p as [|a p]; [done|].
    rewrite app_String in E. injection E as -> ->.
    cbn [String.length]. rewrite fieldsFrom_skip, fmap_app, sum_list_with_app.
    rewrite occ_flush, IH.
    + change (String a (p +:+ r)) with (String a p +:+ r).
      rewrite occ_app, Hq. simpl. lia.
    + simpl in Hn. rewrite str_app_length in Hn. lia.
  - rewrite IH by (simpl in Hn; lia). simpl. lia.
Qed.

Lemma occ_Fields_Join s :
  occ c (strings_Join (strings_Fields s) " ") = occ c s.
Proof.
  rewrite occ_Join. unfold strings_Fields.
  rewrite (occ_fields (String.length s)) by done. done.
Qed.
End OffSpace.

(** *** The fork qualifier *)

Lemma reSpace_quiet ch : is_reSpace ch = true -> quiet (str1 ch) = true.
Proof. destruct ch as [[] [] [] [] [] [] [] []]; vm_compute; congruence. Qed.

Lemma skipReSpace_split s :
  exists m, s = m +:+ skipReSpace s /\ quiet m = true.
Proof.
  induction s as [|ch s (m & Hm & Hq)]; simpl; [by exists ""|].
  destruct (is_reSpace ch) eqn:E; [|by exists ""].
  exists (String ch m). split.
  - rewrite app_String. by f_equal.
  - change (String ch m) with (str1 ch +:+ m).
    by rewrite quiet_app, (reSpace_quiet _ E), Hq.
Qed.

Lemma matchFold_Some ch s r :
  matchFold ch s = Some r -> exists t, t ∈ foldOrbit ch /\ s = t +:+ r.
Proof.
  unfold matchFold.
  destruct (firstPrefix (foldOrbit ch) s) as [[p r']|] eqn:E; [|discriminate].
  intros [= <-]. apply firstPrefix_Some in E as [Hin ->]. eauto.
Qed.

Lemma matchWordFold_Some w s r :
  plainWord w -> matchWordFold w s = Some r ->
  exists m, s = m +:+ r /\ quiet m = true /\ (w <> "" -> m <> "").
Proof.
  unfold plainWord. revert s.
  induction w as [|ch w IH]; intros s Hw; simpl.
  - intros [= ->]. by exists "".
  - apply Forall_cons in Hw as [Hch Hw].
    destruct (matchFold ch s) as [r1|] eqn:E; [|discriminate].
    apply matchFold_Some in E as (t & Hin & ->).
    intros (m & -> & Hq & _)%IH; [|done].
    rewrite Forall_forall in Hch. destruct (Hch _ Hin) as [Hqt Hne].
    exists (t +:+ m). split; [by rewrite str_app_assoc|].
    split; [by rewrite quiet_app, Hqt, Hq|].
    intros _. destruct t; [done|]. by rewrite app_String.
Qed.

Lemma plain_fork : plainWord "fork".
Proof. repeat constructor; discriminate. Qed.

Lemma plain_true : plainWord "true".
Proof. repeat constructor; discriminate. Qed.

Lemma plain_false : plainWord "false".
Proof. repeat constructor; discriminate. Qed.

Lemma plain_only : plainWord "only".
Proof. repeat constructor; discriminate. Qed.

Lemma matchAlt_Some w s r :
  plainWord w -> matchAlt w s = Some r ->
  exists m, s = m +:+ r /\ quiet m = true.
Proof.
  intros Hw. unfold matchAlt.
  destruct (matchWordFold w s) as [r'|] eqn:E; [|discriminate].
  destruct (wordBoundary _ _); [|discriminate]. intros [= <-].
  destruct (matchWordFold_Some _ _ _ Hw E) as (m & ? & ? & _). eauto.
Qed.

(** What a match of the qualifier takes: a colon between two sequences of
    bytes that hold no operator character, the first not empty. *)
Lemma forkQual_match_Some prev s r :
  forkQual_match prev s = Some r ->
  exists m1 m2, s = (m1 +:+ ":" +:+ m2) +:+ r /\
    quiet m1 = true /\ quiet m2 = true /\ m1 <> "".
Proof.
  unfold forkQual_match. destruct (wordBoundary prev (strHead s)); [|discriminate].
  destruct (matchWordFold "fork" s) as [r1|] eqn:E1; [|discriminate].
  destruct (matchWordFold_Some _ _ _ plain_fork E1) as (m1 & -> & Hq1 & Hne1).
  destruct (skipReSpace_split r1) as (m2 & Hr1 & Hq2).
  destruct (stripPrefix ":" (skipReSpace r1)) as [r3|] eqn:E3; [|discriminate].
  apply stripPrefix_Some in E3.
  destruct (skipReSpace_split r3) as (m4 & Hr3 & Hq4).
  intros Halt.
  assert (Hm5 : exists m5, skipReSpace r3 = m5 +:+ r /\ quiet m5 = true).
  { unfold orElse in Halt.
    destruct (matchAlt "true" (skipReSpace r3)) as [x|] eqn:Ea.
    { injection Halt as ->. by eapply matchAlt_Some; [apply plain_true|]. }
    destruct (matchAlt "false" (skipReSpace r3)) as [x|] eqn:Eb.
    { injection Halt as ->. by eapply matchAlt_Some; [apply plain_false|]. }
    by eapply matchAlt_Some; [apply plain_only|]. }
  destruct Hm5 as (m5 & Hr4 & Hq5).
  exists (m1 +:+ m2), (m4 +:+ m5). split; [|split; [|split]].
  - rewrite Hr1, E3, Hr3, Hr4 at 1. by rewrite !str_app_assoc.
  - by rewrite quiet_app, Hq1, Hq2.
  - by rewrite quiet_app, Hq4, Hq5.
  - specialize (Hne1 ltac:(discriminate)).
    destruct m1; [done|]. by rewrite app_String.
Qed.

Lemma occ_lenientByte_all b :
  Forall (fun x => occ x (lenientByte b) = if ascii_eqb x b then 1%nat else 0%nat)
         (chars operatorChars).
Proof.
  destruct b as [[] [] [] [] [] [] [] []]; repeat constructor.
Qed.

Section OperatorsFork.
Context (c : ascii) (Hc : mem_char c operatorChars = true).

Lemma occ_match m1 m2 :
  quiet m1 = true -> quiet m2 = true ->
  occ c (m1 +:+ ":" +:+ m2) = colons c 1.
Proof.
  intros H1 H2. rewrite !occ_app, (quiet_occ c _ Hc H1), (quiet_occ c _ Hc H2).
  unfold colons. simpl. destruct (ascii_eqb c ":"); lia.
Qed.

Lemma removeFork_skip m r prev :
  exists prev',
    removeFork (String.length m) prev (m +:+ r) = removeFork O prev' r /\
    countFork (String.length m) prev (m +:+ r) = countFork O prev' r.
Proof.
  revert prev. induction m as [|a m IH]; intros prev; [by exists prev|].
  rewrite app_String. simpl. apply IH.
Qed.

Lemma occ_removeFork n s prev :
  (String.length s <= n)%nat ->
  (occ c (removeFork O prev s) + colons c (countFork O prev s))%nat = occ c s.
Proof.
  revert s prev. induction n as [|n IH]; intros s prev Hn.
  { destruct s; [|simpl in Hn; lia]. unfold colons. simpl.
    by destruct (ascii_eqb c ":"). }
  destruct s as [|ch s].
  { unfold colons. simpl. by destruct (ascii_eqb c ":"). }
  cbn [removeFork countFork].
  destruct (forkQual_match prev (String ch s)) as [r|] eqn:E.
  - apply forkQual_match_Some in E as (m1 & m2 & E & Hq1 & Hq2 & Hne).
    remember (m1 +:+ ":" +:+ m2) as m eqn:Hm.
    assert (Hocc : occ c m = colons c 1) by (subst m; by apply occ_match).
    destruct m as [|a m].
    { destruct m1; [done|]. rewrite app_String in Hm. discriminate. }
    rewrite app_String in E. injection E as -> ->.
    replace (String.length (String a (m +:+ r)) - String.length r - 1)%nat
      with (String.length m)
      by (cbn [String.length]; rewrite str_app_length; lia).
    destruct (removeFork_skip m r (Some a)) as (prev' & -> & ->).
    specialize (IH r prev').
    change (String a (m +:+ r)) with (String a m +:+ r).
    rewrite occ_app, Hocc.
    assert (Hlen : (String.length r <= n)%nat).
    { simpl in Hn. rewrite str_app_length in Hn. lia. }
    specialize (IH Hlen). revert IH. unfold colons.
    destruct (ascii_eqb c ":"); lia.
  - cbn [occ]. specialize (IH s (Some ch)).
    assert (Hlen : (String.length s <= n)%nat) by (simpl in Hn; lia).
    specialize (IH Hlen). lia.
Qed.

Lemma occ_sanitizeCodeQuery q :
  (occ c (sanitizeCodeQuery q) + colons c (forkQualifiers q))%nat = occ c q.
Proof.
  unfold sanitizeCodeQuery, forkQual_ReplaceAllString, forkQualifiers.
  rewrite (occ_TrimSpace c (operator_offSpace c Hc)),
          (occ_Fields_Join c (operator_offSpace c Hc)).
  by apply (occ_removeFork (String.length q)).
Qed.

Lemma occ_lenientByte b :
  occ c (lenientByte b) = if ascii_eqb c b then 1%nat else 0%nat.
Proof.
  pose proof (occ_lenientByte_all b) as Hall. rewrite Forall_forall in Hall.
  by apply Hall, mem_char_chars.
Qed.

Lemma occ_lenientEncode s : occ c (lenientEncode s) = occ c s.
Proof.
  induction s as [|b s IH]; [done|]. simpl.
  by rewrite occ_app, occ_lenientByte, IH.
Qed.
End OperatorsFork.

(** ** The two encodings of a sanitized query *)

Lemma QueryUnescape_escapeByte c rest :
  neturl_QueryUnescape (escapeQueryByte c +:+ rest)
  = String c <$> neturl_QueryUnescape rest.
Proof. destruct c as [[] [] [] [] [] [] [] []]; reflexivity. Qed.

Lemma QueryUnescape_QueryEscape s :
  neturl_QueryUnescape (neturl_QueryEscape s) = Some s.
Proof.
  induction s as [|c s IH]; [done|]. simpl.
  by rewrite QueryUnescape_escapeByte, IH.
Qed.

(** X1.  Trimming twice is trimming once, and what [sanitizeCodeQuery]
    returns is trimmed.  So the trimming inside [urlQueryEscape] and the one
    before the strict [url.QueryEscape] take nothing off a sanitized query:
    the lenient form is the byte-by-byte encoding of all of it, and the
    receiver, unescaping once, reads the sanitized query from the lenient form
    and from the strict form alike. *)
Theorem sanitized_query_is_trimmed (q : string) :
  strings_TrimSpace (strings_TrimSpace q) = strings_TrimSpace q /\
  strings_TrimSpace (sanitizeCodeQuery q) = sanitizeCodeQuery q /\
  urlQueryEscape (sanitizeCodeQuery q) = lenientEncode (sanitizeCodeQuery q) /\
  neturl_QueryUnescape (urlQueryEscape (sanitizeCodeQuery q))
  = Some (sanitizeCodeQuery q) /\
  neturl_QueryUnescape (neturl_QueryEscape (strings_TrimSpace (sanitizeCodeQuery q)))
  = Some (sanitizeCodeQuery q).
Proof.
  split; [apply TrimSpace_idempotent|].
  split; [apply sanitizeCodeQuery_trimmed|].
  split; [|split].
  - by rewrite urlQueryEscape_lenient, sanitizeCodeQuery_trimmed.
  - rewrite urlQueryEscape_lenient, sanitizeCodeQuery_trimmed.
    apply QueryUnescape_lenientEncode.
  - rewrite sanitizeCodeQuery_trimmed. apply QueryUnescape_QueryEscape.
Qed.

(** X2.  An operator character (colon, parentheses, greater-than, less-than,
    equals, comma, slash, pipe) occurs in the encoded sanitized query as many
    times as in the query as written, but for the colon, of which one is
    taken out with each fork qualifier. *)
Theorem operators_survive (q : string) (c : ascii) :
  mem_char c operatorChars = true ->
  (occ c (urlQueryEscape (sanitizeCodeQuery q))
   + (if ascii_eqb c ":" then forkQualifiers q else O))%nat
  = occ c q.
Proof.
  intros Hc. rewrite urlQueryEscape_lenient, sanitizeCodeQuery_trimmed.
  rewrite (occ_lenientEncode c Hc). apply (occ_sanitizeCodeQuery c Hc).
Qed.

Lemma operators_survive_example :
  mem_char ":" operatorChars = true /\
  (occ ":" (urlQueryEscape (sanitizeCodeQuery Scenario.codeQuery))
   + (if ascii_eqb ":" ":" then forkQualifiers Scenario.codeQuery else O))%nat
  = occ ":" Scenario.codeQuery.
Proof.
  split; [reflexivity|]. apply operators_survive. reflexivity.
Defined.

(** *** When the strict retry asks the same *)

Lemma occ_escapeQueryByte_all b :
  Forall (fun x => occ x (escapeQueryByte b) = O) (chars operatorChars).
Proof.
  destruct b as [[] [] [] [] [] [] [] []]; repeat constructor.
Qed.

Lemma occ_QueryEscape c s :
  mem_char c operatorChars = true -> occ c (neturl_QueryEscape s) = O.
Proof.
  intros Hc. induction s as [|b s IH]; [done|]. simpl. rewrite occ_app, IH.
  pose proof (occ_escapeQueryByte_all b) as Hall. rewrite Forall_forall in Hall.
  rewrite (Hall c) by (by apply mem_char_chars). done.
Qed.

Lemma occ_quiet s :
  (forall c, mem_char c operatorChars = true -> occ c s = O) -> quiet s = true.
Proof.
  induction s as [|d s IH]; intros Hs; [done|]. cbn [quiet].
  destruct (mem_char d operatorChars) eqn:Hd.
  - specialize (Hs d Hd). cbn [occ] in Hs. rewrite ascii_eqb_refl in Hs. lia.
  - simpl. apply IH. intros c Hc. specialize (Hs c Hc). cbn [occ] in Hs. lia.
Qed.

Lemma lenientEncode_quiet s :
  quiet s = true -> lenientEncode s = neturl_QueryEscape s.
Proof.
  induction s as [|d s IH]; [done|]. cbn [quiet].
  intros [Hd Hs]%andb_true_iff. simpl. rewrite (IH Hs). f_equal.
  unfold lenientByte. apply negb_true_iff in Hd. by rewrite Hd.
Qed.

Lemma str_app_inv_head p s t : p +:+ s = p +:+ t -> s = t.
Proof.
  intros E. apply chars_inj. apply (f_equal chars) in E.
  rewrite !chars_app in E. by apply app_inv_head in E.
Qed.

Lemma str_app_inv_tail p s t : s +:+ p = t +:+ p -> s = t.
Proof.
  intros E. apply chars_inj. apply (f_equal chars) in E.
  rewrite !chars_app in E. by apply app_inv_tail in E.
Qed.

Lemma codeSearchURL_inj q1 q2 perPage page :
  codeSearchURL q1 perPage page = codeSearchURL q2 perPage page -> q1 = q2.
Proof.
  unfold codeSearchURL. intros E. apply str_app_inv_head in E.
  by apply str_app_inv_tail in E.
Qed.

(** X3.  After a status 422 the strict retry asks for the very URL that was
    just refused exactly when the sanitized query holds no operator
    character; with an operator character in it, the strict URL is another
    one, in which no operator character is left as it is. *)
Theorem strict_retry_same_request (q : string) (perPage page : Z) :
  let rawQ := sanitizeCodeQuery q in
  let url := codeSearchURL (urlQueryEscape rawQ) perPage page in
  let strictQ := neturl_QueryEscape (strings_TrimSpace rawQ) in
  let strictURL := codeSearchURL strictQ perPage page in
  (strictURL = url <-> quiet rawQ = true) /\
  Forall (fun c => occ c strictQ = O) (chars operatorChars).
Proof.
  intros rawQ url strictQ strictURL. subst url strictQ strictURL.
  rewrite urlQueryEscape_lenient.
  unfold rawQ. rewrite sanitizeCodeQuery_trimmed. fold rawQ.
  split; [split|].
  - intros E%codeSearchURL_inj. apply occ_quiet. intros c Hc.
    rewrite <- (occ_lenientEncode c Hc), <- E. by apply occ_QueryEscape.
  - intros Hq. by rewrite lenientEncode_quiet.
  - apply Forall_forall. intros c Hc%chars_mem_char. by apply occ_QueryEscape.
Qed.

(** ** The path of a file in the URL of its commits *)

Lemma QueryUnescape_escapePathByte c rest :
  neturl_QueryUnescape (escapePathByte c +:+ rest)
  = String (if ascii_eqb c "+" then " "%char else c) <$> neturl_QueryUnescape rest.
Proof. destruct c as [[] [] [] [] [] [] [] []]; reflexivity. Qed.

Lemma occ_escapePathByte_amp b :
  occ "&" (escapePathByte b) = if ascii_eqb "&" b then 1%nat else 0%nat.
Proof. destruct b as [[] [] [] [] [] [] [] []]; reflexivity. Qed.

Lemma plusAsSpace_id p : occ "+" p = O -> plusAsSpace p = p.
Proof.
  induction p as [|c p IH]; [done|]. cbn [occ plusAsSpace].
  unfold ascii_eqb at 1 2.
  destruct (decide ("+"%char = c)) as [<-|Hne].
  - rewrite bool_decide_eq_true_2 by done. lia.
  - rewrite bool_decide_eq_false_2 by done.
    rewrite bool_decide_eq_false_2 by congruence.
    intros Hp. f_equal. apply IH. lia.
Qed.

Lemma plusAsSpace_occ p : plusAsSpace p = p -> occ "+" p = O.
Proof.
  induction p as [|c p IH]; [done|]. cbn [occ plusAsSpace].
  intros E. injection E as Ec Ep. rewrite (IH Ep).
  unfold ascii_eqb in *.
  destruct (decide ("+"%char = c)) as [<-|Hne].
  - rewrite bool_decide_eq_true_2 in Ec by done. discriminate.
  - by rewrite bool_decide_eq_false_2.
Qed.

(** X4.  The commit look-up puts the path of the file, escaped as a path
    segment by [url.PathEscape], in the query parameter [path] of its URL.
    Read back as a query parameter, by [url.QueryUnescape], the escaped path
    is the path with every plus sign turned into a space: it is the path
    itself exactly when the path has no plus sign.  And every ampersand of
    the path is left bare in the URL. *)
Theorem path_read_back (p : string) :
  neturl_QueryUnescape (neturl_PathEscape p) = Some (plusAsSpace p) /\
  (neturl_QueryUnescape (neturl_PathEscape p) = Some p <-> occ "+" p = O) /\
  occ "&" (neturl_PathEscape p) = occ "&" p /\
  urlPathEscape p = neturl_PathEscape p.
Proof.
  assert (Hr : neturl_QueryUnescape (neturl_PathEscape p) = Some (plusAsSpace p)).
  { induction p as [|c p IH]; [done|]. simpl.
    by rewrite QueryUnescape_escapePathByte, IH. }
  split; [done|]. split; [|split; [|done]].
  - rewrite Hr. split.
    + intros [= E]. by apply plusAsSpace_occ.
    + intros E. by rewrite plusAsSpace_id.
  - clear Hr. induction p as [|c p IH]; [done|]. simpl.
    by rewrite occ_app, occ_escapePathByte_amp, IH.
Qed.

(** ** [truncate] *)

Lemma ellipsis_length : String.length ellipsis = 3%nat.
Proof. reflexivity. Qed.

Lemma str_take_length n s :
  String.length (str_take n s) = Nat.min n (String.length s).
Proof. rewrite <- !chars_length, str_take_chars. apply length_take. Qed.

Lemma str_take_app n s t :
  n = String.length s -> str_take n (s +:+ t) = s.
Proof.
  intros ->. apply chars_inj. rewrite str_take_chars, chars_app.
  rewrite <- chars_length. by rewrite take_app_length.
Qed.

(** X5.  [truncate(s, n)] is [s] when [s] has at most [n] bytes, and
    otherwise the first [n] bytes of [s] followed by the three bytes of the
    ellipsis: it never has more than [n + 3] bytes, it has exactly [n + 3]
    when [s] has more than [n], it always starts with the first [n] bytes of
    [s] (bytes, so that a character of several bytes can be cut), and
    truncating again changes nothing. *)
Theorem truncate_bounded (s : string) (n : nat) :
  (String.length (truncate s n) <= n + 3)%nat /\
  ((n < String.length s)%nat -> String.length (truncate s n) = (n + 3)%nat) /\
  str_take n (truncate s n) = str_take n s /\
  truncate (truncate s n) n = truncate s n.
Proof.
  destruct (String.length s <=? n)%nat eqn:E.
  - assert (Ht : truncate s n = s) by (unfold truncate; by rewrite E).
    rewrite !Ht. apply Nat.leb_le in E. split; [lia|]. split; [lia|]. done.
  - assert (Ht : truncate s n = str_take n s +:+ ellipsis)
      by (unfold truncate; by rewrite E).
    apply Nat.leb_gt in E.
    assert (Hl : String.length (str_take n s) = n).
    { rewrite str_take_length. lia. }
    assert (Hlen : String.length (truncate s n) = (n + 3)%nat).
    { by rewrite Ht, str_app_length, Hl, ellipsis_length. }
    split; [lia|]. split; [done|]. split.
    + by rewrite Ht, str_take_app.
    + assert (E2 : (String.length (truncate s n) <=? n)%nat = false).
      { apply Nat.leb_gt. lia. }
      unfold truncate at 1. rewrite E2. rewrite Ht at 1.
      by rewrite str_take_app.
Qed.

Lemma truncate_bounded_example :
  (3 < String.length "status")%nat /\
  String.length (truncate "status" 3) = (3 + 3)%nat.
Proof.
  split; [vm_compute; lia|].
  apply (truncate_bounded "status" 3). vm_compute. lia.
Defined.

(** ** [dedupeCode] and [dedupeRepo] on their own *)

Section DedupeAlone.
Context {A : Type} (key : A -> string).

Lemma firstOccurrences_fixed l :
  NoDup (key <$> l) -> firstOccurrences key l = l.
Proof.
  induction l as [|h l IH]; [done|]. rewrite fmap_cons, NoDup_cons.
  intros [Hh Hl]. simpl. rewrite (IH Hl). f_equal.
  clear IH Hl. induction l as [|x l IH]; [done|].
  rewrite fmap_cons, not_elem_of_cons in Hh. destruct Hh as [Hx Hh].
  rewrite filter_cons_True by congruence. f_equal. by apply IH.
Qed.

Lemma dedupeBy_alone l :
  dedupeBy key l `sublist_of` l /\
  NoDup (key <$> dedupeBy key l) /\
  (forall h, h ∈ l -> exists h', h' ∈ dedupeBy key l /\ key h' = key h) /\
  dedupeBy key (dedupeBy key l) = dedupeBy key l /\
  (NoDup (key <$> l) -> dedupeBy key l = l).
Proof.
  rewrite !dedupeBy_firstOccurrences.
  split; [apply firstOccurrences_sublist|].
  split; [apply firstOccurrences_NoDup|].
  split; [|split].
  - intros h Hh.
    assert (Hk : key h ∈ key <$> firstOccurrences key l).
    { apply firstOccurrences_keys, list_elem_of_fmap. eauto. }
    apply list_elem_of_fmap in Hk as (h' & Hk & Hin). eauto.
  - apply firstOccurrences_fixed, firstOccurrences_NoDup.
  - apply firstOccurrences_fixed.
Qed.
End DedupeAlone.

(** X6.  [dedupeCode] returns some of the hits of its input, in their order:
    no two with the same key, one for every key of the input; it returns an
    input without two hits of the same key as it is, and so removing the
    duplicates twice is removing them once.  Likewise [dedupeRepo], by the
    full name. *)
Theorem dedupe_alone (code : list CodeHit.t) (repo : list RepoHit.t) :
  (dedupeCode code `sublist_of` code /\
   NoDup (codeKey <$> dedupeCode code) /\
   (forall h, h ∈ code ->
      exists h', h' ∈ dedupeCode code /\ codeKey h' = codeKey h) /\
   dedupeCode (dedupeCode code) = dedupeCode code /\
   (NoDup (codeKey <$> code) -> dedupeCode code = code)) /\
  (dedupeRepo repo `sublist_of` repo /\
   NoDup (RepoHit.FullName <$> dedupeRepo repo) /\
   (forall h, h ∈ repo ->
      exists h', h' ∈ dedupeRepo repo /\ RepoHit.FullName h' = RepoHit.FullName h) /\
   dedupeRepo (dedupeRepo repo) = dedupeRepo repo /\
   (NoDup (RepoHit.FullName <$> repo) -> dedupeRepo repo = repo)).
Proof.
  split.
  - apply (dedupeBy_alone codeKey).
  - apply (dedupeBy_alone repoKey).
Qed.

Lemma dedupe_alone_example :
  NoDup (codeKey <$> Scenario.threeHits) /\
  dedupeCode Scenario.threeHits = Scenario.threeHits.
Proof.
  assert (Hk : NoDup (codeKey <$> Scenario.threeHits)).
  { refine (bool_decide_unpack _ _). vm_compute. exact I. }
  split; [exact Hk|].
  exact (proj2 (proj2 (proj2 (proj2 (proj1 (dedupe_alone Scenario.threeHits [])))))
           Hk).
Defined.

(** ** The settings that [handleSaveSettings] stores *)

Lemma within_or_default lo hi def x :
  (if (x <? lo) || (hi <? x) then def else x)
  = if bool_decide (lo <= x <= hi) then x else def.
Proof.
  case_bool_decide; destruct (Z.ltb_spec x lo), (Z.ltb_spec hi x); simpl; lia.
Qed.

Lemma settings_pages i : 1 <= MaxPages (enforceBounds i) <= 10.
Proof.
  unfold enforceBounds, maxPagesDefault. simpl. rewrite within_or_default.
  case_bool_decide; lia.
Qed.

(** X7.  Whatever settings are sent, the settings stored have the days back
    between 1 and 365, the pages per search between 1 and 10, the items per
    page between 10 and 100 and a model name; a value sent within its bounds
    is stored as sent, one out of bounds as the default (7 days, 2 pages, 50
    items, [gpt-5]); the switches and the name of the file of queries are
    stored as sent.  Storing what was stored changes nothing, and the
    settings the server starts with are within the bounds. *)
Theorem settings_within_bounds (i : AppSettings) :
  let s := enforceBounds i in
  (1 <= DaysBack s <= 365 /\ 1 <= MaxPages s <= 10 /\ 10 <= PerPage s <= 100 /\
   OpenAIModel s <> "") /\
  (DaysBack s = if bool_decide (1 <= DaysBack i <= 365) then DaysBack i else 7) /\
  (MaxPages s = if bool_decide (1 <= MaxPages i <= 10) then MaxPages i else 2) /\
  (PerPage s = if bool_decide (10 <= PerPage i <= 100) then PerPage i else 50) /\
  (OpenAIModel s = if bool_decide (OpenAIModel i = "") then "gpt-5" else OpenAIModel i) /\
  (UseCommitCheck s = UseCommitCheck i /\
   IncludeRepoSearch s = IncludeRepoSearch i /\
   QueriesFile s = QueriesFile i) /\
  enforceBounds s = s /\
  enforceBounds defaultSettings = defaultSettings.
Proof.
  intros s. subst s. destruct i as [d m p pp cc rs qf]. unfold enforceBounds. simpl.
  unfold defaultDaysBack, maxPagesDefault, perPageDefault, defaultModel.
  rewrite !within_or_default.
  split; [|split; [done|split; [done|split; [done|split; [done|split; [done|split]]]]]].
  - repeat case_bool_decide; repeat split; try lia; congruence.
  - f_equal.
    + destruct (bool_decide (1 <= d <= 365)) eqn:E; [by rewrite E|done].
    + repeat case_bool_decide; congruence.
    + destruct (bool_decide (1 <= p <= 10)) eqn:E; [by rewrite E|done].
    + destruct (bool_decide (10 <= pp <= 100)) eqn:E; [by rewrite E|done].
  - reflexivity.
Qed.

(** ** The budget of a run *)

Lemma countSearches_count total qs :
  0 <= total ->
  total + Z.of_nat (length (filter (fun q => SearchQuery.Enabled q = true) qs))
    <= maxInt64 ->
  countSearches total qs
  = total + Z.of_nat (length (filter (fun q => SearchQuery.Enabled q = true) qs)).
Proof.
  unfold countSearches. revert total.
  induction qs as [|q qs IH]; intros total Hpos Hmax; simpl; [lia|].
  rewrite filter_cons in *. destruct (SearchQuery.Enabled q) eqn:E.
  - rewrite decide_True in * by done. simpl in Hmax.
    unfold add64 at 2. rewrite wrap64_small by (unfold minInt64, maxInt64 in *; lia).
    rewrite IH by lia. simpl length. lia.
  - rewrite decide_False in * by done. by apply IH.
Qed.

Lemma enabledSearches_cons g gs :
  enabledSearches {| Groups := g :: gs |}
  = (if SearchGroup.Enabled g
     then (fun q => (g, q)) <$>
            filter (fun q => SearchQuery.Enabled q = true) (SearchGroup.Searches g)
     else []) ++ enabledSearches {| Groups := gs |}.
Proof.
  unfold enabledSearches. simpl. rewrite filter_cons.
  destruct (SearchGroup.Enabled g) eqn:E.
  - by rewrite decide_True by done.
  - by rewrite decide_False by done.
Qed.

Lemma totalSearches_count spec :
  Z.of_nat (length (enabledSearches spec)) <= maxInt64 ->
  totalSearches spec = Z.of_nat (length (enabledSearches spec)).
Proof.
  destruct spec as [gs]. unfold totalSearches. simpl Groups.
  cut (forall total, 0 <= total ->
         total + Z.of_nat (length (enabledSearches {| Groups := gs |})) <= maxInt64 ->
         foldl (fun n g =>
                  if negb (SearchGroup.Enabled g) then n
                  else countSearches n (SearchGroup.Searches g)) total gs
         = total + Z.of_nat (length (enabledSearches {| Groups := gs |}))).
  { intros Hcut Hmax. rewrite Hcut; lia. }
  induction gs as [|g gs IH]; intros total Hpos Hmax.
  { simpl. unfold enabledSearches. simpl. lia. }
  rewrite enabledSearches_cons, length_app in *. simpl foldl.
  destruct (SearchGroup.Enabled g); simpl negb; cbv iota.
  - rewrite length_fmap in *.
    rewrite countSearches_count by lia. rewrite IH by lia. lia.
  - simpl in *. by apply IH.
Qed.

(** X8.  The time [handleRunReport] gives to the search phase is at least 4
    minutes and at most 10 minutes, whatever the settings and the queries,
    also when the computation of the product overflows. *)
Theorem budget_bounds (cfg : AppSettings) (spec : QueriesSpec) :
  4 * Minute <= budget cfg spec <= 10 * Minute.
Proof.
  unfold budget.
  set (b := add64 _ _).
  change (mul64 4 Minute) with 240000000000.
  change (mul64 10 Minute) with 600000000000.
  change (4 * Minute) with 240000000000.
  change (10 * Minute) with 600000000000.
  destruct (Z.ltb_spec b 240000000000).
  - change (600000000000 <? 240000000000) with false. cbv iota. lia.
  - destruct (Z.ltb_spec 600000000000 b); lia.
Qed.

(** X9.  With [n] enabled searches in enabled groups and [m] the pages per
    search, at least 1, the budget is 12 seconds for each of the [n * m]
    pages and 60 seconds, raised to 4 minutes and cut at 10 minutes (as long
    as [n * m] is below 768614332, from where on the duration in nanoseconds
    overflows): 4 minutes up to 15 pages, 10 minutes from 45 pages on. *)
Theorem budget_value (cfg : AppSettings) (spec : QueriesSpec) :
  let n := Z.of_nat (length (enabledSearches spec)) in
  let m := Go.max 1 (MaxPages cfg) in
  n * m <= 768614331 ->
  totalSearches spec = n /\
  1 <= m /\
  budget cfg spec
  = Z.max (4 * Minute) (Z.min (10 * Minute) (n * m * (12 * Second) + 60 * Second)) /\
  (n * m <= 15 -> budget cfg spec = 4 * Minute) /\
  (45 <= n * m -> budget cfg spec = 10 * Minute).
Proof.
  intros n m Hnm.
  assert (Hm : 1 <= m).
  { subst m. unfold Go.max. destruct (Z.ltb_spec (MaxPages cfg) 1); lia. }
  assert (Hn : 0 <= n) by (subst n; lia).
  assert (Hn' : n <= n * m) by nia.
  assert (Ht : totalSearches spec = n).
  { apply totalSearches_count. fold n. unfold maxInt64. lia. }
  assert (Hb : budget cfg spec
    = Z.max (4 * Minute) (Z.min (10 * Minute) (n * m * (12 * Second) + 60 * Second))).
  { unfold budget. rewrite Ht. fold m.
    change (mul64 4 Minute) with 240000000000.
    change (mul64 10 Minute) with 600000000000.
    change (4 * Minute) with 240000000000.
    change (10 * Minute) with 600000000000.
    change perReq with 12000000000.
    change (mul64 60 Second) with 60000000000.
    change (12 * Second) with 12000000000.
    change (60 * Second) with 60000000000.
    unfold add64, mul64.
    assert (Hk : 0 <= n * m) by nia.
    generalize dependent (n * m). intros k Hnm _ Hk.
    rewrite (wrap64_small k) by (unfold minInt64, maxInt64; lia).
    rewrite (wrap64_small (k * _)) by (unfold minInt64, maxInt64; lia).
    rewrite wrap64_small by (unfold minInt64, maxInt64; lia).
    set (b := k * 12000000000 + 60000000000).
    destruct (Z.ltb_spec b 240000000000).
    - change (600000000000 <? 240000000000) with false. cbv iota. lia.
    - destruct (Z.ltb_spec 600000000000 b); lia. }
  split; [done|]. split; [done|]. split; [done|].
  rewrite Hb.
  change (4 * Minute) with 240000000000.
  change (10 * Minute) with 600000000000.
  change (12 * Second) with 12000000000.
  change (60 * Second) with 60000000000.
  split; intros; lia.
Qed.

Lemma budget_value_example :
  let n := Z.of_nat (length (enabledSearches Scenario.twoSearches)) in
  let m := Go.max 1 (MaxPages (Scenario.settings false)) in
  n * m <= 768614331 /\
  budget (Scenario.settings false) Scenario.twoSearches
  = Z.max (4 * Minute) (Z.min (10 * Minute) (n * m * (12 * Second) + 60 * Second)).
Proof.
  assert (H : Z.of_nat (length (enabledSearches Scenario.twoSearches))
              * Go.max 1 (MaxPages (Scenario.settings false)) <= 768614331).
  { vm_compute. discriminate. }
  split; [exact H|].
  exact (proj1 (proj2 (proj2
           (budget_value (Scenario.settings false) Scenario.twoSearches H)))).
Defined.

(** ** The pauses of [throttleFrom] *)

Lemma jitter_bound x : -2000000000 < Z.rem x 2000000000 < 2000000000.
Proof.
  pose proof (Z.rem_bound_abs x 2000000000 ltac:(lia)) as Hb. lia.
Qed.

Lemma jitter_bound_pos x : 0 <= x -> 0 <= Z.rem x 2000000000 < 2000000000.
Proof. intros Hx. apply Z.rem_bound_pos; lia. Qed.

(** X10.  When no header Retry-After decides, the pause of [throttleFrom]
    after an answer of the search resource is longer than half a second and
    at most 2 minutes and half a second; after an answer of another resource
    it is at most 5 minutes and half a second, and longer than half a second
    when the Unix time of the clock, in nanoseconds, is not negative.  When
    moreover the status is not 403 and more than 2 requests remain, the pause
    is the base wait, 12 seconds for the search resource and 1.5 seconds
    otherwise, with a jitter of less than 2 seconds, which is not negative
    when the Unix time of the clock is not. *)
Theorem throttle_bounds (now : Time) (resp : Response) :
  let search :=
    bool_decide (strings_ToLower (Header_Get (Header resp) "X-RateLimit-Resource")
                 = "search") in
  let base := if search then 12 * Second else 1500 * Millisecond in
  let d := throttleFrom now resp in
  retryAfter resp = None ->
  (search = true -> 500 * Millisecond < d <= 2 * Minute + 500 * Millisecond) /\
  (search = false ->
     - (500 * Millisecond) < d <= 5 * Minute + 500 * Millisecond /\
     (0 <= UnixNano now -> 500 * Millisecond < d)) /\
  (StatusCode resp <> 403 ->
   2 < fst (strconv_Atoi (Header_Get (Header resp) "X-RateLimit-Remaining")) ->
   base - 2 * Second < d < base + 2 * Second /\
   (0 <= UnixNano now -> base <= d)).
Proof.
  intros search base d Hnone. subst d base. unfold throttleFrom. rewrite Hnone.
  fold search.
  change (mul64 12 Second) with 12000000000.
  change (mul64 1500 Millisecond) with 1500000000.
  change (mul64 90 Second) with 90000000000.
  change (mul64 30 Second) with 30000000000.
  change (mul64 5 Minute) with 300000000000.
  change (mul64 2 Minute) with 120000000000.
  change (mul64 500 Millisecond) with 500000000.
  change (mul64 2000 Millisecond) with 2000000000.
  change (500 * Millisecond) with 500000000.
  change (2 * Minute) with 120000000000.
  change (5 * Minute) with 300000000000.
  change (12 * Second) with 12000000000.
  change (1500 * Millisecond) with 1500000000.
  change (2 * Second) with 2000000000.
  set (rem := fst (strconv_Atoi _)).
  pose proof (jitter_bound (UnixNano now)) as Hj.
  assert (Hjp : 0 <= UnixNano now -> 0 <= Z.rem (UnixNano now) 2000000000)
    by (intros Hp; by apply jitter_bound_pos).
  set (j := Z.rem (UnixNano now) 2000000000) in *. clearbody j.
  assert (Hpace : add64 (if search then 12000000000 else 1500000000) j
                  = (if search then 12000000000 else 1500000000) + j).
  { apply wrap64_small. unfold minInt64, maxInt64. destruct search; lia. }
  rewrite Hpace. clear Hpace.
  match goal with
  | |- context [if (StatusCode resp =? 403) || (rem <=? 2) then ?X else _] =>
      set (D := X)
  end.
  assert (Hlimited :
    500000000 < D <= (if search then 120000000000 else 300000000000) + 500000000).
  { subst D.
    destruct (strconv_ParseInt _) as [resetUnix [|]]; [|destruct search; simpl; lia].
    set (w := time_Until now (time_Unix resetUnix)). clearbody w.
    destruct (Z.ltb_spec 0 w); [|destruct search; simpl; lia].
    unfold add64. destruct search; simpl negb; cbv iota.
    - destruct (Z.ltb_spec 120000000000 w);
        rewrite wrap64_small by (unfold minInt64, maxInt64; lia); lia.
    - destruct (Z.ltb_spec 300000000000 w);
        rewrite wrap64_small by (unfold minInt64, maxInt64; lia); lia. }
  clearbody D.
  destruct ((StatusCode resp =? 403) || (rem <=? 2)) eqn:Hlim.
  - split; [|split].
    + intros Hs. rewrite Hs in Hlimited. lia.
    + intros Hs. rewrite Hs in Hlimited. split; [lia|intros _; lia].
    + intros Hst Hrem. exfalso.
      apply orb_true_iff in Hlim as [E%Z.eqb_eq|E%Z.leb_le]; [done|lia].
  - split; [|split].
    + intros Hs. rewrite Hs. lia.
    + intros Hs. rewrite Hs. split; [lia|]. intros Hp. specialize (Hjp Hp). lia.
    + intros _ _. split; [destruct search; lia|].
      intros Hp. specialize (Hjp Hp). lia.
Qed.

Lemma throttle_bounds_example :
  let resp := {| StatusCode := 200;
                 Header := {[ "X-RateLimit-Resource" := "Search";
                              "X-RateLimit-Remaining" := "7" ]};
                 Body := "" |} in
  let now := unixToInternal * Second + 2500000000 in
  retryAfter resp = None /\
  500 * Millisecond < throttleFrom now resp <= 2 * Minute + 500 * Millisecond.
Proof.
  intros resp now.
  assert (Hnone : retryAfter resp = None) by (vm_compute; reflexivity).
  split; [exact Hnone|].
  apply (proj1 (throttle_bounds now resp Hnone)). vm_compute. reflexivity.
Defined.

(** ** The log of debug events *)

Lemma eventsOf_insert (runs : Runs) runID l :
  eventsOf (<[runID := l]> runs) runID = l.
Proof. unfold eventsOf. by rewrite lookup_insert_eq. Qed.

Section DebugLog.
Context `{GoLib}.

Lemma emitFunc_events runID now runs ev :
  eventsOf (emitFunc runID now runs ev) runID
  = drop (length (eventsOf runs runID) + 1 - 1000)
         (eventsOf runs runID
            ++ [DebugEvent.stamp (time_Format RFC3339 now) runID ev]).
Proof.
  unfold emitFunc. rewrite !eventsOf_insert.
  set (l := eventsOf runs runID ++ _).
  assert (Hl : length l = (length (eventsOf runs runID) + 1)%nat).
  { subst l. rewrite length_app. simpl length. lia. }
  rewrite <- Hl.
  destruct (1000 <? length l)%nat eqn:E.
  - by rewrite eventsOf_insert.
  - apply Nat.ltb_ge in E. rewrite eventsOf_insert.
    replace (length l - 1000)%nat with O by lia. done.
Qed.

Lemma emitFunc_other runID now (runs : Runs) ev other :
  other <> runID -> emitFunc runID now runs ev !! other = runs !! other.
Proof.
  intros Hne. unfold emitFunc.
  destruct (1000 <? _)%nat; by rewrite ?lookup_insert_ne.
Qed.

Lemma emitAll_other runID (runs : Runs) evs other :
  other <> runID -> emitAll runID runs evs !! other = runs !! other.
Proof.
  intros Hne. unfold emitAll. revert runs.
  induction evs as [|e evs IH]; intros runs; simpl; [done|].
  rewrite IH. by apply emitFunc_other.
Qed.
End DebugLog.

Lemma drop_take_app {A} (c k : nat) (X Y : list A) :
  (c <= length X)%nat -> drop (c + k) (X ++ Y) = drop k (drop c X ++ Y).
Proof.
  intros Hc. rewrite <- (take_drop c X) at 1. rewrite <- app_assoc.
  rewrite drop_app_ge by (rewrite length_take; lia).
  rewrite length_take. f_equal. lia.
Qed.

(** X11.  An event that a run emits is stamped with the clock and the run,
    and appended to the events of the run, of which the last 1000 are kept:
    afterwards the run has at most 1000 events, the last of them is the new
    one, and the events of the other runs are as before.  [handleDebug] then
    shows these events for the run, asked for by its id or, when it is the
    last run, by the word [last] or by no parameter. *)
Theorem emit_keeps_last_1000 `{GoLib} (runID : string) (now : Time) (runs : Runs)
    (ev : DebugEvent.t) :
  let ev' := DebugEvent.stamp (time_Format RFC3339 now) runID ev in
  let runs' := emitFunc runID now runs ev in
  let log := eventsOf runs' runID in
  log = drop (length (eventsOf runs runID) + 1 - 1000) (eventsOf runs runID ++ [ev']) /\
  (length log <= 1000)%nat /\
  (length log = Nat.min 1000 (length (eventsOf runs runID) + 1))%nat /\
  last log = Some ev' /\
  (forall other, other <> runID -> runs' !! other = runs !! other) /\
  handleDebug runID runs' runID = (runID, log) /\
  handleDebug runID runs' "last" = (runID, log) /\
  handleDebug runID runs' "" = (runID, log).
Proof.
  intros ev' runs' log.
  assert (Hlog : log = drop (length (eventsOf runs runID) + 1 - 1000)
                            (eventsOf runs runID ++ [ev'])).
  { apply emitFunc_events. }
  assert (Hlen : length log = Nat.min 1000 (length (eventsOf runs runID) + 1)).
  { rewrite Hlog, length_drop, length_app. simpl length. lia. }
  split; [done|]. split; [lia|]. split; [done|]. split; [|split; [|split; [|split]]].
  - rewrite Hlog. set (l := eventsOf runs runID).
    rewrite drop_app_le by lia. by rewrite last_snoc.
  - intros other Hne. by apply emitFunc_other.
  - unfold handleDebug. fold log.
    by destruct (bool_decide (runID = "") || bool_decide (runID = "last")).
  - done.
  - done.
Qed.

(** X12.  A run that emits events one after the other, into a log that held
    at most 1000 events of it, leaves in the log the last 1000 of the events
    it held and the events emitted, stamped, in the order of emission; the
    events of the other runs are as before. *)
Theorem emit_sequence `{GoLib} (runID : string) (runs : Runs)
    (evs : list (Time * DebugEvent.t)) :
  let all :=
    eventsOf runs runID
      ++ ((fun e => DebugEvent.stamp (time_Format RFC3339 e.1) runID e.2) <$> evs) in
  (length (eventsOf runs runID) <= 1000)%nat ->
  eventsOf (emitAll runID runs evs) runID = drop (length all - 1000) all /\
  (forall other, other <> runID -> emitAll runID runs evs !! other = runs !! other).
Proof.
  intros all Hlen. split; [|intros other Hne; by apply emitAll_other].
  subst all. revert runs Hlen.
  induction evs as [|e evs IH]; intros runs Hlen.
  { simpl. rewrite app_nil_r. replace (_ - 1000)%nat with O by lia. done. }
  change (emitAll runID runs (e :: evs))
    with (emitAll runID (emitFunc runID e.1 runs e.2) evs).
  pose proof (emitFunc_events runID e.1 runs e.2) as Hstep.
  set (l0 := eventsOf runs runID) in *.
  set (e' := DebugEvent.stamp (time_Format RFC3339 e.1) runID e.2) in *.
  set (l1 := eventsOf (emitFunc runID e.1 runs e.2) runID) in *.
  set (S' := (fun e => DebugEvent.stamp (time_Format RFC3339 e.1) runID e.2) <$> evs).
  assert (Hl1 : (length l1 <= 1000)%nat).
  { rewrite Hstep, length_drop, length_app. simpl length. lia. }
  rewrite (IH _ Hl1). fold l1. fold S'.
  rewrite fmap_cons. fold S'. fold e'.
  replace (l0 ++ e' :: S') with ((l0 ++ [e']) ++ S') by (by rewrite <- app_assoc).
  set (c := (length l0 + 1 - 1000)%nat) in *.
  assert (Hc : (c <= length (l0 ++ [e']))%nat).
  { rewrite length_app. simpl length. lia. }
  assert (Hlen1 : length l1 = (length (l0 ++ [e']) - c)%nat).
  { by rewrite Hstep, length_drop. }
  replace (length ((l0 ++ [e']) ++ S') - 1000)%nat
    with (c + (length (l1 ++ S') - 1000))%nat.
  - rewrite (drop_take_app c _ (l0 ++ [e']) S' Hc). by rewrite <- Hstep.
  - rewrite !length_app in *. simpl length in *. lia.
Qed.

(** The run [r1], whose log holds 999 events, emits three more: the two
    oldest events are dropped, the 997 that follow are kept in their order,
    the three new ones come last, stamped and in the order of emission, and
    the event of the run [r0] is as before. *)
Lemma emit_sequence_example :
  (length (eventsOf busyLog "r1") <= 1000)%nat /\
  eventsOf (emitAll "r1" busyLog threeEvents) "r1"
  = drop 2 (eventsOf busyLog "r1")
    ++ [ DebugEvent.stamp "2024-01-08T00:00:00Z" "r1" (eventAt "search-code" 1000);
         DebugEvent.stamp "2024-01-08T00:00:01Z" "r1" (eventAt "search-code-ok" 1000);
         DebugEvent.stamp "2024-01-08T00:00:02Z" "r1" (eventAt "done" 0) ] /\
  length (eventsOf (emitAll "r1" busyLog threeEvents) "r1") = 1000%nat /\
  head (eventsOf (emitAll "r1" busyLog threeEvents) "r1")
  = Some (DebugEvent.stamp "2024-01-07T23:00:00Z" "r1" (eventAt "search-code" 3)) /\
  emitAll "r1" busyLog threeEvents !! "r0" = busyLog !! "r0" /\
  eventsOf (emitAll "r1" busyLog threeEvents) "r0"
  = [ DebugEvent.stamp "2024-01-07T22:00:00Z" "r0" (eventAt "done" 0) ].
Proof.
  assert (Hlen : (length (eventsOf busyLog "r1") <= 1000)%nat).
  { vm_compute. lia. }
  destruct (emit_sequence "r1" busyLog threeEvents Hlen) as [Hlog Hother].
  assert (Hr0 : emitAll "r1" busyLog threeEvents !! "r0" = busyLog !! "r0").
  { apply Hother. discriminate. }
  split; [exact Hlen|].
  split; [rewrite Hlog; vm_compute; reflexivity|].
  split; [rewrite Hlog; vm_compute; reflexivity|].
  split; [rewrite Hlog; vm_compute; reflexivity|].
  split; [exact Hr0|].
  unfold eventsOf. rewrite Hr0. reflexivity.
Defined.

(** ** The fallback report *)

Lemma flat_app l1 l2 : flat (l1 ++ l2) = flat l1 +:+ flat l2.
Proof.
  induction l1 as [|x l1 IH]; simpl; [by rewrite app_empty_l|].
  change (flat (x :: l1 ++ l2)) with (x +:+ flat (l1 ++ l2)).
  change (flat (x :: l1)) with (x +:+ flat l1).
  by rewrite IH, str_app_assoc.
Qed.

Lemma flat_snoc l x : flat (l ++ [x]) = flat l +:+ x.
Proof.
  rewrite flat_app. f_equal. change (flat [x]) with (x +:+ ""). apply str_app_nil_r.
Qed.

Lemma topCodeHits_lines hits todo i b :
  topCodeHits hits i todo b = b +:+ flat (codeLine <$> take todo (drop i hits)).
Proof.
  revert i b. induction todo as [|todo IH]; intros i b.
  { simpl. by rewrite str_app_nil_r. }
  cbn [topCodeHits]. destruct (hits !! i) as [h|] eqn:E.
  - rewrite IH. rewrite (drop_S _ _ _ E). cbn [take fmap list_fmap].
    change (flat (codeLine h :: ?l)) with (codeLine h +:+ flat l).
    unfold WriteString, codeLine. by rewrite !str_app_assoc.
  - apply lookup_ge_None in E. rewrite drop_ge by done.
    rewrite take_nil. simpl. by rewrite str_app_nil_r.
Qed.

Lemma topRepos_lines hits todo i b :
  topRepos hits i todo b = b +:+ flat (repoLine <$> take todo (drop i hits)).
Proof.
  revert i b. induction todo as [|todo IH]; intros i b.
  { simpl. by rewrite str_app_nil_r. }
  cbn [topRepos]. destruct (hits !! i) as [h|] eqn:E.
  - rewrite IH. rewrite (drop_S _ _ _ E). cbn [take fmap list_fmap].
    change (flat (repoLine h :: ?l)) with (repoLine h +:+ flat l).
    unfold WriteString, repoLine. by rewrite !str_app_assoc.
  - apply lookup_ge_None in E. rewrite drop_ge by done.
    rewrite take_nil. simpl. by rewrite str_app_nil_r.
Qed.

Lemma notes_lines ns b :
  foldl (fun b n =>
           let b := WriteString b "- " in
           let b := WriteString b n in
           WriteString b nl) b ns
  = b +:+ flat (noteLine <$> ns).
Proof.
  revert b. induction ns as [|n ns IH]; intros b; simpl.
  { by rewrite str_app_nil_r. }
  rewrite IH. change (flat (noteLine n :: ?l)) with (noteLine n +:+ flat l).
  unfold WriteString, noteLine. by rewrite !str_app_assoc.
Qed.

Lemma top_count {A} (l : list A) :
  Z.to_nat (Go.min 10 (Z.of_nat (length l))) = Nat.min 10 (length l).
Proof. unfold Go.min. destruct (Z.ltb_spec 10 (Z.of_nat (length l))); lia. Qed.

Lemma top_some {A} (l : list A) :
  (0 <? Go.min 10 (Z.of_nat (length l))) = negb (bool_decide (l = [])).
Proof.
  unfold Go.min. destruct l as [|x l]; [done|].
  rewrite bool_decide_eq_false_2 by done. simpl length.
  destruct (Z.ltb_spec 10 (Z.of_nat (S (length l)))); [done|].
  apply Z.ltb_lt. lia.
Qed.

Lemma titled_top {A} (line : A -> string) title b (l : list A) :
  (if negb (bool_decide (l = []))
   then WriteString (WriteString (WriteString b (title +:+ nl))
                       (flat (line <$> take (Nat.min 10 (length l)) l))) nl
   else b)
  = b +:+ titled title (line <$> take 10 l).
Proof.
  destruct l as [|x l].
  { simpl. by rewrite str_app_nil_r. }
  rewrite bool_decide_eq_false_2 by done. cbn [negb].
  replace (take (Nat.min 10 (length (x :: l))) (x :: l)) with (take 10 (x :: l)).
  - unfold titled, WriteString. cbn [take fmap list_fmap].
    by rewrite !str_app_assoc.
  - destruct (Nat.le_ge_cases 10 (length (x :: l))) as [Hle|Hge].
    + by rewrite Nat.min_l.
    + rewrite Nat.min_r by done. by rewrite !take_ge by lia.
Qed.

(** The text of the error, when there is one. *)
Lemma fallback_closed f err :
  buildFallbackMarkdown f err
  = flat [ "# Report (fallback)" +:+ nl +:+ nl;
           match err with
           | Some e => "OpenAI drafting failed: " +:+ e +:+ nl +:+ nl
           | None => ""
           end;
           "Window: " +:+ SinceISO f +:+ " (last " +:+ strconv_Itoa (FDaysBack f)
             +:+ " days)" +:+ nl +:+ nl;
           "- Code hits: " +:+ strconv_Itoa (Z.of_nat (length (CodeHits f))) +:+ nl;
           "- Repo hits: " +:+ strconv_Itoa (Z.of_nat (length (RepoHits f)))
             +:+ nl +:+ nl;
           titled "Notes:" (noteLine <$> Notes f);
           titled "Top code hits:" (codeLine <$> take 10 (CodeHits f));
           titled "Top repos:" (repoLine <$> take 10 (RepoHits f));
           "See diagnostics: /api/last-raw" +:+ nl ].
Proof.
  unfold buildFallbackMarkdown. cbv zeta.
  rewrite !top_some, !top_count, topCodeHits_lines, topRepos_lines, notes_lines.
  rewrite !drop_0.
  rewrite (titled_top codeLine "Top code hits:"), (titled_top repoLine "Top repos:").
  assert (Hn : forall b,
    (if (0 <? length (Notes f))%nat
     then WriteString (WriteString b ("Notes:" +:+ nl) +:+ flat (noteLine <$> Notes f)) nl
     else b)
    = b +:+ titled "Notes:" (noteLine <$> Notes f)).
  { intros b. destruct (Notes f) as [|n ns]; simpl.
    - by rewrite str_app_nil_r.
    - unfold titled, WriteString. cbn [fmap list_fmap]. by rewrite !str_app_assoc. }
  rewrite Hn. unfold flat, WriteString. cbn [foldr].
  destruct err as [e|]; rewrite !str_app_assoc, ?str_app_nil_r, ?app_empty_l; done.
Qed.

(** X13.  The fallback report is made of: its title; the text of the error,
    when there is one; the window; the numbers of all the code hits and of
    all the repository hits; the notes, one per line, under their title when
    there are some; the first ten code hits and the first ten repositories,
    one per line with the name and the URL, each list under its title when it
    has a line; and the pointer to the diagnostics.  No hit after the tenth
    is listed: Findings with the same window, days, notes, numbers of hits
    and first ten hits of each kind have the same report. *)
Theorem fallback_report (f : Findings) (err : option string) :
  buildFallbackMarkdown f err
  = flat [ "# Report (fallback)" +:+ nl +:+ nl;
           match err with
           | Some e => "OpenAI drafting failed: " +:+ e +:+ nl +:+ nl
           | None => ""
           end;
           "Window: " +:+ SinceISO f +:+ " (last " +:+ strconv_Itoa (FDaysBack f)
             +:+ " days)" +:+ nl +:+ nl;
           "- Code hits: " +:+ strconv_Itoa (Z.of_nat (length (CodeHits f))) +:+ nl;
           "- Repo hits: " +:+ strconv_Itoa (Z.of_nat (length (RepoHits f)))
             +:+ nl +:+ nl;
           titled "Notes:" (noteLine <$> Notes f);
           titled "Top code hits:" (codeLine <$> take 10 (CodeHits f));
           titled "Top repos:" (repoLine <$> take 10 (RepoHits f));
           "See diagnostics: /api/last-raw" +:+ nl ] /\
  (forall f',
     SinceISO f' = SinceISO f -> FDaysBack f' = FDaysBack f -> Notes f' = Notes f ->
     length (CodeHits f') = length (CodeHits f) ->
     length (RepoHits f') = length (RepoHits f) ->
     take 10 (CodeHits f') = take 10 (CodeHits f) ->
     take 10 (RepoHits f') = take 10 (RepoHits f) ->
     buildFallbackMarkdown f' err = buildFallbackMarkdown f err).
Proof.
  split; [apply fallback_closed|].
  intros f' Hs Hd Hn Hlc Hlr Hc Hr.
  rewrite !fallback_closed. by rewrite Hs, Hd, Hn, Hlc, Hlr, Hc, Hr.
Qed.

Lemma hash_offSpace : offSpace "#".
Proof. unfold offSpace. repeat constructor. Qed.

Lemma fallback_not_blank f err :
  strings_TrimSpace (buildFallbackMarkdown f err) <> "".
Proof.
  intros E. apply (f_equal (occ "#")) in E.
  rewrite (occ_TrimSpace "#" hash_offSpace), fallback_closed in E.
  change (flat (?x :: ?l)) with (x +:+ flat l) in E.
  rewrite occ_app in E.
  change (occ "#" ("# Report (fallback)" +:+ nl +:+ nl)) with 1%nat in E.
  simpl in E. lia.
Qed.

(** X14.  The report that [handleRunReport] stores and sends is never blank:
    it is the draft when there is one and it is not blank, the fallback
    report with the text of the error when drafting failed, and the fallback
    report for an empty answer when the draft is blank. *)
Theorem report_never_blank (findings : Findings) (draft : string + string) :
  strings_TrimSpace (reportMarkdown findings draft) <> "" /\
  (forall md, draft = inr md -> strings_TrimSpace md <> "" ->
     reportMarkdown findings draft = md) /\
  (forall md, draft = inr md -> strings_TrimSpace md = "" ->
     reportMarkdown findings draft
     = buildFallbackMarkdown findings (Some "empty OpenAI response")) /\
  (forall err, draft = inl err ->
     reportMarkdown findings draft = buildFallbackMarkdown findings (Some err)).
Proof.
  unfold reportMarkdown. split; [|split; [|split]].
  - destruct draft as [err|md].
    + rewrite bool_decide_eq_false_2 by apply fallback_not_blank.
      apply fallback_not_blank.
    + case_bool_decide; [apply fallback_not_blank|done].
  - intros md -> Hmd. by rewrite bool_decide_eq_false_2.
  - intros md -> Hmd. by rewrite bool_decide_eq_true_2.
  - intros err ->. by rewrite bool_decide_eq_false_2 by apply fallback_not_blank.
Qed.

Lemma report_never_blank_example :
  strings_TrimSpace "  " = "" /\
  reportMarkdown Findings_zero (inr "  ")
  = buildFallbackMarkdown Findings_zero (Some "empty OpenAI response").
Proof.
  assert (Hb : strings_TrimSpace "  " = "") by (vm_compute; reflexivity).
  split; [exact Hb|].
  exact (proj1 (proj2 (proj2 (report_never_blank Findings_zero (inr "  "))))
           "  " eq_refl Hb).
Defined.

(** ** The compact payload *)

Lemma compactFrom_take {A B} (small : A -> B) hits i out :
  compactFrom small i hits out = out ++ (small <$> take (200 - i) hits).
Proof.
  revert i out. induction hits as [|h hits IH]; intros i out; cbn [compactFrom].
  { by rewrite take_nil, app_nil_r. }
  destruct (200 <=? i)%nat eqn:E.
  - apply Nat.leb_le in E. replace (200 - i)%nat with O by lia.
    by rewrite take_0, app_nil_r.
  - apply Nat.leb_gt in E. rewrite IH.
    replace (200 - i)%nat with (S (200 - S i)) by lia.
    cbn [take fmap list_fmap]. by rewrite <- app_assoc.
Qed.

(** X15.  The payload sent for drafting holds the first 200 code hits and the
    first 200 repository hits of the Findings, in their order and made
    compact one by one, and no others: at most 200 of each, as many as the
    capacity asked for, [min(200, len)]. *)
Theorem payload_first_200 `{GoLib} (f : Findings) :
  payloadCodes f = smallCodeOf <$> take 200 (CodeHits f) /\
  payloadRepos f = smallRepoOf <$> take 200 (RepoHits f) /\
  (length (payloadCodes f) <= 200)%nat /\
  (length (payloadRepos f) <= 200)%nat /\
  Z.of_nat (length (payloadCodes f)) = Go.min 200 (Z.of_nat (length (CodeHits f))) /\
  Z.of_nat (length (payloadRepos f)) = Go.min 200 (Z.of_nat (length (RepoHits f))) /\
  (forall i h, (i < 200)%nat -> CodeHits f !! i = Some h ->
     payloadCodes f !! i = Some (smallCodeOf h)) /\
  (forall i h, (i < 200)%nat -> RepoHits f !! i = Some h ->
     payloadRepos f !! i = Some (smallRepoOf h)).
Proof.
  unfold payloadCodes, payloadRepos. rewrite !compactFrom_take, !app_nil_l.
  rewrite !Nat.sub_0_r.
  rewrite !length_fmap, !length_take. unfold Go.min.
  split; [done|]. split; [done|]. split; [lia|]. split; [lia|].
  split; [|split; [|split]].
  - destruct (Z.ltb_spec 200 (Z.of_nat (length (CodeHits f)))); lia.
  - destruct (Z.ltb_spec 200 (Z.of_nat (length (RepoHits f)))); lia.
  - intros i h Hi Hh. by rewrite list_lookup_fmap, lookup_take_lt, Hh.
  - intros i h Hi Hh. by rewrite list_lookup_fmap, lookup_take_lt, Hh.
Qed.

Lemma payload_first_200_example :
  let f := {| RunID := ""; SinceISO := ""; FDaysBack := 7; Generated := "";
              CodeHits := Scenario.threeHits; RepoHits := []; Notes := [] |} in
  (0 < 200)%nat /\
  CodeHits f !! O = Some (codeHitOf (Scenario.groupOf [Scenario.theQuery "code" Scenario.codeQuery])
                            (Scenario.theQuery "code" Scenario.codeQuery) Scenario.fileA) /\
  payloadCodes f !! O
  = Some (smallCodeOf (codeHitOf (Scenario.groupOf [Scenario.theQuery "code" Scenario.codeQuery])
                         (Scenario.theQuery "code" Scenario.codeQuery) Scenario.fileA)).
Proof.
  intros f.
  assert (Hi : (0 < 200)%nat) by lia.
  assert (Hh : CodeHits f !! O
               = Some (codeHitOf (Scenario.groupOf [Scenario.theQuery "code" Scenario.codeQuery])
                         (Scenario.theQuery "code" Scenario.codeQuery) Scenario.fileA))
    by reflexivity.
  split; [exact Hi|]. split; [exact Hh|].
  exact (proj1 (proj2 (proj2 (proj2 (proj2 (proj2 (proj2 (payload_first_200 f)))))))
           O _ Hi Hh).
Defined.

(** ** The items of an accepted retry stay to the end of the search phase *)

Lemma scan_snoc tr e :
  scan (tr ++ [e])
  = ((scan tr).1.1 ++ acceptedBy (scan tr).1.2 (scan tr).2 e, (scan tr).2, Some e).
Proof. unfold scan. by rewrite foldl_app. Qed.

Section Retries.
Context `{GoLib} (env : Env) (cfg : AppSettings).

Lemma keptIn_mono hits hits' r :
  hits ⊆ hits' -> keptIn hits r -> keptIn hits' r.
Proof.
  intros Hsub Hk cr it Hcr Hit. destruct (Hk cr it Hcr Hit) as (h & Hh & Hkey).
  exists h. split; [by apply Hsub|done].
Qed.

Lemma kept_more hits hs rs :
  Forall (keptIn hits) rs -> Forall (keptIn (hits ++ hs)) rs.
Proof.
  intros Hk. eapply Forall_impl; [exact Hk|]. intros x. apply keptIn_mono.
  intros h Hh. apply elem_of_app. by left.
Qed.

(** An interaction that is not a pause accepts nothing. *)
Lemma accepted_snoc tr e :
  (forall d, e <> Slept d) -> acceptedRetries (tr ++ [e]) = acceptedRetries tr.
Proof.
  intros He. unfold acceptedRetries. rewrite scan_snoc; simpl.
  destruct e as [| |d]; simpl; try apply app_nil_r. by destruct (He d).
Qed.

(** The pause after a page: the interaction before the request was the
    look at the context. *)
Lemma accepted_page tr url r d :
  acceptedRetries (((tr ++ [Polled None]) ++ [Requested url r]) ++ [Slept d])
  = acceptedRetries tr.
Proof. unfold acceptedRetries. rewrite !scan_snoc; simpl. by rewrite !app_nil_r. Qed.

(** The pause after a retry. *)
Lemma accepted_retry tr url url2 resp r2 d :
  acceptedRetries ((((tr ++ [Polled None]) ++ [Requested url (inr resp)])
                      ++ [Requested url2 r2]) ++ [Slept d])
  = acceptedRetries tr ++
    match r2 with
    | inr resp2 =>
        if (StatusCode resp =? 422) && (StatusCode resp2 =? 200) then [resp2] else []
    | inl _ => []
    end.
Proof.
  unfold acceptedRetries. rewrite !scan_snoc; simpl. rewrite !app_nil_r.
  by destruct r2.
Qed.

Lemma keptIn_items g q hits resp2 cr2 :
  json_codeSearchResp (Body resp2) = inr cr2 ->
  keptIn (hits ++ (codeHitOf g q <$> cs_Items cr2)) resp2.
Proof.
  intros Hcr cr it Hcr' Hit. rewrite Hcr in Hcr'. injection Hcr' as <-.
  exists (codeHitOf g q it). split; [|done].
  apply elem_of_app. right. apply list_elem_of_fmap. eauto.
Qed.

Ltac open_acc :=
  cbv [retriesFlow retriesKept snd id slept noted logged withCode withRepo
       trace codeHits] in *.

Lemma codePages_retries g q left page found a :
  retriesKept a -> retriesFlow snd (codePages env cfg g q left page found a).
Proof.
  revert page found a.
  induction left as [|left IH]; intros page found a Ha; [done|].
  cbn [codePages].
  destruct (ctx_Err env (tick a)) as [c|]; [done|].
  destruct (client_get env _ _) as [msg|resp]; [done|].
  destruct (negb (StatusCode resp =? 200)).
  - destruct (StatusCode resp =? 422) eqn:E422.
    + destruct (client_get env _ _) as [msg|resp2].
      { open_acc. by rewrite accepted_retry, app_nil_r. }
      destruct (StatusCode resp2 =? 200) eqn:E200.
      * destruct (json_codeSearchResp _) as [msg|cr2] eqn:Hcr; [done|].
        destruct (cs_Items cr2) as [|it items] eqn:Hitems.
        { open_acc. by rewrite !accepted_snoc by congruence. }
        apply IH. rewrite <- Hitems. open_acc.
        rewrite accepted_retry, E422, E200. simpl.
        apply Forall_app. split; [by apply kept_more|].
        constructor; [|constructor]. by apply keptIn_items.
      * open_acc. by rewrite accepted_retry, E200, andb_false_r, app_nil_r.
    + open_acc. by rewrite accepted_page.
  - destruct (json_codeSearchResp _) as [msg|cr]; [done|].
    destruct (cs_Items cr) as [|it items] eqn:Hitems.
    { open_acc. by rewrite !accepted_snoc by congruence. }
    apply IH. open_acc. rewrite accepted_page. by apply kept_more.
Qed.

Lemma repoPages_retries g q since left page found a :
  retriesKept a -> retriesFlow snd (repoPages env cfg g q since left page found a).
Proof.
  revert page found a.
  induction left as [|left IH]; intros page found a Ha; [done|].
  cbn [repoPages].
  destruct (ctx_Err env (tick a)) as [c|]; [done|].
  destruct (client_get env _ _) as [msg|resp]; [done|].
  destruct (negb (StatusCode resp =? 200)).
  { open_acc. by rewrite accepted_page. }
  destruct (json_repoSearchResp _) as [msg|rr]; [done|].
  destruct (rs_Items rr) as [|it items] eqn:Hitems.
  { open_acc. by rewrite !accepted_snoc by congruence. }
  apply IH. open_acc. by rewrite accepted_page.
Qed.

Lemma searchOne_retries since g q a :
  retriesKept a -> retriesFlow id (searchOne env cfg since g q a).
Proof.
  intros Ha. unfold searchOne.
  destruct (negb (SearchQuery.Enabled q)); [done|].
  case_bool_decide.
  { pose proof (codePages_retries g q (Z.to_nat (MaxPages cfg)) 1 0 a Ha) as Hc.
    destruct (codePages _ _ _ _ _ _ _ _) as [[found a']|f e tr]; [|done].
    by destruct (found =? 0). }
  case_bool_decide; [|done].
  destruct (negb (IncludeRepoSearch cfg)); [done|].
  pose proof (repoPages_retries g q since (Z.to_nat (MaxPages cfg)) 1 0 a Ha) as Hc.
  destruct (repoPages _ _ _ _ _ _ _ _ _) as [[found a']|f e tr]; [|done].
  by destruct (found =? 0).
Qed.

Lemma searchEach_retries since g qs a :
  retriesKept a -> retriesFlow id (searchEach env cfg since g qs a).
Proof.
  revert a. induction qs as [|q qs IH]; intros a Ha; simpl; [done|].
  pose proof (searchOne_retries since g q a Ha) as Hq.
  destruct (searchOne _ _ _ _ _ _) as [a'|f e tr]; [|done].
  by apply IH.
Qed.

Lemma searchGroups_retries since gs a :
  retriesKept a -> retriesFlow id (searchGroups env cfg since gs a).
Proof.
  revert a. induction gs as [|g gs IH]; intros a Ha; simpl; [done|].
  destruct (negb (SearchGroup.Enabled g)); [by apply IH|].
  pose proof (searchEach_retries since g (SearchGroup.Searches g) a Ha) as Hq.
  destruct (searchEach _ _ _ _ _ _) as [a'|f e tr]; [|done].
  by apply IH.
Qed.

Lemma searchPhase_retries spec a :
  searchPhase env cfg spec = Go_on a -> retriesKept a.
Proof.
  intros Hrun.
  pose proof (searchGroups_retries (sinceOf env cfg) (Groups spec) startAcc) as Hflow.
  unfold searchPhase in Hrun. rewrite Hrun in Hflow. apply Hflow. constructor.
Qed.
End Retries.

(** X16.  In a run that returns its Findings, made without the commit check,
    every item of every strict retry that was accepted (a request answered
    with status 422, followed by a request answered with status 200 and by
    the pause) has a hit with its key in the code hits of the Findings: what
    a retry brought is not lost on the way to the result. *)
Theorem accepted_retries_kept (L : GoLib) (env : Env) (cfg : AppSettings)
    (spec : QueriesSpec) (f : Findings) (tr : list Event) :
  sortContract L ->
  UseCommitCheck cfg = false ->
  runSearches_traced env cfg spec = (f, None, tr) ->
  forall resp2 cr2 it,
    resp2 ∈ acceptedRetries tr ->
    json_codeSearchResp (Body resp2) = inr cr2 ->
    it ∈ cs_Items cr2 ->
    exists h, h ∈ CodeHits f /\ codeKey h = itemKey it.
Proof.
  intros HL Hoff Hrun resp2 cr2 it Hin Hcr Hit.
  unfold runSearches_traced in Hrun.
  destruct (searchPhase env cfg spec) as [a|f' e tr'] eqn:Hphase; [|discriminate].
  injection Hrun as <- <-.
  pose proof (searchPhase_retries env cfg spec a Hphase) as Hkept.
  unfold retriesKept in Hkept. rewrite Forall_forall in Hkept.
  destruct (Hkept _ Hin cr2 it Hcr Hit) as (h & Hh & Hkey).
  destruct (gathered_code_in_findings L env cfg spec a h HL Hoff Hphase Hh)
    as (h' & Hh' & Hkey').
  exists h'. split; [done|congruence].
Qed.

Lemma accepted_retries_kept_example :
  sortContract lib /\
  UseCommitCheck (settings false) = false /\
  (exists h,
     h ∈ CodeHits (runSearches_traced retryAccepted (settings false)
                     (oneSearch "code" codeQuery)).1.1 /\
     codeKey h = itemKey fileA).
Proof.
  split; [exact lib_sortContract|]. split; [reflexivity|].
  apply (accepted_retries_kept lib retryAccepted (settings false)
           (oneSearch "code" codeQuery) _
           (runSearches_traced retryAccepted (settings false)
              (oneSearch "code" codeQuery)).2
           lib_sortContract eq_refl)
    with (resp2 := ok (renderCodeResp (codePage [fileA]))) (cr2 := codePage [fileA]).
  - vm_compute. reflexivity.
  - assert (E : acceptedRetries
                  (runSearches_traced retryAccepted (settings false)
                     (oneSearch "code" codeQuery)).2
                = [ok (renderCodeResp (codePage [fileA]))])
      by (vm_compute; reflexivity).
    rewrite E. left.
  - vm_compute. reflexivity.
  - left.
Defined.

(** ** The strict retry, from the page to the Findings *)

(** The search whose first page is refused with status 422 and refused again
    in the strict encoding: the loop has added two notes and gathered
    nothing, and the note that the search returned no code hit follows. *)
Lemma searchOne_refused_twice `{GoLib} (env : Env) (cfg : AppSettings) (since : Time)
    (g : SearchGroup.t) (q : SearchQuery.t) (a : Acc) (resp resp2 : Response) :
  let rawQ := sanitizeCodeQuery (SearchQuery.Query q) in
  let url := codeSearchURL (urlQueryEscape rawQ) (PerPage cfg) 1 in
  let strictURL :=
    codeSearchURL (neturl_QueryEscape (strings_TrimSpace rawQ)) (PerPage cfg) 1 in
  SearchQuery.Enabled q = true ->
  strings_ToLower (SearchQuery.Type_ q) = "code" ->
  0 < MaxPages cfg ->
  ctx_Err env (tick a) = None ->
  client_get env (S (tick a)) url = inr resp ->
  StatusCode resp = 422 ->
  client_get env (S (S (tick a))) strictURL = inr resp2 ->
  StatusCode resp2 <> 200 ->
  exists a',
    searchOne env cfg since g q a = Go_on a' /\
    codeHits a' = codeHits a /\
    repoHits a' = repoHits a /\
    notes a' = notes a ++ [retryNote (queryName g q) resp2 strictURL;
                           statusNote (queryName g q) resp url;
                           noCodeHitsNote (queryName g q)].
Proof.
  intros rawQ url strictURL Hen Hty Hpages Hctx Hget Hst Hget2 Hbad.
  destruct (Z.to_nat (MaxPages cfg)) as [|left] eqn:Hleft; [lia|].
  destruct (codePages_on_422 env cfg g q left 1 0 a resp resp2 Hctx Hget Hst Hget2)
    as [_ Hrefused].
  destruct (Hrefused Hbad) as (a' & Hrun & Hcode & Hrepo & Hnotes & _).
  exists (noted (noCodeHitsNote (queryName g q)) a').
  unfold searchOne. rewrite Hen, Hty, Hleft. simpl negb. cbv iota.
  rewrite bool_decide_eq_true_2 by done. rewrite Hrun.
  change (0 =? 0) with true. cbv iota.
  split; [done|]. split; [done|]. split; [done|].
  unfold noted; simpl. rewrite Hnotes. by rewrite <- app_assoc.
Qed.

(** With the commit check, the checked hits are those of the enriched hits
    that are dated within the window. *)
Lemma checkedCode_on `{GoLib} env cfg since hits h :
  UseCommitCheck cfg = true ->
  hits <> [] ->
  h ∈ checkedCode env cfg since hits <->
  h ∈ enrichWithCommitDates env since hits /\
  IsZero (CodeHit.CommitDate h) = false /\
  Before (CodeHit.CommitDate h) since = false.
Proof.
  intros Hon Hne. unfold checkedCode, keepRecent. rewrite Hon.
  destruct hits as [|h0 hits]; [done|].
  change (true && (0 <? length (h0 :: hits))%nat) with true. cbv iota.
  rewrite list_elem_of_filter. tauto.
Qed.

(** C5, as the code has it.  A page of a code search that is answered with
    status 422 is asked for once more, with the query wholly
    percent-encoded.

    The page loop: if the second answer has status 200 and items, the hits
    of these items are added to the code hits gathered, the pause of the
    second answer is taken and the loop goes on with the next page, the hits
    staying among the code hits to the end of the loop; if the second answer
    has another status, the loop ends without an error, no code hit is
    added, and exactly two notes are added, the note of the retry and the
    note of the first answer.

    The search: when the page refused twice is the first one, the search has
    gathered nothing and a third note follows, that it returned no code hit;
    the run goes on with the next search.

    The run that returns its Findings: every item of every retry that was
    accepted has a hit with its key among the code hits gathered.  Without
    the commit check, it has a hit with its key in the code hits of the
    Findings.  With the commit check, it has one there exactly when one of
    the enriched hits with its key is dated, and not before the start of the
    window: a retried item is dropped like any other when its look-up fails
    or finds no commit in the window. *)
Theorem retry_once_on_422 (L : GoLib) (env : Env) (cfg : AppSettings) :
  (forall (g : SearchGroup.t) (q : SearchQuery.t) (left : nat) (page found : Z)
          (a : Acc) (resp resp2 : Response),
     let rawQ := sanitizeCodeQuery (SearchQuery.Query q) in
     let url := codeSearchURL (urlQueryEscape rawQ) (PerPage cfg) page in
     let strictURL :=
       codeSearchURL (neturl_QueryEscape (strings_TrimSpace rawQ)) (PerPage cfg) page in
     let a2 :=
       logged (Requested strictURL (inr resp2))
         (logged (Requested url (inr resp)) (logged (Polled None) a)) in
     ctx_Err env (tick a) = None ->
     client_get env (S (tick a)) url = inr resp ->
     StatusCode resp = 422 ->
     client_get env (S (S (tick a))) strictURL = inr resp2 ->
     (StatusCode resp2 = 200 ->
      forall cr2, json_codeSearchResp (Body resp2) = inr cr2 -> cs_Items cr2 <> [] ->
        let hits := codeHitOf g q <$> cs_Items cr2 in
        let next :=
          codePages env cfg g q left (page + 1)
            (found + Z.of_nat (length (cs_Items cr2)))
            (slept env resp2 (withCode hits a2)) in
        codePages env cfg g q (S left) page found a = next /\
        codeHits (slept env resp2 (withCode hits a2)) = codeHits a ++ hits /\
        forall found' a', next = Go_on (found', a') ->
          (codeHits a ++ hits) `prefix_of` codeHits a') /\
     (StatusCode resp2 <> 200 ->
      exists a',
        codePages env cfg g q (S left) page found a = Go_on (found, a') /\
        codeHits a' = codeHits a /\
        repoHits a' = repoHits a /\
        notes a' = notes a ++ [retryNote (queryName g q) resp2 strictURL;
                               statusNote (queryName g q) resp url] /\
        trace a' = trace a ++ [Polled None; Requested url (inr resp);
                               Requested strictURL (inr resp2);
                               Slept (throttleFrom (time_Now env (S (S (S (tick a))))) resp)])) /\
  (forall (since : Time) (g : SearchGroup.t) (q : SearchQuery.t) (a : Acc)
          (resp resp2 : Response),
     let rawQ := sanitizeCodeQuery (SearchQuery.Query q) in
     let url := codeSearchURL (urlQueryEscape rawQ) (PerPage cfg) 1 in
     let strictURL :=
       codeSearchURL (neturl_QueryEscape (strings_TrimSpace rawQ)) (PerPage cfg) 1 in
     SearchQuery.Enabled q = true ->
     strings_ToLower (SearchQuery.Type_ q) = "code" ->
     0 < MaxPages cfg ->
     ctx_Err env (tick a) = None ->
     client_get env (S (tick a)) url = inr resp ->
     StatusCode resp = 422 ->
     client_get env (S (S (tick a))) strictURL = inr resp2 ->
     StatusCode resp2 <> 200 ->
     exists a',
       searchOne env cfg since g q a = Go_on a' /\
       codeHits a' = codeHits a /\
       repoHits a' = repoHits a /\
       notes a' = notes a ++ [retryNote (queryName g q) resp2 strictURL;
                              statusNote (queryName g q) resp url;
                              noCodeHitsNote (queryName g q)]) /\
  (sortContract L ->
   forall (spec : QueriesSpec) (a : Acc),
     searchPhase env cfg spec = Go_on a ->
     runSearches_traced env cfg spec = (assemble env cfg a, None, trace a) /\
     forall resp2 cr2 it,
       resp2 ∈ acceptedRetries (trace a) ->
       json_codeSearchResp (Body resp2) = inr cr2 ->
       it ∈ cs_Items cr2 ->
       (exists h, h ∈ codeHits a /\ codeKey h = itemKey it) /\
       (UseCommitCheck cfg = false ->
        exists h, h ∈ CodeHits (assemble env cfg a) /\ codeKey h = itemKey it) /\
       (UseCommitCheck cfg = true ->
        ((exists h, h ∈ CodeHits (assemble env cfg a) /\ codeKey h = itemKey it) <->
         (exists h,
            h ∈ enrichWithCommitDates env (sinceOf env cfg) (codeHits a) /\
            codeKey h = itemKey it /\
            IsZero (CodeHit.CommitDate h) = false /\
            Before (CodeHit.CommitDate h) (sinceOf env cfg) = false)))).
Proof.
  split; [|split].
  - intros g q left page found a resp resp2. apply codePages_on_422.
  - intros since g q a resp resp2. apply searchOne_refused_twice.
  - intros HL spec a Hphase. split.
    { unfold runSearches_traced. by rewrite Hphase. }
    intros resp2 cr2 it Hin Hcr Hit.
    pose proof (searchPhase_retries env cfg spec a Hphase) as Hkept.
    unfold retriesKept in Hkept. rewrite Forall_forall in Hkept.
    destruct (Hkept _ Hin cr2 it Hcr Hit) as (h & Hh & Hkey).
    split; [eauto|]. split.
    + intros Hoff.
      destruct (gathered_code_in_findings L env cfg spec a h HL Hoff Hphase Hh)
        as (h' & Hh' & Hkey').
      exists h'. split; [done|congruence].
    + intros Hon.
      assert (Hne : codeHits a <> []).
      { intros E. rewrite E in Hh. by apply elem_of_nil in Hh. }
      split.
      * intros (h' & Hh' & Hkey').
        apply (final_code_elem_of L env cfg a h' HL) in Hh'.
        apply (checkedCode_on env cfg _ _ h' Hon Hne) in Hh'.
        destruct Hh' as (He & Hz & Hb). eauto.
      * intros (h' & He & Hkey' & Hz & Hb).
        assert (Hc : h' ∈ checkedCode env cfg (sinceOf env cfg) (codeHits a)).
        { by apply (checkedCode_on env cfg _ _ h' Hon Hne). }
        destruct (final_code_keys L env cfg a h' HL Hc) as (h'' & Hh'' & Hkey'').
        exists h''. split; [done|congruence].
Qed.

(** The first page of a code search is refused with status 422.  When the
    strict retry is accepted with one item, the page loop gathers the hit of
    the item; without the commit check the Findings have a hit with its key,
    with the commit check they have one when the file was committed on
    2024-01-02 and none when the look-up finds no commit in the window.
    When the retry is refused too, the search gathers nothing and leaves
    three notes. *)
Lemma retry_examples :
  let g := groupOf [theQuery "code" codeQuery] in
  let q := theQuery "code" codeQuery in
  let spec := oneSearch "code" codeQuery in
  (exists found' a',
     codePages retryAccepted (settings false) g q 3 1 0 startAcc = Go_on (found', a') /\
     codeHitOf g q fileA ∈ codeHits a') /\
  (exists a',
     searchOne retryRefused (settings false) since g q startAcc = Go_on a' /\
     codeHits a' = [] /\
     notes a' = [retryNote (queryName g q) unprocessable (strictURL 1);
                 statusNote (queryName g q) unprocessable (lenientURL 1);
                 noCodeHitsNote (queryName g q)]) /\
  (exists h,
     h ∈ CodeHits (runSearches retryAccepted (settings false) spec).1 /\
     codeKey h = itemKey fileA) /\
  (exists h,
     h ∈ CodeHits (runSearches retryAcceptedRecent (settings true) spec).1 /\
     codeKey h = itemKey fileA) /\
  ~ (exists h,
       h ∈ CodeHits (runSearches retryAcceptedStale (settings true) spec).1 /\
       codeKey h = itemKey fileA).
Proof.
  intros g q spec.
  assert (Hitem : json_codeSearchResp (Body (ok (renderCodeResp (codePage [fileA]))))
                  = inr (codePage [fileA])) by (vm_compute; reflexivity).
  split; [|split; [|split; [|split]]].
  - destruct (retry_once_on_422 lib retryAccepted (settings false)) as (Hloop & _ & _).
    pose proof (Hloop g q 2%nat 1 0 startAcc unprocessable
                  (ok (renderCodeResp (codePage [fileA])))) as G.
    cbv zeta in G.
    destruct G as [Hok _];
      [reflexivity|vm_compute; reflexivity|reflexivity|vm_compute; reflexivity|].
    destruct (Hok eq_refl (codePage [fileA])) as (Hstep & _ & Hkeep);
      [exact Hitem|discriminate|].
    assert (Hrun : exists fa,
              codePages retryAccepted (settings false) g q 3 1 0 startAcc = Go_on fa)
      by (vm_compute; eexists; reflexivity).
    destruct Hrun as [[found' a'] Hrun]. exists found', a'. split; [exact Hrun|].
    rewrite Hstep in Hrun. apply Hkeep in Hrun. destruct Hrun as [k Hk].
    rewrite Hk. apply elem_of_app. left. apply elem_of_app. right. left.
  - destruct (retry_once_on_422 lib retryRefused (settings false)) as (_ & Hsearch & _).
    pose proof (Hsearch since g q startAcc unprocessable unprocessable) as G.
    cbv zeta in G.
    destruct G as (a' & Hrun & Hcode & _ & Hnotes);
      [reflexivity|vm_compute; reflexivity|reflexivity|reflexivity
      |vm_compute; reflexivity|reflexivity|vm_compute; reflexivity|discriminate|].
    exists a'. split; [exact Hrun|]. split; [exact Hcode|]. exact Hnotes.
  - destruct (retry_once_on_422 lib retryAccepted (settings false)) as (_ & _ & Hrun).
    assert (Hp : exists a,
              searchPhase retryAccepted (settings false) spec = Go_on a /\
              acceptedRetries (trace a) = [ok (renderCodeResp (codePage [fileA]))]).
    { eexists. split; vm_compute; reflexivity. }
    destruct Hp as (a & Hp & Hacc).
    destruct (Hrun lib_sortContract spec a Hp) as [Htr Hitems].
    destruct (Hitems (ok (renderCodeResp (codePage [fileA]))) (codePage [fileA]) fileA)
      as (_ & Hoff & _); [rewrite Hacc; left|exact Hitem|left|].
    unfold runSearches. rewrite Htr. exact (Hoff eq_refl).
  - destruct (retry_once_on_422 lib retryAcceptedRecent (settings true)) as (_ & _ & Hrun).
    assert (Hp : exists a,
              searchPhase retryAcceptedRecent (settings true) spec = Go_on a /\
              acceptedRetries (trace a) = [ok (renderCodeResp (codePage [fileA]))] /\
              enrichWithCommitDates retryAcceptedRecent
                (sinceOf retryAcceptedRecent (settings true)) (codeHits a)
              = [hitOf fileA "2024-01-02T00:00:00Z"]).
    { eexists. split; [|split]; vm_compute; reflexivity. }
    destruct Hp as (a & Hp & Hacc & Hdated).
    destruct (Hrun lib_sortContract spec a Hp) as [Htr Hitems].
    destruct (Hitems (ok (renderCodeResp (codePage [fileA]))) (codePage [fileA]) fileA)
      as (_ & _ & Hon); [rewrite Hacc; left|exact Hitem|left|].
    unfold runSearches. rewrite Htr. apply (Hon eq_refl).
    exists (hitOf fileA "2024-01-02T00:00:00Z").
    split; [rewrite Hdated; left|]. split; [vm_compute; reflexivity|].
    split; vm_compute; reflexivity.
  - destruct (retry_once_on_422 lib retryAcceptedStale (settings true)) as (_ & _ & Hrun).
    assert (Hp : exists a,
              searchPhase retryAcceptedStale (settings true) spec = Go_on a /\
              acceptedRetries (trace a) = [ok (renderCodeResp (codePage [fileA]))] /\
              enrichWithCommitDates retryAcceptedStale
                (sinceOf retryAcceptedStale (settings true)) (codeHits a)
              = [codeHitOf g q fileA]).
    { eexists. split; [|split]; vm_compute; reflexivity. }
    destruct Hp as (a & Hp & Hacc & Hundated).
    destruct (Hrun lib_sortContract spec a Hp) as [Htr Hitems].
    destruct (Hitems (ok (renderCodeResp (codePage [fileA]))) (codePage [fileA]) fileA)
      as (_ & _ & Hon); [rewrite Hacc; left|exact Hitem|left|].
    unfold runSearches. rewrite Htr. intros Hex.
    apply (Hon eq_refl) in Hex. destruct Hex as (h & Hin & _ & Hz & _).
    rewrite Hundated in Hin. apply list_elem_of_singleton in Hin. subst h.
    discriminate Hz.
Defined.

(** C5 as it is stated fails on the code in two places.  With the commit
    check, the first page of the search is refused with status 422, the
    strict retry is answered with status 200 and one item, and the look-up
    of the commits of its file finds none in the window: the run returns its
    Findings without an error, and the item is not in their code hits, which
    are empty.  And when the retry is refused too, the Findings hold three
    notes for the search, not two: the note of the retry, the note of the
    first answer and the note that the search returned no code hit. *)
Lemma retried_item_dropped :
  (runSearches_traced retryAcceptedStale (settings true) (oneSearch "code" codeQuery)).2
  = [ Polled None;
      Requested (lenientURL 1) (inr unprocessable);
      Requested (strictURL 1) (codeOK [fileA]);
      Slept (12 * Second);
      Polled None;
      Requested (lenientURL 2) (codeOK []) ] /\
  json_codeSearchResp (Body (ok (renderCodeResp (codePage [fileA]))))
  = inr (codePage [fileA]) /\
  (runSearches retryAcceptedStale (settings true) (oneSearch "code" codeQuery)).2 = None /\
  CodeHits (runSearches retryAcceptedStale (settings true) (oneSearch "code" codeQuery)).1
  = [] /\
  ~ (exists h,
       h ∈ CodeHits (runSearches retryAcceptedStale (settings true)
                       (oneSearch "code" codeQuery)).1 /\
       codeKey h = itemKey fileA) /\
  (runSearches retryRefused (settings false) (oneSearch "code" codeQuery)).2 = None /\
  Notes (runSearches retryRefused (settings false) (oneSearch "code" codeQuery)).1
  = [ retryNote (queryName (groupOf [theQuery "code" codeQuery]) (theQuery "code" codeQuery))
        unprocessable (strictURL 1);
      statusNote (queryName (groupOf [theQuery "code" codeQuery]) (theQuery "code" codeQuery))
        unprocessable (lenientURL 1);
      noCodeHitsNote
        (queryName (groupOf [theQuery "code" codeQuery]) (theQuery "code" codeQuery)) ] /\
  length (Notes (runSearches retryRefused (settings false) (oneSearch "code" codeQuery)).1)
  <> 2%nat.
Proof.
  assert (Hnone : CodeHits (runSearches retryAcceptedStale (settings true)
                              (oneSearch "code" codeQuery)).1 = [])
    by (vm_compute; reflexivity).
  split; [vm_compute; reflexivity|]. split; [vm_compute; reflexivity|].
  split; [vm_compute; reflexivity|]. split; [exact Hnone|].
  split.
  { intros (h & Hin & _). rewrite Hnone in Hin. by apply elem_of_nil in Hin. }
  split; [vm_compute; reflexivity|]. split; [vm_compute; reflexivity|].
  vm_compute. discriminate.
Qed.

(** ** The request that ends a run *)

Section Transport.
Context `{GoLib} (env : Env) (cfg : AppSettings).

Lemma codePages_primaryFailure g q left page found a :
  primaryFailure (codePages env cfg g q left page found a).
Proof.
  revert page found a.
  induction left as [|left IH]; intros page found a; [done|].
  cbn [codePages].
  destruct (ctx_Err env (tick a)) as [c|]; [done|].
  destruct (client_get env _ _) as [msg|resp].
  { simpl. eexists (trace a), _. unfold logged; simpl. by rewrite <- app_assoc. }
  destruct (negb (StatusCode resp =? 200)).
  - destruct (StatusCode resp =? 422); [|done].
    destruct (client_get env _ _) as [msg|resp2]; [done|].
    destruct (StatusCode resp2 =? 200); [|done].
    destruct (json_codeSearchResp _) as [msg|cr2]; [done|].
    destruct (cs_Items cr2) as [|it items]; [done|]. apply IH.
  - destruct (json_codeSearchResp _) as [msg|cr]; [done|].
    destruct (cs_Items cr) as [|it items]; [done|]. apply IH.
Qed.

Lemma repoPages_primaryFailure g q since left page found a :
  primaryFailure (repoPages env cfg g q since left page found a).
Proof.
  revert page found a.
  induction left as [|left IH]; intros page found a; [done|].
  cbn [repoPages].
  destruct (ctx_Err env (tick a)) as [c|]; [done|].
  destruct (client_get env _ _) as [msg|resp].
  { simpl. eexists (trace a), _. unfold logged; simpl. by rewrite <- app_assoc. }
  destruct (negb (StatusCode resp =? 200)); [done|].
  destruct (json_repoSearchResp _) as [msg|rr]; [done|].
  destruct (rs_Items rr) as [|it items]; [done|]. apply IH.
Qed.

Lemma searchOne_primaryFailure since g q a :
  primaryFailure (searchOne env cfg since g q a).
Proof.
  unfold searchOne.
  destruct (negb (SearchQuery.Enabled q)); [done|].
  case_bool_decide.
  { pose proof (codePages_primaryFailure g q (Z.to_nat (MaxPages cfg)) 1 0 a) as Hc.
    by destruct (codePages _ _ _ _ _ _ _ _) as [[found a']|f e tr]. }
  case_bool_decide; [|done].
  destruct (negb (IncludeRepoSearch cfg)); [done|].
  pose proof (repoPages_primaryFailure g q since (Z.to_nat (MaxPages cfg)) 1 0 a) as Hc.
  by destruct (repoPages _ _ _ _ _ _ _ _ _) as [[found a']|f e tr].
Qed.

Lemma searchEach_primaryFailure since g qs a :
  primaryFailure (searchEach env cfg since g qs a).
Proof.
  revert a. induction qs as [|q qs IH]; intros a; simpl; [done|].
  pose proof (searchOne_primaryFailure since g q a) as Hq.
  destruct (searchOne _ _ _ _ _ _) as [a'|f e tr]; [apply IH|done].
Qed.

Lemma searchGroups_primaryFailure since gs a :
  primaryFailure (searchGroups env cfg since gs a).
Proof.
  revert a. induction gs as [|g gs IH]; intros a; simpl; [done|].
  destruct (negb (SearchGroup.Enabled g)); [apply IH|].
  pose proof (searchEach_primaryFailure since g (SearchGroup.Searches g) a) as Hq.
  destruct (searchEach _ _ _ _ _ _) as [a'|f e tr]; [apply IH|done].
Qed.
End Transport.

(** X17.  A run that returns an error of the transport made the failed
    request right after a look at the context that did not find it done: the
    request that ended the run is the request for a page, never a strict
    retry, whose failure only ends the search of its query. *)
Theorem transport_error_is_primary `{GoLib} (env : Env) (cfg : AppSettings)
    (spec : QueriesSpec) (f : Findings) (msg : string) (tr : list Event) :
  runSearches_traced env cfg spec = (f, Some (transport_error msg), tr) ->
  exists tr' url, tr = tr' ++ [Polled None; Requested url (inl msg)].
Proof.
  intros Hrun. unfold runSearches_traced in Hrun.
  pose proof (searchGroups_primaryFailure env cfg (sinceOf env cfg)
                (Groups spec) startAcc) as Hp.
  fold (searchPhase env cfg spec) in Hp.
  destruct (searchPhase env cfg spec) as [a|f' e tr']; [discriminate|].
  injection Hrun as <- -> <-. exact Hp.
Qed.

Lemma transport_error_is_primary_example :
  runSearches_traced unreachable (settings false) (oneSearch "code" codeQuery)
  = (Findings_zero, Some (transport_error "no route to host"),
     (runSearches_traced unreachable (settings false) (oneSearch "code" codeQuery)).2) /\
  exists tr' url,
    (runSearches_traced unreachable (settings false) (oneSearch "code" codeQuery)).2
    = tr' ++ [Polled None; Requested url (inl "no route to host")].
Proof.
  assert (Hrun :
    runSearches_traced unreachable (settings false) (oneSearch "code" codeQuery)
    = (Findings_zero, Some (transport_error "no route to host"),
       (runSearches_traced unreachable (settings false) (oneSearch "code" codeQuery)).2))
    by (vm_compute; reflexivity).
  split; [exact Hrun|].
  exact (transport_error_is_primary unreachable (settings false)
           (oneSearch "code" codeQuery) _ _ _ Hrun).
Defined.

(** ** How much a run asks *)

Lemma requests_app tr1 tr2 : requests (tr1 ++ tr2) = (requests tr1 + requests tr2)%nat.
Proof.
  induction tr1 as [|e tr1 IH]; [done|]. destruct e; simpl; rewrite IH; lia.
Qed.

Section Asked.
Context `{GoLib} (env : Env) (cfg : AppSettings).

Ltac open_trace :=
  cbv [traceOf snd id slept noted logged withCode withRepo trace] in *;
  rewrite ?requests_app; cbn [requests].

Lemma codePages_requests g q left page found a :
  (requests (traceOf snd (codePages env cfg g q left page found a))
   <= requests (trace a) + 2 * left)%nat.
Proof.
  revert page found a.
  induction left as [|left IH]; intros page found a; [simpl; lia|].
  cbn [codePages].
  destruct (ctx_Err env (tick a)) as [c|]; [open_trace; lia|].
  destruct (client_get env _ _) as [msg|resp]; [open_trace; lia|].
  destruct (negb (StatusCode resp =? 200)).
  - destruct (StatusCode resp =? 422).
    + destruct (client_get env _ _) as [msg|resp2]; [open_trace; lia|].
      destruct (StatusCode resp2 =? 200); [|open_trace; lia].
      destruct (json_codeSearchResp _) as [msg|cr2]; [open_trace; lia|].
      destruct (cs_Items cr2) as [|it items]; [open_trace; lia|].
      etrans; [apply IH|]. open_trace. lia.
    + open_trace. lia.
  - destruct (json_codeSearchResp _) as [msg|cr]; [open_trace; lia|].
    destruct (cs_Items cr) as [|it items]; [open_trace; lia|].
    etrans; [apply IH|]. open_trace. lia.
Qed.

Lemma repoPages_requests g q since left page found a :
  (requests (traceOf snd (repoPages env cfg g q since left page found a))
   <= requests (trace a) + left)%nat.
Proof.
  revert page found a.
  induction left as [|left IH]; intros page found a; [simpl; lia|].
  cbn [repoPages].
  destruct (ctx_Err env (tick a)) as [c|]; [open_trace; lia|].
  destruct (client_get env _ _) as [msg|resp]; [open_trace; lia|].
  destruct (negb (StatusCode resp =? 200)); [open_trace; lia|].
  destruct (json_repoSearchResp _) as [msg|rr]; [open_trace; lia|].
  destruct (rs_Items rr) as [|it items]; [open_trace; lia|].
  etrans; [apply IH|]. open_trace. lia.
Qed.

Lemma searchOne_requests since g q a :
  (requests (traceOf id (searchOne env cfg since g q a))
   <= requests (trace a)
      + (if SearchQuery.Enabled q then 2 * Z.to_nat (MaxPages cfg) else 0))%nat.
Proof.
  unfold searchOne. destruct (SearchQuery.Enabled q); simpl negb; cbv iota;
    [|simpl; lia].
  case_bool_decide.
  { pose proof (codePages_requests g q (Z.to_nat (MaxPages cfg)) 1 0 a) as Hc.
    destruct (codePages _ _ _ _ _ _ _ _) as [[found a']|f e tr]; [|exact Hc].
    destruct (found =? 0); exact Hc. }
  case_bool_decide; [|simpl; lia].
  destruct (negb (IncludeRepoSearch cfg)); [simpl; lia|].
  pose proof (repoPages_requests g q since (Z.to_nat (MaxPages cfg)) 1 0 a) as Hc.
  destruct (repoPages _ _ _ _ _ _ _ _ _) as [[found a']|f e tr].
  - destruct (found =? 0); simpl in *; lia.
  - simpl in *. lia.
Qed.

Lemma searchEach_requests since g qs a :
  (requests (traceOf id (searchEach env cfg since g qs a))
   <= requests (trace a)
      + 2 * Z.to_nat (MaxPages cfg)
        * length (filter (fun q => SearchQuery.Enabled q = true) qs))%nat.
Proof.
  revert a. induction qs as [|q qs IH]; intros a; cbn [searchEach]; [simpl; lia|].
  pose proof (searchOne_requests since g q a) as Hq.
  rewrite filter_cons.
  destruct (searchOne _ _ _ _ _ _) as [a'|f e tr].
  - specialize (IH a'). simpl in Hq.
    destruct (SearchQuery.Enabled q).
    + rewrite decide_True by done. simpl length. lia.
    + rewrite decide_False by done. lia.
  - simpl in *. destruct (SearchQuery.Enabled q).
    + rewrite decide_True by done. simpl length. lia.
    + rewrite decide_False by done. lia.
Qed.

Lemma searchGroups_requests since gs a :
  (requests (traceOf id (searchGroups env cfg since gs a))
   <= requests (trace a)
      + 2 * Z.to_nat (MaxPages cfg)
        * length (enabledSearches {| Groups := gs |}))%nat.
Proof.
  revert a. induction gs as [|g gs IH]; intros a; cbn [searchGroups]; [simpl; lia|].
  rewrite enabledSearches_cons, length_app.
  destruct (SearchGroup.Enabled g); simpl negb; cbv iota.
  - rewrite length_fmap.
    pose proof (searchEach_requests since g (SearchGroup.Searches g) a) as Hq.
    destruct (searchEach _ _ _ _ _ _) as [a'|f e tr].
    + specialize (IH a'). simpl in Hq. lia.
    + simpl in *. lia.
  - specialize (IH a). simpl length. lia.
Qed.
End Asked.

(** X18.  Whatever the answers, a run asks for at most two pages (the page
    and its strict retry) per enabled search of an enabled group and page
    allowed: the requests of the search phase number at most twice the
    searches that [handleRunReport] counts for its budget, times the pages
    per search; at most 20 per search with the settings that
    [handleSaveSettings] stores. *)
Theorem requests_bounded `{GoLib} (env : Env) (cfg : AppSettings)
    (spec : QueriesSpec) :
  let tr := (runSearches_traced env cfg spec).2 in
  let n := length (enabledSearches spec) in
  (requests tr <= 2 * Z.to_nat (MaxPages cfg) * n)%nat /\
  (forall input, cfg = enforceBounds input -> (requests tr <= 20 * n)%nat).
Proof.
  intros tr n.
  assert (Hb : (requests tr <= 2 * Z.to_nat (MaxPages cfg) * n)%nat).
  { subst tr n. unfold runSearches_traced.
    pose proof (searchGroups_requests env cfg (sinceOf env cfg) (Groups spec)
                  startAcc) as Hs.
    fold (searchPhase env cfg spec) in Hs. destruct spec as [gs]. simpl Groups in *.
    destruct (searchPhase env cfg _) as [a|f e tr]; simpl in *; lia. }
  split; [exact Hb|]. intros input Hcfg.
  assert (Hm : (Z.to_nat (MaxPages cfg) <= 10)%nat).
  { pose proof (settings_pages input) as Hp. rewrite <- Hcfg in Hp. lia. }
  nia.
Qed.

Lemma requests_bounded_example :
  enforceBounds (settings false) = enforceBounds (settings false) /\
  (requests (runSearches_traced retryRefused (enforceBounds (settings false))
               (oneSearch "code" codeQuery)).2
   <= 20 * length (enabledSearches (oneSearch "code" codeQuery)))%nat.
Proof.
  split; [reflexivity|].
  exact (proj2 (requests_bounded retryRefused (enforceBounds (settings false))
                  (oneSearch "code" codeQuery)) (settings false) eq_refl).
Defined.

(** ** A run with nothing to ask *)

Section Idle.
Context `{GoLib} (env : Env) (cfg : AppSettings).

Lemma sameButNotes_refl a : sameButNotes a a.
Proof. by repeat split. Qed.

Lemma sameButNotes_noted n a a' : sameButNotes a a' -> sameButNotes a (noted n a').
Proof. intros (? & ? & ? & ?). by repeat split. Qed.

Lemma sameButNotes_trans a b c :
  sameButNotes a b -> sameButNotes b c -> sameButNotes a c.
Proof.
  intros (? & ? & ? & ?) (? & ? & ? & ?). repeat split; congruence.
Qed.

Lemma searchOne_idle since g q a :
  SearchQuery.Enabled q = false \/ MaxPages cfg <= 0 ->
  exists a', searchOne env cfg since g q a = Go_on a' /\ sameButNotes a a' /\
             (SearchQuery.Enabled q = false -> a' = a).
Proof.
  intros Hidle. unfold searchOne.
  destruct (SearchQuery.Enabled q) eqn:Eq; simpl negb; cbv iota.
  2:{ exists a. split; [done|]. split; [apply sameButNotes_refl|done]. }
  destruct Hidle as [?|Hp]; [done|].
  replace (Z.to_nat (MaxPages cfg)) with O by lia. cbn [codePages repoPages].
  case_bool_decide.
  { eexists. split; [done|]. split; [|done].
    change (0 =? 0) with true. cbv iota.
    apply sameButNotes_noted, sameButNotes_refl. }
  case_bool_decide.
  - destruct (negb (IncludeRepoSearch cfg)).
    + exists a. split; [done|]. split; [apply sameButNotes_refl|done].
    + eexists. split; [done|]. split; [|done].
      change (0 =? 0) with true. cbv iota.
      apply sameButNotes_noted, sameButNotes_refl.
  - eexists. split; [done|]. split; [|done].
    apply sameButNotes_noted, sameButNotes_refl.
Qed.

Lemma searchEach_idle since g qs a :
  filter (fun q => SearchQuery.Enabled q = true) qs = [] \/ MaxPages cfg <= 0 ->
  exists a', searchEach env cfg since g qs a = Go_on a' /\ sameButNotes a a' /\
             (filter (fun q => SearchQuery.Enabled q = true) qs = [] -> a' = a).
Proof.
  revert a. induction qs as [|q qs IH]; intros a Hidle; cbn [searchEach].
  { exists a. split; [done|]. split; [apply sameButNotes_refl|done]. }
  rewrite filter_cons in *.
  assert (Hq : SearchQuery.Enabled q = false \/ MaxPages cfg <= 0).
  { destruct Hidle as [Hf|?]; [|by right]. left.
    destruct (SearchQuery.Enabled q); [|done].
    by rewrite decide_True in Hf by done. }
  assert (Hqs : filter (fun q => SearchQuery.Enabled q = true) qs = []
                \/ MaxPages cfg <= 0).
  { destruct Hidle as [Hf|?]; [|by right]. left.
    destruct (decide (SearchQuery.Enabled q = true)); [done|done]. }
  destruct (searchOne_idle since g q a Hq) as (a1 & -> & Hs1 & He1).
  destruct (IH a1 Hqs) as (a2 & -> & Hs2 & He2).
  exists a2. split; [done|]. split; [by eapply sameButNotes_trans|].
  intros Hf. destruct (decide (SearchQuery.Enabled q = true)) as [|Hne]; [done|].
  rewrite (He2 Hf). apply He1. by destruct (SearchQuery.Enabled q).
Qed.

Lemma searchGroups_idle since gs a :
  enabledSearches {| Groups := gs |} = [] \/ MaxPages cfg <= 0 ->
  exists a', searchGroups env cfg since gs a = Go_on a' /\ sameButNotes a a' /\
             (enabledSearches {| Groups := gs |} = [] -> a' = a).
Proof.
  revert a. induction gs as [|g gs IH]; intros a Hidle; cbn [searchGroups].
  { exists a. split; [done|]. split; [apply sameButNotes_refl|done]. }
  rewrite enabledSearches_cons in *.
  assert (Hgs : enabledSearches {| Groups := gs |} = [] \/ MaxPages cfg <= 0).
  { destruct Hidle as [Hf|?]; [|by right]. left.
    by apply app_eq_nil in Hf as [_ ?]. }
  destruct (SearchGroup.Enabled g); simpl negb; cbv iota.
  - assert (Hg : filter (fun q => SearchQuery.Enabled q = true) (SearchGroup.Searches g) = []
                 \/ MaxPages cfg <= 0).
    { destruct Hidle as [Hf|?]; [|by right]. left.
      apply app_eq_nil in Hf as [Hf _]. by apply fmap_nil_inv in Hf. }
    destruct (searchEach_idle since g _ a Hg) as (a1 & -> & Hs1 & He1).
    destruct (IH a1 Hgs) as (a2 & -> & Hs2 & He2).
    exists a2. split; [done|]. split; [by eapply sameButNotes_trans|].
    intros Hf. apply app_eq_nil in Hf as [Hf1 Hf2].
    rewrite (He2 Hf2). apply He1. by apply fmap_nil_inv in Hf1.
  - destruct (IH a Hgs) as (a2 & -> & Hs2 & He2).
    exists a2. split; [done|]. split; [done|]. intros Hf. by apply He2.
Qed.
End Idle.

(** X19.  When no search of an enabled group is enabled, or when the pages
    per search are 0 or less, a run interacts with nothing: it does not look
    at the context, asks for nothing and takes no pause, and it returns
    Findings without hits and no error, also when the context is done from
    the start.  With no search enabled the Findings have no note either. *)
Theorem idle_run `{GoLib} (env : Env) (cfg : AppSettings) (spec : QueriesSpec) :
  enabledSearches spec = [] \/ MaxPages cfg <= 0 ->
  exists f,
    runSearches_traced env cfg spec = (f, None, []) /\
    CodeHits f = [] /\
    RepoHits f = [] /\
    (enabledSearches spec = [] -> Notes f = []).
Proof.
  intros Hidle. destruct spec as [gs].
  destruct (searchGroups_idle env cfg (sinceOf env cfg) gs startAcc Hidle)
    as (a & Hrun & (Htick & Hcode & Hrepo & Htrace) & Hsame).
  unfold runSearches_traced, searchPhase. simpl Groups. rewrite Hrun.
  eexists. split; [by rewrite Htrace|].
  unfold assemble. cbn [CodeHits RepoHits Notes]. rewrite Hcode, Hrepo.
  split; [|split].
  - unfold checkedCode. cbn [codeHits startAcc length].
    change (0 <? 0)%nat with false. rewrite andb_false_r. done.
  - done.
  - intros Hnone. by rewrite (Hsame Hnone).
Qed.

Lemma idle_run_example :
  (enabledSearches disabledGroup = [] \/ MaxPages (settings false) <= 0) /\
  exists f,
    runSearches_traced deadlineOnPageTwo (settings false) disabledGroup = (f, None, []) /\
    CodeHits f = [] /\
    RepoHits f = [] /\
    (enabledSearches disabledGroup = [] -> Notes f = []).
Proof.
  assert (Hidle : enabledSearches disabledGroup = [] \/ MaxPages (settings false) <= 0).
  { left. reflexivity. }
  split; [exact Hidle|].
  exact (idle_run deadlineOnPageTwo (settings false) disabledGroup Hidle).
Defined.

(** ** What a run asks for *)

Lemma codeSearchURL_prefix q perPage page :
  hasPrefix codeSearchPrefix (codeSearchURL q perPage page) = true.
Proof.
  unfold hasPrefix, codeSearchURL, codeSearchPrefix. by rewrite stripPrefix_app.
Qed.

Lemma repoSearchURL_prefix q perPage page :
  hasPrefix repoSearchPrefix (repoSearchURL q perPage page) = true.
Proof.
  unfold hasPrefix, repoSearchURL, repoSearchPrefix. by rewrite stripPrefix_app.
Qed.

Section Configured.
Context `{GoLib} (env : Env) (cfg : AppSettings).

Lemma searchesOnly_snoc b tr e :
  searchesOnly b tr ->
  match e with
  | Requested url _ =>
      hasPrefix codeSearchPrefix url = true \/
      (b = true /\ hasPrefix repoSearchPrefix url = true)
  | _ => True
  end ->
  searchesOnly b (tr ++ [e]).
Proof.
  intros Htr He url r [Hin|Hin%list_elem_of_singleton]%elem_of_app.
  - by eapply Htr.
  - by subst e.
Qed.

Lemma configured_logged b e a :
  asConfigured b a ->
  match e with
  | Requested url _ =>
      hasPrefix codeSearchPrefix url = true \/
      (b = true /\ hasPrefix repoSearchPrefix url = true)
  | _ => True
  end ->
  asConfigured b (logged e a).
Proof. intros [Htr Hr] He. split; [by apply searchesOnly_snoc|done]. Qed.

Lemma configured_noted b n a : asConfigured b a -> asConfigured b (noted n a).
Proof. by intros [Htr Hr]. Qed.

Lemma configured_code b hs a : asConfigured b a -> asConfigured b (withCode hs a).
Proof. by intros [Htr Hr]. Qed.

Lemma configured_slept b resp a : asConfigured b a -> asConfigured b (slept env resp a).
Proof. intros Ha. by apply configured_logged. Qed.

Lemma configured_repo hs a : asConfigured true a -> asConfigured true (withRepo hs a).
Proof. intros [Htr Hr]. by split. Qed.

Lemma codePages_configured b g q left page found a :
  asConfigured b a ->
  asConfiguredFlow b snd (codePages env cfg g q left page found a).
Proof.
  revert page found a.
  induction left as [|left IH]; intros page found a Ha; [done|].
  pose proof codeSearchURL_prefix as Hurl.
  cbn [codePages].
  destruct (ctx_Err env (tick a)) as [c|].
  { simpl. split; [done|]. apply searchesOnly_snoc; [apply Ha|done]. }
  destruct (client_get env _ _) as [msg|resp].
  { simpl. split; [done|]. apply searchesOnly_snoc; [|by left].
    apply searchesOnly_snoc; [apply Ha|done]. }
  set (a1 := logged (Requested _ (inr resp)) (logged (Polled None) a)).
  assert (Ha1 : asConfigured b a1).
  { apply configured_logged; [|by left]. by apply configured_logged. }
  clearbody a1.
  destruct (negb (StatusCode resp =? 200)).
  - destruct (StatusCode resp =? 422).
    + destruct (client_get env _ _) as [msg|resp2].
      { simpl. apply configured_slept, configured_noted.
        apply configured_logged; [done|by left]. }
      set (a2 := logged (Requested _ (inr resp2)) a1).
      assert (Ha2 : asConfigured b a2).
      { apply configured_logged; [done|by left]. }
      clearbody a2.
      destruct (StatusCode resp2 =? 200).
      * destruct (json_codeSearchResp _) as [msg|cr2]; [split; [done|apply Ha2]|].
        destruct (cs_Items cr2) as [|it items]; [apply Ha2|].
        apply IH. by apply configured_slept, configured_code.
      * simpl. by apply configured_slept, configured_noted, configured_noted.
    + simpl. by apply configured_slept, configured_noted.
  - destruct (json_codeSearchResp _) as [msg|cr]; [split; [done|apply Ha1]|].
    destruct (cs_Items cr) as [|it items]; [apply Ha1|].
    apply IH. by apply configured_slept, configured_code.
Qed.

Lemma repoPages_configured g q since left page found a :
  asConfigured true a ->
  asConfiguredFlow true snd (repoPages env cfg g q since left page found a).
Proof.
  revert page found a.
  induction left as [|left IH]; intros page found a Ha; [done|].
  pose proof repoSearchURL_prefix as Hurl.
  cbn [repoPages].
  destruct (ctx_Err env (tick a)) as [c|].
  { simpl. split; [done|]. apply searchesOnly_snoc; [apply Ha|done]. }
  destruct (client_get env _ _) as [msg|resp].
  { simpl. split; [done|]. apply searchesOnly_snoc; [|by right].
    apply searchesOnly_snoc; [apply Ha|done]. }
  set (a1 := logged (Requested _ (inr resp)) (logged (Polled None) a)).
  assert (Ha1 : asConfigured true a1).
  { apply configured_logged; [|by right]. by apply configured_logged. }
  clearbody a1.
  destruct (negb (StatusCode resp =? 200)).
  { simpl. by apply configured_slept, configured_noted. }
  destruct (json_repoSearchResp _) as [msg|rr]; [split; [done|apply Ha1]|].
  destruct (rs_Items rr) as [|it items]; [apply Ha1|].
  apply IH. by apply configured_slept, configured_repo.
Qed.

Lemma searchOne_configured since g q a :
  asConfigured (IncludeRepoSearch cfg) a ->
  asConfiguredFlow (IncludeRepoSearch cfg) id (searchOne env cfg since g q a).
Proof.
  intros Ha. unfold searchOne.
  destruct (negb (SearchQuery.Enabled q)); [done|].
  case_bool_decide.
  { pose proof (codePages_configured _ g q (Z.to_nat (MaxPages cfg)) 1 0 a Ha) as Hc.
    destruct (codePages _ _ _ _ _ _ _ _) as [[found a']|f e tr]; [|done].
    destruct (found =? 0); [by apply configured_noted|done]. }
  case_bool_decide; [|by apply configured_noted].
  destruct (IncludeRepoSearch cfg) eqn:Einc; simpl negb; cbv iota; [|done].
  pose proof (repoPages_configured g q since (Z.to_nat (MaxPages cfg)) 1 0 a Ha) as Hc.
  destruct (repoPages _ _ _ _ _ _ _ _ _) as [[found a']|f e tr]; [|done].
  destruct (found =? 0); [by apply configured_noted|done].
Qed.

Lemma searchEach_configured since g qs a :
  asConfigured (IncludeRepoSearch cfg) a ->
  asConfiguredFlow (IncludeRepoSearch cfg) id (searchEach env cfg since g qs a).
Proof.
  revert a. induction qs as [|q qs IH]; intros a Ha; simpl; [done|].
  pose proof (searchOne_configured since g q a Ha) as Hq.
  destruct (searchOne _ _ _ _ _ _) as [a'|f e tr]; [|done].
  by apply IH.
Qed.

Lemma searchGroups_configured since gs a :
  asConfigured (IncludeRepoSearch cfg) a ->
  asConfiguredFlow (IncludeRepoSearch cfg) id (searchGroups env cfg since gs a).
Proof.
  revert a. induction gs as [|g gs IH]; intros a Ha; simpl; [done|].
  destruct (negb (SearchGroup.Enabled g)); [by apply IH|].
  pose proof (searchEach_configured since g (SearchGroup.Searches g) a Ha) as Hq.
  destruct (searchEach _ _ _ _ _ _) as [a'|f e tr]; [|done].
  by apply IH.
Qed.
End Configured.

(** X20.  Every request of the search phase of a run is for a page of a code
    search, or for a page of a repository search; and when the repository
    searches are not included in the settings, no request is for a
    repository search and the Findings have no repository hit. *)
Theorem requests_as_configured `{GoLib} (env : Env) (cfg : AppSettings)
    (spec : QueriesSpec) :
  let f := (runSearches_traced env cfg spec).1.1 in
  let tr := (runSearches_traced env cfg spec).2 in
  (forall url r, Requested url r ∈ tr ->
     hasPrefix codeSearchPrefix url = true \/ hasPrefix repoSearchPrefix url = true) /\
  (IncludeRepoSearch cfg = false ->
     RepoHits f = [] /\
     forall url r, Requested url r ∈ tr -> hasPrefix codeSearchPrefix url = true).
Proof.
  intros f tr.
  assert (Hstart : asConfigured (IncludeRepoSearch cfg) startAcc).
  { split; [|done]. intros url r Hin. by apply elem_of_nil in Hin. }
  pose proof (searchGroups_configured env cfg (sinceOf env cfg) (Groups spec)
                startAcc Hstart) as Hflow.
  fold (searchPhase env cfg spec) in Hflow.
  assert (Htr : searchesOnly (IncludeRepoSearch cfg) tr /\
                (IncludeRepoSearch cfg = false -> RepoHits f = [])).
  { subst f tr. unfold runSearches_traced.
    destruct (searchPhase env cfg spec) as [a|f e tr]; simpl in *.
    - destruct Hflow as [Hs Hr]. split; [done|]. intros Hoff.
      by rewrite (Hr Hoff).
    - destruct Hflow as [-> Hs]. by split. }
  destruct Htr as [Hs Hr]. split.
  - intros url r Hin. destruct (Hs url r Hin) as [?|[_ ?]]; [by left|by right].
  - intros Hoff. split; [by apply Hr|].
    intros url r Hin. destruct (Hs url r Hin) as [?|[Hon _]]; [done|congruence].
Qed.

Lemma requests_as_configured_example :
  IncludeRepoSearch withoutRepoSearch = false /\
  RepoHits (runSearches_traced pushedBetween withoutRepoSearch twoSearches).1.1 = [].
Proof.
  split; [reflexivity|].
  exact (proj1 (proj2 (requests_as_configured pushedBetween withoutRepoSearch
                         twoSearches) eq_refl)).
Defined.

(** ** The fan-out: which date goes where *)

Lemma storeAll_snoc hits rs r :
  storeAll hits (rs ++ [r]) = store (storeAll hits rs) (res_i r) (res_t r).
Proof. unfold storeAll. by rewrite foldl_app. Qed.

Lemma storeAll_lookup hits rs :
  NoDup (res_i <$> rs) ->
  (forall r, r ∈ rs ->
     storeAll hits rs !! res_i r
     = CodeHit.setCommitDate (res_t r) <$> hits !! res_i r) /\
  (forall i, i ∉ res_i <$> rs -> storeAll hits rs !! i = hits !! i).
Proof.
  induction rs as [|r rs IH] using rev_ind; intros Hnd.
  { split; [by intros r ?%elem_of_nil|done]. }
  rewrite fmap_app in *. apply NoDup_app in Hnd as (Hnd & Hfresh & _).
  destruct (IH Hnd) as [IHin IHout].
  assert (Hr : res_i r ∉ res_i <$> rs).
  { intros Hin. apply (Hfresh _ Hin). simpl. left. }
  rewrite storeAll_snoc. unfold store. split.
  - intros r' [Hin|Heq%list_elem_of_singleton]%elem_of_app.
    + rewrite list_lookup_alter_ne; [by apply IHin|].
      intros E. apply Hr. rewrite E. apply list_elem_of_fmap. eauto.
    + subst r'. by rewrite list_lookup_alter_eq, (IHout _ Hr).
  - intros i Hi. rewrite not_elem_of_app in Hi. destruct Hi as [Hi Hne].
    rewrite list_lookup_alter_ne; [by apply IHout|].
    intros <-. apply Hne. simpl. left.
Qed.

Lemma inFlight_length ws : (length (concat (inflight <$> ws)) <= length ws)%nat.
Proof.
  induction ws as [|w ws IH]; [done|].
  rewrite fmap_cons. cbn [concat]. rewrite length_app.
  destruct w; cbn [inflight length]; lia.
Qed.

(** X21.  In every state of the fan-out, whatever the interleaving: the jobs
    still to send, the jobs that workers hold and the jobs whose result was
    received are each job of the slice once, so that no file is looked up
    twice and none is forgotten; the workers hold at most as many jobs as
    there are workers (two, [maxConcurrentDetails], in the program). *)
Theorem fanout_jobs_once `{GoLib} (W : nat) (hits : list CodeHit.t) (s : Pool) :
  rtc poolStep (initPool W hits) s ->
  (job_i <$> toSend s) ++ inFlight s ++ (res_i <$> received s)
    ≡ₚ seq 0 (length hits) /\
  NoDup ((job_i <$> toSend s) ++ inFlight s ++ (res_i <$> received s)) /\
  (length (inFlight s) <= W)%nat /\
  (W = maxConcurrentDetails -> (length (inFlight s) <= 2)%nat) /\
  (forall i, i ∈ inFlight s -> (i < length hits)%nat).
Proof.
  intros Hrun. destruct (reachable_inv W hits s Hrun) as (Hlen & Hout & Hperm & Hleft).
  fold (inFlight s) in Hperm.
  assert (Hw : (length (inFlight s) <= W)%nat).
  { rewrite <- Hlen. apply inFlight_length. }
  split; [done|]. split; [|split; [done|split]].
  - rewrite Hperm. apply NoDup_seq.
  - intros ->. exact Hw.
  - intros i Hi.
    assert (Hin : i ∈ seq 0 (length hits)).
    { rewrite <- Hperm. apply elem_of_app. right. apply elem_of_app. by left. }
    apply elem_of_seq in Hin. lia.
Qed.

Lemma afterFanOut_reached : rtc poolStep (initPool 2 threeHits) afterFanOut.
Proof.
  eapply rtc_l; [apply (step_take 0%nat); reflexivity|].
  eapply rtc_l; [apply (step_take 1%nat); reflexivity|].
  eapply rtc_l; [eapply step_request with (k := 1%nat) (answer := inl "timeout"); reflexivity|].
  eapply rtc_l; [apply (step_deliver 1%nat); reflexivity|].
  eapply rtc_l; [apply (step_take 1%nat); reflexivity|].
  eapply rtc_l;
    [eapply step_request with (k := 1%nat) (answer := commitsOK "2024-01-05T00:00:00Z"); reflexivity|].
  eapply rtc_l;
    [eapply step_request with (k := 0%nat) (answer := commitsOK "2024-01-02T00:00:00Z"); reflexivity|].
  eapply rtc_l; [apply (step_deliver 1%nat); reflexivity|].
  eapply rtc_l; [apply (step_deliver 0%nat); reflexivity|].
  eapply rtc_l; [apply (step_leave 0%nat); reflexivity|].
  eapply rtc_l; [apply (step_leave 1%nat); reflexivity|].
  apply rtc_refl.
Qed.

Lemma fanout_jobs_once_example :
  rtc poolStep (initPool 2 threeHits) afterFanOut /\
  (job_i <$> toSend afterFanOut) ++ inFlight afterFanOut
     ++ (res_i <$> received afterFanOut)
    ≡ₚ seq 0 (length threeHits) /\
  (length (inFlight afterFanOut) <= 2)%nat.
Proof.
  split; [exact afterFanOut_reached|].
  destruct (fanout_jobs_once 2 threeHits afterFanOut afterFanOut_reached)
    as (Hperm & _ & Hw & _).
  split; [exact Hperm|exact Hw].
Defined.

(** X22.  In every state of the fan-out, the slot of [out] at the index of a
    result received holds the hit of that index with the date of that
    result, and every other slot holds the hit of the input as it was: a
    date is never stored in the slot of another file, whatever the order of
    arrival.  At the end, with at least one worker, every hit has the date
    of the one result of its own job. *)
Theorem fanout_dates `{GoLib} (W : nat) (hits : list CodeHit.t) (s : Pool) :
  rtc poolStep (initPool W hits) s ->
  (forall r, r ∈ received s ->
     out s !! res_i r = CodeHit.setCommitDate (res_t r) <$> hits !! res_i r) /\
  (forall i, i ∉ res_i <$> received s -> out s !! i = hits !! i) /\
  ((0 < W)%nat -> finalPool s ->
   forall i h, hits !! i = Some h ->
     exists t, {| res_i := i; res_t := t |} ∈ received s /\
               out s !! i = Some (CodeHit.setCommitDate t h)).
Proof.
  intros Hrun. destruct (reachable_inv W hits s Hrun) as (Hlen & Hout & Hperm & Hleft).
  assert (Hnd : NoDup (res_i <$> received s)).
  { assert (Hall : NoDup ((job_i <$> toSend s) ++ concat (inflight <$> workers s)
                            ++ (res_i <$> received s))).
    { rewrite Hperm. apply NoDup_seq. }
    apply NoDup_app in Hall as (_ & _ & Hall).
    by apply NoDup_app in Hall as (_ & _ & Hall). }
  destruct (storeAll_lookup hits (received s) Hnd) as [Hin Hother].
  rewrite <- Hout in Hin, Hother.
  split; [done|]. split; [done|].
  intros HW Hfin i h Hi.
  assert (Hsome : Left ∈ workers s).
  { unfold finalPool in Hfin. destruct (workers s) as [|w ws]; simpl in *; [lia|].
    apply Forall_cons in Hfin as [-> _]. left. }
  rewrite (Hleft Hsome) in Hperm. simpl in Hperm.
  assert (E : concat (inflight <$> workers s) = []).
  { unfold finalPool in Hfin. clear -Hfin.
    induction Hfin as [|w ws -> _ IH]; simpl; [done|done]. }
  rewrite E in Hperm. simpl in Hperm.
  assert (Hi' : i ∈ res_i <$> received s).
  { rewrite Hperm. apply elem_of_seq. apply lookup_lt_Some in Hi. lia. }
  apply list_elem_of_fmap in Hi' as (r & -> & Hr).
  exists (res_t r). split; [by destruct r|].
  by rewrite (Hin r Hr), Hi.
Qed.

Lemma fanout_dates_example :
  rtc poolStep (initPool 2 threeHits) afterFanOut /\
  (0 < 2)%nat /\
  finalPool afterFanOut /\
  (forall i h, threeHits !! i = Some h ->
     exists t, {| res_i := i; res_t := t |} ∈ received afterFanOut /\
               out afterFanOut !! i = Some (CodeHit.setCommitDate t h)).
Proof.
  assert (HW : (0 < 2)%nat) by lia.
  assert (Hfin : finalPool afterFanOut) by (repeat constructor).
  split; [exact afterFanOut_reached|]. split; [exact HW|]. split; [exact Hfin|].
  exact (proj2 (proj2 (fanout_dates 2 threeHits afterFanOut afterFanOut_reached))
           HW Hfin).
Defined.

(** ** [enrichWithCommitDates] whatever the order of arrival *)

Lemma enrich_storeAll `{GoLib} env since hits :
  enrichWithCommitDates env since hits
  = storeAll hits
      ((fun i => {| res_i := i; res_t := jobResult env since hits i |})
         <$> arrival env hits).
Proof.
  unfold enrichWithCommitDates, storeAll.
  set (f := jobResult env since hits).
  assert (G : forall l o,
            foldl (fun out i => store out i (f i)) o l
            = foldl (fun o r => store o (res_i r) (res_t r)) o
                ((fun i => {| res_i := i; res_t := f i |}) <$> l)).
  { induction l as [|i l IH]; intros o; simpl; [done|]. apply IH. }
  apply G.
Qed.

(** X23.  When one result arrives for each job, as the fan-out has it, the
    slice that [enrichWithCommitDates] returns does not depend on the order
    of arrival: it is the input with, at each index, the date found for the
    file at that index; the hits are as many, in the same order, and the same
    but for the date. *)
Theorem enrich_any_order `{GoLib} (env : Env) (since : Time) (hits : list CodeHit.t) :
  arrival env hits ≡ₚ seq 0 (length hits) ->
  enrichWithCommitDates env since hits
  = imap (fun i h => CodeHit.setCommitDate (jobResult env since hits i) h) hits /\
  length (enrichWithCommitDates env since hits) = length hits /\
  (forall i h, hits !! i = Some h ->
     enrichWithCommitDates env since hits !! i
     = Some (CodeHit.setCommitDate
               (commitDateOf (detail_get env i (commitsURL since h))) h)).
Proof.
  intros Hperm. rewrite enrich_storeAll.
  set (rs := (fun i => {| res_i := i; res_t := jobResult env since hits i |})
               <$> arrival env hits).
  assert (Hidx : res_i <$> rs = arrival env hits).
  { subst rs. rewrite <- list_fmap_compose. simpl. apply list_fmap_id. }
  assert (Hnd : NoDup (res_i <$> rs)).
  { rewrite Hidx, Hperm. apply NoDup_seq. }
  destruct (storeAll_lookup hits rs Hnd) as [Hin _].
  assert (Hat : forall i h, hits !! i = Some h ->
            storeAll hits rs !! i
            = Some (CodeHit.setCommitDate (jobResult env since hits i) h)).
  { intros i h Hi.
    assert (Hi' : i ∈ arrival env hits).
    { rewrite Hperm. apply elem_of_seq. apply lookup_lt_Some in Hi. lia. }
    assert (Hr : {| res_i := i; res_t := jobResult env since hits i |} ∈ rs).
    { subst rs. apply list_elem_of_fmap. eauto. }
    specialize (Hin _ Hr). simpl in Hin. by rewrite Hin, Hi. }
  assert (Hlen : length (storeAll hits rs) = length hits).
  { apply storeAll_framed. }
  split; [|split; [done|]].
  - apply list_eq. intros i. rewrite list_lookup_imap.
    destruct (hits !! i) as [h|] eqn:Hi; simpl.
    + by apply Hat.
    + apply lookup_ge_None. rewrite Hlen. by apply lookup_ge_None.
  - intros i h Hi. rewrite (Hat i h Hi). unfold jobResult. by rewrite Hi.
Qed.

Lemma enrich_any_order_example :
  arrival threeFiles threeHits ≡ₚ seq 0 (length threeHits) /\
  length (enrichWithCommitDates threeFiles since threeHits) = length threeHits.
Proof.
  assert (Hperm : arrival threeFiles threeHits ≡ₚ seq 0 (length threeHits)).
  { change ([2; 0; 1]%nat ≡ₚ [0; 1; 2]%nat).
    etrans; [apply Permutation_swap|]. apply perm_skip. apply Permutation_swap. }
  split; [exact Hperm|].
  exact (proj1 (proj2 (enrich_any_order threeFiles since threeHits Hperm))).
Defined.

(** ** The orders handed to [sort.Slice] *)

(** X24.  The two comparisons that [runSearches] hands to [sort.Slice] are
    strict weak orders, as [sort.Slice] needs to sort: no hit is before
    itself, being before is transitive, and so is being neither before nor
    after (here: having the same date, or both no date).  For the code hits,
    a hit with a commit date is before every hit without one. *)
Theorem comparators_are_orders :
  strictWeak codeLess /\
  strictWeak repoLess /\
  (forall a b, dated a -> ~ dated b -> codeLess a b = true /\ codeLess b a = false) /\
  (forall a b, codeLess a b = false -> codeLess b a = false ->
     CodeHit.CommitDate a = CodeHit.CommitDate b) /\
  (forall a b, repoLess a b = false -> repoLess b a = false ->
     RepoHit.PushedAt a = RepoHit.PushedAt b).
Proof.
  split; [apply codeLess_strictWeak|]. split; [apply repoLess_strictWeak|].
  split; [|split].
  - intros a b Ha Hb. unfold codeLess, dated, IsZero, zeroTime in *.
    destruct (Z.eqb_spec (CodeHit.CommitDate a) 0); [done|].
    destruct (Z.eqb_spec (CodeHit.CommitDate b) 0); [done|]. by destruct Hb.
  - intros a b. unfold codeLess, IsZero, After.
    destruct (Z.eqb_spec (CodeHit.CommitDate a) 0) as [->|],
             (Z.eqb_spec (CodeHit.CommitDate b) 0) as [->|]; simpl; try done.
    intros H1%Z.ltb_ge H2%Z.ltb_ge. lia.
  - intros a b. unfold repoLess, After. intros H1%Z.ltb_ge H2%Z.ltb_ge. lia.
Qed.
